(** * GoodGuyBot: the parlay research job, its quota ledger and its parser

    A shallow embedding of [cogs/parlay.py], [utils/parlay_research.py] and
    [utils/sportsdata.py], and the properties of the job specification
    settled against it.

    Conventions of the embedding.
    - Python text is a [string] that holds the bytes of its UTF-8
      encoding; the string methods and the three regular expressions of
      the parser are written out over it.  Where Python counts characters
      ([len], a slice by a number) the count is of characters here too
      ([Py.char_len], [Py.take_chars]); an index returned by [find] or
      [rfind] is kept as the offset in bytes, which cuts the text at the
      same place.  The character classes are the ASCII part of Python's
      (whitespace is \t \n \v \f \r, \x1c..\x1f and the space), so the
      model is exact on text without whitespace outside ASCII.
    - The SQLite table [parlay_usage] is a finite map from its primary key
      [job_id] to the remaining columns.
    - Exceptions are explicit: a fallible function returns an [option] or
      an [outcome].
    - What the program takes from outside is a parameter: the clock, the
      research client (an oracle, one answer per call), and the library
      functions [json.loads], [repr] and the text of a pydantic
      [ValidationError] (class [Host]). *)

From Stdlib Require Import ZArith QArith String Ascii DecimalString Lia.
From stdpp Require Import base option list strings gmap fin_maps.

Local Open Scope string_scope.
Local Open Scope Z_scope.

(** ** Python text *)

Module Py.

Definition isspace (c : ascii) : bool :=
  let n := nat_of_ascii c in
  ((9 <=? n)%nat && (n <=? 13)%nat) || ((28 <=? n)%nat && (n <=? 32)%nat).

Definition lower_char (c : ascii) : ascii :=
  let n := nat_of_ascii c in
  if ((65 <=? n)%nat && (n <=? 90)%nat) then ascii_of_nat (n + 32) else c.

Fixpoint map_chars (f : ascii -> ascii) (s : string) : string :=
  match s with
  | EmptyString => EmptyString
  | String c r => String (f c) (map_chars f r)
  end.

(** [s.lower()] *)
Definition lower (s : string) : string := map_chars lower_char s.

(** [s.lstrip(chars)], the set of characters given as a predicate. *)
Fixpoint lstrip_by (p : ascii -> bool) (s : string) : string :=
  match s with
  | EmptyString => EmptyString
  | String c r => if p c then lstrip_by p r else s
  end.

(** [s.rstrip(chars)] *)
Fixpoint rstrip_by (p : ascii -> bool) (s : string) : string :=
  match s with
  | EmptyString => EmptyString
  | String c r =>
      match rstrip_by p r with
      | EmptyString => if p c then EmptyString else String c EmptyString
      | r' => String c r'
      end
  end.

Definition strip_by (p : ascii -> bool) (s : string) : string :=
  rstrip_by p (lstrip_by p s).

(** [s.strip()] *)
Definition strip (s : string) : string := strip_by isspace s.

(** [c in s] for a single character. *)
Fixpoint contains (c : ascii) (s : string) : bool :=
  match s with
  | EmptyString => false
  | String a r => Ascii.eqb a c || contains c r
  end.

(** [s.find(c)]: the first index of [c], or -1. *)
Fixpoint find (c : ascii) (s : string) : Z :=
  match s with
  | EmptyString => -1
  | String a r =>
      if Ascii.eqb a c then 0
      else let i := find c r in if i =? -1 then -1 else i + 1
  end.

(** [s.rfind(c)]: the last index of [c], or -1. *)
Fixpoint rfind (c : ascii) (s : string) : Z :=
  match s with
  | EmptyString => -1
  | String a r =>
      let i := rfind c r in
      if i =? -1 then (if Ascii.eqb a c then 0 else -1) else i + 1
  end.

(** [s[i:j]] for indices that are not negative. *)
Definition slice (s : string) (i j : Z) : string :=
  substring (Z.to_nat i) (Z.to_nat (j - i)) s.

(** A byte that continues a character of more than one byte. *)
Definition is_cont (c : ascii) : bool :=
  let n := nat_of_ascii c in (128 <=? n)%nat && (n <? 192)%nat.

(** The number of characters of a text: its bytes that start one. *)
Fixpoint char_len (s : string) : nat :=
  match s with
  | EmptyString => 0%nat
  | String c r => if is_cont c then char_len r else S (char_len r)
  end.

(** [s[:n]] for a number [n] of characters: a character is taken with
    the bytes that continue it. *)
Fixpoint take_chars (n : nat) (s : string) : string :=
  match s with
  | EmptyString => EmptyString
  | String c r =>
      if is_cont c then String c (take_chars n r)
      else match n with
           | O => EmptyString
           | S n' => String c (take_chars n' r)
           end
  end.

(** [len(s)] *)
Definition len (s : string) : Z := Z.of_nat (char_len s).

(** Every character is in ASCII. *)
Fixpoint is_ascii (s : string) : bool :=
  match s with
  | EmptyString => true
  | String c r => (nat_of_ascii c <? 128)%nat && is_ascii r
  end.

(** [s.startswith(p)] *)
Definition startswith (p s : string) : bool := String.prefix p s.

(** Truth value of a text: the empty text is false. *)
Definition nonempty (s : string) : bool :=
  match s with EmptyString => false | _ => true end.

End Py.

(** ** The quota ledger ([cogs/parlay.py], SQLite helpers) *)

(** The column [status], with its CHECK constraint. *)
Inductive Status := pending | success | failed.

#[global] Instance Status_eq_dec : EqDecision Status.
Proof. solve_decision. Defined.

(** A row of [parlay_usage] without its primary key. *)
Record JobRow := mkRow { user_id : Z; et_date : string; status : Status }.

#[global] Instance JobRow_eq_dec : EqDecision JobRow.
Proof. solve_decision. Defined.

Abbreviation Ledger := (gmap string JobRow).

Definition DAILY_MAX_PARLAYS : Z := 3.

(** [INSERT OR REPLACE INTO parlay_usage ... VALUES (?, ?, ?, 'pending')] *)
Definition _create_pending_job (job_id : string) (uid : Z) (date : string)
    (db : Ledger) : Ledger :=
  <[job_id := mkRow uid date pending]> db.

(** [UPDATE parlay_usage SET status=? WHERE job_id=?] *)
Definition _set_job_status (job_id : string) (st : Status) (db : Ledger) : Ledger :=
  alter (fun r => mkRow (user_id r) (et_date r) st) job_id db.

(** The WHERE clause of the count. *)
Definition counted (uid : Z) (date : string) (kv : string * JobRow) : Prop :=
  user_id kv.2 = uid ∧ et_date kv.2 = date ∧ status kv.2 = success.

#[global] Instance counted_dec uid date kv : Decision (counted uid date kv).
Proof. unfold counted. apply _. Defined.

(** [SELECT COUNT(1) ... WHERE user_id=? AND et_date=? AND status='success'] *)
Definition _count_success_today (uid : Z) (date : string) (db : Ledger) : Z :=
  Z.of_nat (size (filter (counted uid date) db)).

(** [_remaining_today]; [today] is [_today_et_str()], read from the clock. *)
Definition _remaining_today (today : string) (uid : Z) (db : Ledger) : Z * string :=
  let used := _count_success_today uid today db in
  let remaining := Z.max 0 (DAILY_MAX_PARLAYS - used) in
  (remaining, today).

(** ** Dates ([utils/sportsdata.py]) *)

(** A calendar date, as read from [datetime.now(ET)]. *)
Record date := mkDate { year : Z; month : Z; day : Z }.

Definition is_leap (y : Z) : bool :=
  ((y mod 4 =? 0) && negb (y mod 100 =? 0)) || (y mod 400 =? 0).

Definition days_in_month (y m : Z) : Z :=
  if m =? 2 then (if is_leap y then 29 else 28)
  else if (m =? 4) || (m =? 6) || (m =? 9) || (m =? 11) then 30
  else 31.

(** [d + timedelta(days=1)] on the calendar fields. *)
Definition next_day (d : date) : date :=
  if day d <? days_in_month (year d) (month d)
  then mkDate (year d) (month d) (day d + 1)
  else if month d <? 12 then mkDate (year d) (month d + 1) 1
  else mkDate (year d + 1) 1 1.

(** The dates of the calendar. *)
Definition valid_date (d : date) : Prop :=
  1 <= month d <= 12 ∧ 1 <= day d <= days_in_month (year d) (month d).

(** Decimal digits of a number that is not negative. *)
Definition digits (n : Z) : string :=
  DecimalString.NilZero.string_of_uint (Nat.to_uint (Z.to_nat n)).

(** Zero padding on the left up to width [w]. *)
Definition zpad (w : nat) (n : Z) : string :=
  let d := digits n in
  String.concat "" (repeat "0" (w - String.length d)) ++ d.

(** [strftime] with the format [%Y-%m-%d], for a year of four digits. *)
Definition strftime_ymd (d : date) : string :=
  zpad 4 (year d) ++ "-" ++ zpad 2 (month d) ++ "-" ++ zpad 2 (day d).

(** [_today_et_str] of [cogs/parlay.py], at the clock reading [now]. *)
Definition _today_et_str (now : date) : string := strftime_ymd now.

Definition tomorrow_aliases : list string :=
  ["tomorrow"; "tmr"; "tommorow"; "tomorow"].

(** [normalize_date]; [None] is Python's [None]. *)
Definition normalize_date (now : date) (date_str : option string) : string :=
  match date_str with
  | None => strftime_ymd now
  | Some s =>
      if negb (Py.nonempty s) || (Py.lower s =? "today")%string
      then strftime_ymd now
      else if bool_decide (Py.lower s ∈ tomorrow_aliases)
      then strftime_ymd (next_day now)
      else s
  end.

(** ** The research worker ([utils/parlay_research.py]) *)

(** An exception, by what the code asks of it: whether it is a
    [TypeError], and its [str]. *)
Record exn := mkExn { exn_type_error : bool; exn_text : string }.

Inductive outcome (A : Type) : Type :=
| Return (a : A)
| Raise (e : exn).
Arguments Return {A} a.
Arguments Raise {A} e.

(** The response object, by its attribute [output_text] ([None] when the
    attribute is missing or is [None]). *)
Record response := mkResp { output_text : option string }.

(** The research client: the answer of the [k]-th call of
    [client.responses.create], made with [response_format] ([true]) or
    without it ([false]). *)
Definition client_t : Type := nat -> bool -> outcome response.

(** What [_call_deep_research] does besides returning. *)
Inductive effect :=
| Call (with_response_format : bool)
| Sleep (seconds : Q).

#[global] Instance effect_neq_call_dec (ef : effect) (b : bool) : Decision (ef ≠ Call b).
Proof.
  destruct ef as [b'|q].
  - destruct (decide (b' = b)) as [->|Hne].
    + right. intros Hne. by apply Hne.
    + left. intros Heq. apply Hne. by injection Heq.
  - left. discriminate.
Defined.

Definition max_retries : nat := 3.

(** The two terms of the argument of [time.sleep],
    [(2 ** attempt) + (0.1 * attempt)], in exact arithmetic. *)
Definition base_delay (attempt : nat) : Q := inject_Z (2 ^ Z.of_nat attempt).

Definition jitter (attempt : nat) : Q := ((1 # 10) * inject_Z (Z.of_nat attempt))%Q.

Definition backoff (attempt : nat) : Q := (base_delay attempt + jitter attempt)%Q.

(** The body of [for attempt in range(max_retries)], over the attempts
    still to run; [calls] counts the calls made so far and [log] holds the
    effects in reverse order.  After the loop, [last_err] is raised, or a
    [RuntimeError] when there is none. *)
Fixpoint retry_loop (client : client_t) (todo : list nat) (calls : nat)
    (last_err : option exn) (log : list effect)
    : outcome response * list effect :=
  match todo with
  | [] =>
      (Raise (default (mkExn false "Deep Research request failed") last_err), log)
  | attempt :: rest =>
      match client calls true with
      | Return r => (Return r, Call true :: log)
      | Raise e =>
          if exn_type_error e then
            match client (S calls) false with
            | Return r => (Return r, Call false :: Call true :: log)
            | Raise e2 =>
                retry_loop client rest (S (S calls)) (Some e2)
                  (Sleep (backoff attempt) :: Call false :: Call true :: log)
            end
          else
            retry_loop client rest (S calls) (Some e)
              (Sleep (backoff attempt) :: Call true :: log)
      end
  end.

(** [_call_deep_research]: the result and the effects in program order. *)
Definition _call_deep_research (client : client_t)
    : outcome response * list effect :=
  let '(r, log) := retry_loop client (seq 0 max_retries) 0 None [] in
  (r, rev log).

(** The calls of a log, by their mode, and its sleeps. *)
Definition calls_made (log : list effect) : list bool :=
  omap (fun ef => match ef with Call b => Some b | _ => None end) log.

Definition sleeps (log : list effect) : list Q :=
  omap (fun ef => match ef with Sleep q => Some q | _ => None end) log.

(** An attempt is one turn of the loop; it starts with the call that
    passes [response_format]. *)
Definition attempts_made (log : list effect) : nat :=
  length (filter (fun b => b = true) (calls_made log)).

(** A log without its fallback calls: the attempts and the sleeps. *)
Definition skeleton (log : list effect) : list effect :=
  filter (fun ef => ef ≠ Call false) log.

(** Three attempts, each followed by its sleep. *)
Definition schedule : list effect :=
  [Call true; Sleep (backoff 0); Call true; Sleep (backoff 1);
   Call true; Sleep (backoff 2)].

(** ** JSON values and the host library *)

#[local] Set Warnings "-register-all".

(** What [json.loads] returns.  A float is carried by its [repr]. *)
Inductive json :=
| JNull
| JBool (b : bool)
| JInt (n : Z)
| JFloat (repr : string)
| JStr (s : string)
| JArr (items : list json)
| JObj (fields : list (string * json)).

(** The library functions the parser calls: [json.loads] ([None] when it
    raises), [repr] and the text of the [ValidationError] that
    [ParlayResult.model_validate] raises on a value. *)
Class Host := {
  json_loads : string -> option json;
  py_repr : json -> string;
  ve_text : json -> string;
}.

Definition dquote : ascii := ascii_of_nat 34.

(** [d.get(k)] on the fields of an object. *)
Fixpoint dict_get (k : string) (kvs : list (string * json)) : option json :=
  match kvs with
  | [] => None
  | (k', v) :: rest => if (k =? k')%string then Some v else dict_get k rest
  end.

(** [d.setdefault(k, v)] *)
Definition setdefault (k : string) (v : json) (kvs : list (string * json))
    : list (string * json) :=
  match dict_get k kvs with
  | Some _ => kvs
  | None => kvs ++ [(k, v)]
  end.

(** Truth value of a Python object. *)
Definition truthy (j : json) : bool :=
  match j with
  | JNull => false
  | JBool b => b
  | JInt n => negb (n =? 0)
  | JFloat r => negb ((r =? "0.0")%string || (r =? "-0.0")%string)
  | JStr s => Py.nonempty s
  | JArr items => match items with [] => false | _ => true end
  | JObj fields => match fields with [] => false | _ => true end
  end.

(** [d.get(k) or dflt] *)
Definition get_or (k : string) (dflt : json) (kvs : list (string * json)) : json :=
  match dict_get k kvs with
  | Some v => if truthy v then v else dflt
  | None => dflt
  end.

(** [for x in j]: the items, or [None] for the [TypeError] of a value that
    is not iterable. *)
Definition py_iter (j : json) : option (list json) :=
  match j with
  | JArr items => Some items
  | JStr s => Some (map (fun c => JStr (String c EmptyString)) (list_ascii_of_string s))
  | JObj fields => Some (map (fun kv => JStr kv.1) fields)
  | _ => None
  end.

(** [str(x)] *)
Definition py_str `{Host} (j : json) : string :=
  match j with
  | JStr s => s
  | JNull => "None"
  | JBool true => "True"
  | JBool false => "False"
  | JInt n => if n <? 0 then "-" ++ digits (- n) else digits n
  | JFloat r => r
  | _ => py_repr j
  end.

Definition is_dict (j : json) : bool :=
  match j with JObj _ => true | _ => false end.

(** ** The three regular expressions of [_extract_json_from_text] *)

Module Re.

Definition fence : string := "```".

(** The tail of the fence pattern, [\s*```]. *)
Definition closes (r : string) : bool :=
  Py.startswith fence (Py.lstrip_by Py.isspace r).

(** [(.+?)\s*```]: the shortest group, at least one character, after
    which the tail matches. *)
Fixpoint lazy_group (b : string) : option string :=
  match b with
  | EmptyString => None
  | String c r =>
      if closes r then Some (String c EmptyString)
      else String c <$> lazy_group r
  end.

(** [\s*(.+?)\s*```]: the longest run of whitespace first, then shorter
    ones. *)
Fixpoint ws_then_group (b : string) : option string :=
  match b with
  | EmptyString => None
  | String c r =>
      if Py.isspace c then
        match ws_then_group r with
        | Some g => Some g
        | None => lazy_group b
        end
      else lazy_group b
  end.

Definition drop (n : nat) (s : string) : string :=
  substring n (String.length s) s.

(** [(?:json)?\s*(.+?)\s*```] under IGNORECASE, on the text after the
    opening fence: with the tag first, then without it. *)
Definition after_fence (b : string) : option string :=
  let tagged :=
    if (Py.lower (substring 0 4 b) =? "json")%string
    then ws_then_group (drop 4 b) else None in
  match tagged with
  | Some g => Some g
  | None => ws_then_group b
  end.

(** [re.search] of the pattern [```(?:json)?\s*(.+?)\s*```] under DOTALL
    and IGNORECASE: group 1 of the leftmost match. *)
Fixpoint fence_search (s : string) : option string :=
  match s with
  | EmptyString => None
  | String c r =>
      let here :=
        if Py.startswith fence s then after_fence (drop 3 s) else None in
      match here with
      | Some g => Some g
      | None => fence_search r
      end
  end.

Definition is_closer (c : ascii) : bool :=
  Ascii.eqb c "}" || Ascii.eqb c "]".

(** [re.sub] of the pattern [,\s*([}\]])] by its group 1, scanning left
    to right; [fuel] bounds the number of characters consumed. *)
Fixpoint sub_trailing_commas (fuel : nat) (t : string) : string :=
  match fuel with
  | O => t
  | S fuel' =>
      match t with
      | EmptyString => EmptyString
      | String c r =>
          if Ascii.eqb c "," then
            match Py.lstrip_by Py.isspace r with
            | String d r' =>
                if is_closer d then String d (sub_trailing_commas fuel' r')
                else String c (sub_trailing_commas fuel' r)
            | EmptyString => String c (sub_trailing_commas fuel' r)
            end
          else String c (sub_trailing_commas fuel' r)
      end
  end.

(** The substitution of a double quote for every single quote that no
    backslash precedes (pattern [(?<!\\)'] of [re.sub]); [prev] tells
    whether the character before is a backslash. *)
Fixpoint sub_single_quotes (prev : bool) (t : string) : string :=
  match t with
  | EmptyString => EmptyString
  | String c r =>
      String (if Ascii.eqb c "'" && negb prev then dquote else c)
             (sub_single_quotes (Ascii.eqb c "\") r)
  end.

End Re.

(** ** Extraction ([_extract_json_from_text]) *)

(** The span between the first [{] and the last [}], else between the
    first [[] and the last []], else the whole text. *)
Definition isolate (s : string) : string :=
  let start_obj := Py.find "{" s in
  let end_obj := Py.rfind "}" s in
  let start_arr := Py.find "[" s in
  let end_arr := Py.rfind "]" s in
  if negb (start_obj =? -1) && negb (end_obj =? -1) && (start_obj <? end_obj)
  then Py.slice s start_obj (end_obj + 1)
  else if negb (start_arr =? -1) && negb (end_arr =? -1) && (start_arr <? end_arr)
  then Py.slice s start_arr (end_arr + 1)
  else s.

(** Some comma of [t] has only whitespace of ASCII between it and a
    closing brace or bracket: [Re.sub_trailing_commas] changes the text. *)
Fixpoint has_trailing_comma (t : string) : bool :=
  match t with
  | EmptyString => false
  | String c r =>
      (Ascii.eqb c ","
       && match Py.lstrip_by Py.isspace r with
          | String d _ => Re.is_closer d
          | EmptyString => false
          end)
      || has_trailing_comma r
  end.

(** A byte that whitespace may hold: a whitespace character of ASCII, or
    a byte of a character outside ASCII, as every whitespace character
    outside ASCII is written with such bytes only. *)
Definition may_be_space (c : ascii) : bool :=
  Py.isspace c || (128 <=? nat_of_ascii c)%nat.

(** Some comma of [t] has only bytes that whitespace may hold between it
    and a closing brace or bracket: without such a comma the comma
    pattern has no match, whatever whitespace outside ASCII the text
    holds. *)
Fixpoint comma_may_trail (t : string) : bool :=
  match t with
  | EmptyString => false
  | String c r =>
      (Ascii.eqb c ","
       && match Py.lstrip_by may_be_space r with
          | String d _ => Re.is_closer d
          | EmptyString => false
          end)
      || comma_may_trail r
  end.

(** The condition of the single-quote repair. *)
Definition looks_single_quoted (t : string) : bool :=
  Py.contains "'" t && negb (Py.contains dquote (Py.take_chars 80 t)).

(** The two repairs, in order. *)
Definition repair (t : string) : string :=
  let t := Re.sub_trailing_commas (String.length t) t in
  if looks_single_quoted t then Re.sub_single_quotes false t else t.

(** The text handed to [json.loads]. *)
Definition json_candidate (text : string) : string :=
  let s := Py.strip text in
  let s := match Re.fence_search s with
           | Some g => Py.strip g
           | None => s
           end in
  repair (Py.strip (isolate s)).

(** The characters stripped by the retry: backtick, space, \n, \r, \t. *)
Definition fence_junk (c : ascii) : bool :=
  Ascii.eqb c "`" || Ascii.eqb c " " || Ascii.eqb c (ascii_of_nat 10)
  || Ascii.eqb c (ascii_of_nat 13) || Ascii.eqb c (ascii_of_nat 9).

(** The wrapping of a top-level array. *)
Definition wrap_array (data : json) : json :=
  match data with
  | JArr _ =>
      JObj [("parlay", data); ("rationales", JArr []); ("risks", JStr "");
            ("sources", JArr [])]
  | _ => data
  end.

(** [_extract_json_from_text]; [None] when the second [json.loads] raises. *)
Definition _extract_json_from_text `{Host} (text : string) : option json :=
  let t := json_candidate text in
  let parsed :=
    match json_loads t with
    | Some data => Some data
    | None => json_loads (Py.strip_by fence_junk t)
    end in
  wrap_array <$> parsed.

(** ** The schema ([ParlayLeg], [ParlayResult]) and its validation *)

Record ParlayLeg := mkLeg {
  market : string;
  selection : string;
  book_examples : list string;
  confidence : string;
}.

Record ParlayResult := mkResult {
  parlay : list ParlayLeg;
  rationales : list string;
  risks : string;
  sources : list string;
}.

Definition confidence_levels : list string := ["low"; "medium"; "high"].

(** The field validator [_conf_ok]; [None] for its [ValueError]. *)
Definition _conf_ok (v : string) : option string :=
  let v2 := Py.lower (Py.strip v) in
  if bool_decide (v2 ∈ confidence_levels) then Some v2 else None.

(** A field of type [str]: only a text validates. *)
Definition as_str (j : json) : option string :=
  match j with JStr s => Some s | _ => None end.

(** A field of type [List[str]]. *)
Definition as_str_list (j : json) : option (list string) :=
  match j with JArr items => mapM as_str items | _ => None end.

(** A field with a default: the default when the key is missing. *)
Definition field_or {A} (dflt : A) (check : json -> option A) (o : option json)
    : option A :=
  match o with
  | None => Some dflt
  | Some v => check v
  end.

(** Validation of one leg, as [ParlayLeg.model_validate] of an object and
    as the constructor called on its keys; unknown keys are ignored. *)
Definition validate_leg (j : json) : option ParlayLeg :=
  match j with
  | JObj kvs =>
      m ← dict_get "market" kvs ≫= as_str;
      s ← dict_get "selection" kvs ≫= as_str;
      b ← field_or [] as_str_list (dict_get "book_examples" kvs);
      c ← (dict_get "confidence" kvs ≫= as_str) ≫= _conf_ok;
      Some (mkLeg m s b c)
  | _ => None
  end.

Definition as_leg_list (j : json) : option (list ParlayLeg) :=
  match j with JArr items => mapM validate_leg items | _ => None end.

(** [ParlayResult.model_validate(data)]; [None] for [ValidationError]. *)
Definition model_validate (data : json) : option ParlayResult :=
  match data with
  | JObj kvs =>
      p ← field_or [] as_leg_list (dict_get "parlay" kvs);
      r ← field_or [] as_str_list (dict_get "rationales" kvs);
      k ← field_or "" as_str (dict_get "risks" kvs);
      u ← field_or [] as_str_list (dict_get "sources" kvs);
      Some (mkResult p r k u)
  | _ => None
  end.

(** The four [setdefault] calls, made when [data] is a dict. *)
Definition normalize_missing (data : json) : json :=
  match data with
  | JObj kvs =>
      JObj (setdefault "sources" (JArr [])
             (setdefault "risks" (JStr "")
               (setdefault "rationales" (JArr [])
                 (setdefault "parlay" (JArr []) kvs))))
  | _ => data
  end.

(** The salvage path: the body of the inner [try]; [None] when it raises
    (a leg that fails validation, a value that cannot be iterated, data
    without [.get]). *)
Definition salvage `{Host} (data : json) : option ParlayResult :=
  match data with
  | JObj kvs =>
      legs ← py_iter (get_or "parlay" (JArr []) kvs);
      p ← mapM validate_leg (filter (fun leg => is_dict leg = true) legs);
      r ← py_iter (get_or "rationales" (JArr []) kvs);
      u ← py_iter (get_or "sources" (JArr []) kvs);
      Some (mkResult p (py_str <$> r)
              (py_str (get_or "risks" (JStr "") kvs)) (py_str <$> u))
  | _ => None
  end.

(** The object that states a result: the four keys of the schema, each
    leg with its four keys. *)
Definition encode_leg (l : ParlayLeg) : json :=
  JObj [("market", JStr (market l)); ("selection", JStr (selection l));
        ("book_examples", JArr (JStr <$> book_examples l));
        ("confidence", JStr (confidence l))].

Definition encode_result (r : ParlayResult) : json :=
  JObj [("parlay", JArr (encode_leg <$> parlay r));
        ("rationales", JArr (JStr <$> rationales r));
        ("risks", JStr (risks r));
        ("sources", JArr (JStr <$> sources r))].

(** The confidence of every leg is one of the three levels as written. *)
Definition canonical (r : ParlayResult) : Prop :=
  Forall (fun l => confidence l ∈ confidence_levels) (parlay r).

(** ** A result equal to an object, field for field

    What the specification calls an object that satisfies the schema and
    a result equal to it field for field, written from those words and
    not from the validation of the code: a key of the object holds the
    JSON form of the field, or is missing when the schema gives the field
    a default and the field has that default.  The order of the keys and
    the keys the schema does not name play no part. *)

Definition field_states {A} (enc : A -> json) (dflt : A) (o : option json) (x : A)
    : Prop :=
  o = Some (enc x) ∨ (o = None ∧ x = dflt).

Definition text_list (l : list string) : json := JArr (JStr <$> l).

Definition leg_states (j : json) (l : ParlayLeg) : Prop :=
  ∃ kvs, j = JObj kvs
    ∧ dict_get "market" kvs = Some (JStr (market l))
    ∧ dict_get "selection" kvs = Some (JStr (selection l))
    ∧ field_states text_list [] (dict_get "book_examples" kvs) (book_examples l)
    ∧ dict_get "confidence" kvs = Some (JStr (confidence l)).

Definition result_states (data : json) (r : ParlayResult) : Prop :=
  ∃ kvs, data = JObj kvs
    ∧ ((∃ legs, dict_get "parlay" kvs = Some (JArr legs)
                ∧ Forall2 leg_states legs (parlay r))
       ∨ (dict_get "parlay" kvs = None ∧ parlay r = []))
    ∧ field_states text_list [] (dict_get "rationales" kvs) (rationales r)
    ∧ field_states JStr "" (dict_get "risks" kvs) (risks r)
    ∧ field_states text_list [] (dict_get "sources" kvs) (sources r).

(** Extraction followed by validation, as the runner chains them. *)
Definition extract_then_validate `{Host} (text : string) : option ParlayResult :=
  _extract_json_from_text text ≫= (fun data => model_validate (normalize_missing data)).

(** ** The public runner ([run_deep_research]) *)

Record request := mkRequest {
  user_query : string;
  sport : string;
  legs : Z;
  date_iso : option string;
  region : option string;
  constraints : option string;
}.

(** The preview of the raw text in an error message: the first 300
    characters and an ellipsis when the text is longer. *)
Definition preview (text : string) : string :=
  if Py.nonempty text && (300 <? Py.len text)
  then Py.take_chars 300 text ++ " …"
  else text.

(** [run_deep_research].  The prompt built from the request goes to the
    client and to nothing else; the oracle [client] stands for the answers
    to it. *)
Definition run_deep_research `{Host} (client : client_t) (req : request)
    : option ParlayResult * option string :=
  if negb (Py.nonempty (Py.strip (user_query req))) then
    (None, Some "Please specify what you want researched (teams, props, angles).")
  else
    match (_call_deep_research client).1 with
    | Raise e => (None, Some ("Deep Research request failed: " ++ exn_text e))
    | Return resp =>
        match output_text resp with
        | None => (None, Some "Empty response from the research model.")
        | Some text =>
            match _extract_json_from_text text with
            | None =>
                (None, Some ("Model did not return valid JSON. Preview: ```"
                             ++ preview text ++ "```"))
            | Some data =>
                let data := normalize_missing data in
                match model_validate data with
                | Some parsed => (Some parsed, None)
                | None =>
                    match salvage data with
                    | Some rough => (Some rough, None)
                    | None =>
                        (None, Some ("Model output failed validation: "
                                     ++ ve_text data ++ String (ascii_of_nat 10)
                                     ("Preview: ```" ++ preview text ++ "```")))
                    end
                end
            end
        end
    end.

(** ** The job command ([Parlay.parlay] of [cogs/parlay.py]) *)

Definition PREMIUM_ROLE_ID : Z := 1406008056516444211.
Definition HEARTBEAT_SECONDS : Z := 120.
Definition JOB_TIMEOUT_SECONDS : Z := 14 * 60.

Inductive color := yellow | green | red.

(** The status embed, by its status word, its colour, its timer (minutes,
    seconds) and the frame of [SPINNER] shown while the job is in
    progress; the title and the two timestamps are left out. *)
Record status_embed := mkStatus {
  se_job_id : string;
  se_status : string;
  se_color : color;
  se_timer : Z * Z;
  se_spin : option nat;
}.

Definition in_progress (st : string) : bool :=
  bool_decide (st ∈ ["Running"; "Waiting"; "Processing"]).

(** [_status_embed] *)
Definition _status_embed (job_id st : string) (elapsed_s : Z) (spinner_idx : nat)
    : status_embed :=
  let e := Z.max 0 elapsed_s in
  {| se_job_id := job_id;
     se_status := st;
     se_color := if in_progress st then yellow
                 else if (st =? "Complete")%string then green else red;
     se_timer := (e / 60, e mod 60);
     se_spin := if in_progress st then Some (spinner_idx mod 12)%nat else None |}.

(** Truth value of the error of a result pair ([if err:]). *)
Definition err_set (err : option string) : bool :=
  match err with
  | Some e => Py.nonempty e
  | None => false
  end.

(** The final embed, by its kind. *)
Inductive result_embed :=
| ErrorEmbed (err : string)
| ResultEmbed (r : ParlayResult).

(** [_result_embed]; [None] when [assert result is not None] fails. *)
Definition _result_embed (result : option ParlayResult) (err : option string)
    : option result_embed :=
  match err with
  | Some e => if Py.nonempty e then Some (ErrorEmbed e) else ResultEmbed <$> result
  | None => ResultEmbed <$> result
  end.

Inductive deliver_t := dm | channel.

(** [inter.author] *)
Record member := mkMember {
  member_id : Z;
  administrator : bool;
  role_ids : list Z;
}.

(** The parameters of the slash command. *)
Record command := mkCommand {
  c_sport : string;
  c_legs : Z;
  c_query : string;
  c_date : option string;
  c_region : option string;
  c_constraints : option string;
  c_deliver : deliver_t;
}.

(** What one run of the command reads from outside: the clock in ET, the
    job id drawn from [uuid4], the readings of the elapsed seconds, how
    many times the heartbeat fires while the command waits, whether the
    worker resolves within [JOB_TIMEOUT_SECONDS], and the research
    client. *)
Record world := mkWorld {
  w_now : date;
  w_uuid : string;
  w_elapsed : nat -> Z;
  w_heartbeats : nat;
  w_in_time : bool;
  w_client : client_t;
}.

(** What the command does that an observer sees, in program order.
    Sends whose failure the code swallows count as made. *)
Inductive event :=
| SendMessage (text : string)
| Defer
| ShowStatus (e : status_embed)
| StartWorker
| CancelWorker
| CancelHeartbeat
| SendResult (e : result_embed)
| AssertionError.

Definition access_denied : string :=
  "⛔ You need **Administrator** or the **ParlayAI+** role to use this command.".

Definition limit_reached : string :=
  "⏱️ Daily limit reached. You’ve already completed **"
  ++ digits DAILY_MAX_PARLAYS ++ "** parlays today (ET). Try again tomorrow.".

Definition timeout_message : string :=
  "Timed out waiting for research (took too long). Try narrowing the query or choosing fewer legs.".

(** [SPORT_ALIASES.get(sport.lower(), sport.lower())] *)
Definition sport_key_of (sp : string) : string :=
  let s := Py.lower sp in
  if (s =? "ufc")%string then "mma" else s.

(** The emissions of [heartbeat_updater]: [n] ticks after the spinner
    stood at [spinner_idx]. *)
Definition heartbeat_events (job_id : string) (elapsed : nat -> Z)
    (spinner_idx n : nat) : list event :=
  (fun k => ShowStatus (_status_embed job_id "Running" (elapsed (S k))
                          (spinner_idx + S k)%nat)) <$> seq 0 n.

Module Parlay.

(** [Parlay.parlay]: the ledger after the command and what it emitted. *)
Definition parlay `{Host} (w : world) (author : member) (c : command)
    (db : Ledger) : Ledger * list event :=
  let is_admin := administrator author in
  let has_role := existsb (Z.eqb PREMIUM_ROLE_ID) (role_ids author) in
  if negb (is_admin || has_role) then (db, [SendMessage access_denied])
  else
    let '(remaining, today) :=
      _remaining_today (_today_et_str (w_now w)) (member_id author) db in
    if remaining <=? 0 then (db, [SendMessage limit_reached])
    else
      let sport_key := sport_key_of (c_sport c) in
      let job_id := w_uuid w in
      let date_iso := normalize_date (w_now w) (c_date c) in
      let db := _create_pending_job job_id (member_id author) today db in
      let n := w_heartbeats w in
      let opening : list event :=
        ([Defer;
          ShowStatus (_status_embed job_id "Waiting" 0 0);
          ShowStatus (_status_embed job_id "Waiting" (w_elapsed w 0) 1);
          StartWorker]
         ++ heartbeat_events job_id (w_elapsed w) 1 n)%list in
      let spinner_idx := (1 + n)%nat in
      if negb (w_in_time w) then
        (_set_job_status job_id failed db,
         (opening ++
          [CancelWorker;
           ShowStatus (_status_embed job_id "Failed" JOB_TIMEOUT_SECONDS spinner_idx);
           SendResult (ErrorEmbed timeout_message);
           CancelHeartbeat])%list)
      else
        let spinner_idx := S spinner_idx in
        let processing :=
          ShowStatus (_status_embed job_id "Processing" (w_elapsed w (S n)) spinner_idx) in
        let '(result, err) :=
          run_deep_research (w_client w)
            (mkRequest (c_query c) sport_key (c_legs c) (Some date_iso)
               (c_region c) (c_constraints c)) in
        let elapsed := w_elapsed w (S (S n)) in
        let db := _set_job_status job_id (if err_set err then failed else success) db in
        match _result_embed result err with
        | None => (db, (opening ++ [CancelHeartbeat; processing; AssertionError])%list)
        | Some final_emb =>
            let done_status :=
              ShowStatus (_status_embed job_id
                            (if err_set err then "Failed" else "Complete")
                            elapsed spinner_idx) in
            (db, (opening ++ [CancelHeartbeat; processing] ++
                  match c_deliver c with
                  | dm => [SendResult final_emb; done_status]
                  | channel => [done_status; SendResult final_emb]
                  end)%list)
        end.

End Parlay.

(** The request the command hands to the worker. *)
Definition request_of (w : world) (c : command) : request :=
  mkRequest (c_query c) (sport_key_of (c_sport c)) (c_legs c)
    (Some (normalize_date (w_now w) (c_date c))) (c_region c) (c_constraints c).

(** What an admitted run emits up to the end of its wait. *)
Definition opening_of (w : world) : list event :=
  ([Defer;
    ShowStatus (_status_embed (w_uuid w) "Waiting" 0 0);
    ShowStatus (_status_embed (w_uuid w) "Waiting" (w_elapsed w 0) 1);
    StartWorker]
   ++ heartbeat_events (w_uuid w) (w_elapsed w) 1 (w_heartbeats w))%list.

(** The status words of the emissions, in order. *)
Definition statuses (evs : list event) : list string :=
  omap (fun ev => match ev with ShowStatus e => Some (se_status e) | _ => None end) evs.

(** The terminal ones: those that are not in progress. *)
Definition terminal_statuses (evs : list event) : list string :=
  filter (fun st => in_progress st = false) (statuses evs).

(** The ledger rows written, and the errors delivered. *)
Definition delivered_errors (evs : list event) : list string :=
  omap (fun ev => match ev with SendResult (ErrorEmbed e) => Some e | _ => None end) evs.

(** ** A reader for the JSON of the examples

    A recursive-descent reader of the JSON grammar without [\u] escapes,
    without fractions or exponents in numbers and without the constants
    NaN and Infinity; it stands for [json.loads] on the concrete texts
    below, which stay inside that fragment.  The theorems stated for
    every [Host] do not depend on it. *)

Module Reader.

Definition is_ws (c : ascii) : bool :=
  Ascii.eqb c " " || Ascii.eqb c (ascii_of_nat 9)
  || Ascii.eqb c (ascii_of_nat 10) || Ascii.eqb c (ascii_of_nat 13).

Definition skip_ws (s : string) : string := Py.lstrip_by is_ws s.

Definition unescape (c : ascii) : option ascii :=
  if Ascii.eqb c dquote then Some dquote
  else if Ascii.eqb c "\" then Some "\"%char
  else if Ascii.eqb c "/" then Some "/"%char
  else if Ascii.eqb c "b" then Some (ascii_of_nat 8)
  else if Ascii.eqb c "f" then Some (ascii_of_nat 12)
  else if Ascii.eqb c "n" then Some (ascii_of_nat 10)
  else if Ascii.eqb c "r" then Some (ascii_of_nat 13)
  else if Ascii.eqb c "t" then Some (ascii_of_nat 9)
  else None.

(** The characters of a string after its opening quote, and the rest. *)
Fixpoint read_string (s : string) : option (string * string) :=
  match s with
  | EmptyString => None
  | String c r =>
      if Ascii.eqb c dquote then Some (EmptyString, r)
      else if Ascii.eqb c "\" then
        match r with
        | String e r' =>
            ch ← unescape e;
            '(body, rest) ← read_string r';
            Some (String ch body, rest)
        | EmptyString => None
        end
      else if (nat_of_ascii c <? 32)%nat then None
      else '(body, rest) ← read_string r; Some (String c body, rest)
  end.

Definition is_digit (c : ascii) : bool :=
  (48 <=? nat_of_ascii c)%nat && (nat_of_ascii c <=? 57)%nat.

(** The digits at the front of [s], as a number, and the rest. *)
Fixpoint read_digits (acc : Z) (s : string) : Z * string :=
  match s with
  | String c r =>
      if is_digit c then read_digits (10 * acc + Z.of_nat (nat_of_ascii c - 48)) r
      else (acc, s)
  | EmptyString => (acc, s)
  end.

(** An integer without sign: a lone 0, or digits that do not start with 0. *)
Definition read_nat (s : string) : option (Z * string) :=
  match s with
  | String c r =>
      if Ascii.eqb c "0" then Some (0, r)
      else if is_digit c then Some (read_digits 0 s)
      else None
  | EmptyString => None
  end.

(** A fraction or an exponent follows: a float, outside the fragment. *)
Definition float_follows (s : string) : bool :=
  match s with
  | String c _ => Ascii.eqb c "." || Ascii.eqb c "e" || Ascii.eqb c "E"
  | EmptyString => false
  end.

(** [d[k] = v] on the fields of an object. *)
Fixpoint dict_set (k : string) (v : json) (kvs : list (string * json))
    : list (string * json) :=
  match kvs with
  | [] => [(k, v)]
  | (k', v') :: rest =>
      if (k =? k')%string then (k, v) :: rest else (k', v') :: dict_set k v rest
  end.

Fixpoint read_value (fuel : nat) (s : string) : option (json * string) :=
  match fuel with
  | O => None
  | S fuel' =>
      match s with
      | EmptyString => None
      | String c r =>
          if Ascii.eqb c "{" then
            match skip_ws r with
            | String d r' =>
                if Ascii.eqb d "}" then Some (JObj [], r')
                else read_members fuel' (String d r') []
            | EmptyString => None
            end
          else if Ascii.eqb c "[" then
            match skip_ws r with
            | String d r' =>
                if Ascii.eqb d "]" then Some (JArr [], r')
                else read_elements fuel' (String d r') []
            | EmptyString => None
            end
          else if Ascii.eqb c dquote then
            '(body, rest) ← read_string r; Some (JStr body, rest)
          else if Py.startswith "null" s then Some (JNull, Re.drop 4 s)
          else if Py.startswith "true" s then Some (JBool true, Re.drop 4 s)
          else if Py.startswith "false" s then Some (JBool false, Re.drop 5 s)
          else if Ascii.eqb c "-" then
            '(n, rest) ← read_nat r;
            if float_follows rest then None else Some (JInt (- n), rest)
          else
            '(n, rest) ← read_nat s;
            if float_follows rest then None else Some (JInt n, rest)
      end
  end
with read_members (fuel : nat) (s : string) (acc : list (string * json))
    : option (json * string) :=
  match fuel with
  | O => None
  | S fuel' =>
      match s with
      | String c r =>
          if Ascii.eqb c dquote then
            '(key, rest) ← read_string r;
            match skip_ws rest with
            | String colon rest1 =>
                if Ascii.eqb colon ":" then
                  '(v, rest2) ← read_value fuel' (skip_ws rest1);
                  let acc := dict_set key v acc in
                  match skip_ws rest2 with
                  | String d rest3 =>
                      if Ascii.eqb d "}" then Some (JObj acc, rest3)
                      else if Ascii.eqb d "," then read_members fuel' (skip_ws rest3) acc
                      else None
                  | EmptyString => None
                  end
                else None
            | EmptyString => None
            end
          else None
      | EmptyString => None
      end
  end
with read_elements (fuel : nat) (s : string) (acc : list json)
    : option (json * string) :=
  match fuel with
  | O => None
  | S fuel' =>
      '(v, rest) ← read_value fuel' s;
      match skip_ws rest with
      | String d rest1 =>
          if Ascii.eqb d "]" then Some (JArr (acc ++ [v])%list, rest1)
          else if Ascii.eqb d "," then read_elements fuel' (skip_ws rest1) (acc ++ [v])%list
          else None
      | EmptyString => None
      end
  end.

(** The whole text is one value, with whitespace around it. *)
Definition loads (s : string) : option json :=
  '(v, rest) ← read_value (2 * String.length s + 2) (skip_ws s);
  match skip_ws rest with
  | EmptyString => Some v
  | _ => None
  end.

End Reader.

(** The host of the examples: the reader above; [repr] and the text of a
    validation error are not rendered. *)
Definition example_host : Host :=
  {| json_loads := Reader.loads;
     py_repr := fun _ => "<repr>";
     ve_text := fun _ => "<validation errors>" |}.

(** A text written with [$] where it has a double quote. *)
Definition dq (s : string) : string :=
  Py.map_chars (fun c => if Ascii.eqb c "$" then dquote else c) s.

(** ** Data of the examples *)

(** A ledger with two successes and one failure of user 7 on one day. *)
Definition ledger_two_wins : Ledger :=
  <["0A0A0A0A" := mkRow 7 "2025-01-15" success]>
    (<["0B0B0B0B" := mkRow 7 "2025-01-15" failed]>
      (<["0C0C0C0C" := mkRow 7 "2025-01-15" success]> ∅)).

(** A ledger whose only job was reserved and finalized as success. *)
Definition ledger_one_win : Ledger :=
  _set_job_status "A1B2C3D4" success
    (_create_pending_job "A1B2C3D4" 7 "2025-01-15" ∅).

(** A client whose every call fails, the strict ones with a [TypeError]. *)
Definition failing_client : client_t :=
  fun k strict => Raise (mkExn strict ("boom " ++ digits (Z.of_nat k))).

(** A client that answers its first call with the text [t]. *)
Definition replying (t : string) : client_t :=
  fun _ _ => Return (mkResp (Some t)).

Definition a_request : request :=
  mkRequest "Lakers vs Celtics" "nba" 3 (Some "2025-01-15") None None.

(** The array-only reply of the specification's scenario. *)
Definition array_only_text : string :=
  dq "[{$market$:$moneyline$,$selection$:$A -3$,$confidence$:$HIGH$}]".

(** Three legs, the second with a confidence outside the three levels. *)
Definition leg_a : json :=
  JObj [("market", JStr "moneyline"); ("selection", JStr "A -3");
        ("confidence", JStr "high")].
Definition leg_b : json :=
  JObj [("market", JStr "spread"); ("selection", JStr "B +7");
        ("confidence", JStr "certain")].
Definition leg_c : json :=
  JObj [("market", JStr "total"); ("selection", JStr "O 210.5");
        ("confidence", JStr " Low ")].

Definition three_legs_text : string :=
  dq ("{$parlay$:[{$market$:$moneyline$,$selection$:$A -3$,$confidence$:$high$},"
      ++ "{$market$:$spread$,$selection$:$B +7$,$confidence$:$certain$},"
      ++ "{$market$:$total$,$selection$:$O 210.5$,$confidence$:$ Low $}],"
      ++ "$rationales$:[],$risks$:$$,$sources$:[]}").

Definition three_legs_data : json :=
  JObj [("parlay", JArr [leg_a; leg_b; leg_c]); ("rationales", JArr []);
        ("risks", JStr ""); ("sources", JArr [])].

(** A result of the schema whose risks text holds a comma before a
    closing bracket, its JSON text, and what comes back. *)
Definition noted_result : ParlayResult :=
  mkResult [mkLeg "moneyline" "A -3" ["DraftKings"] "high"]
           ["rested starters"] "books [DK, FD,] may move" ["https://example.org/a"].

Definition noted_text : string :=
  dq ("{$parlay$:[{$market$:$moneyline$,$selection$:$A -3$,"
      ++ "$book_examples$:[$DraftKings$],$confidence$:$high$}],"
      ++ "$rationales$:[$rested starters$],"
      ++ "$risks$:$books [DK, FD,] may move$,"
      ++ "$sources$:[$https://example.org/a$]}").

Definition noted_result_back : ParlayResult :=
  mkResult [mkLeg "moneyline" "A -3" ["DraftKings"] "high"]
           ["rested starters"] "books [DK, FD] may move" ["https://example.org/a"].

(** A result of the schema and a JSON text of it that no repair touches. *)
Definition plain_result : ParlayResult :=
  mkResult [mkLeg "spread" "BOS -3.5" ["DraftKings"; "FanDuel"] "medium"]
           ["why leg 1"] "late scratches" ["https://example.org/b"].

Definition plain_text : string :=
  dq ("{$parlay$: [{$market$: $spread$, $selection$: $BOS -3.5$, "
      ++ "$book_examples$: [$DraftKings$, $FanDuel$], $confidence$: $medium$}], "
      ++ "$rationales$: [$why leg 1$], $risks$: $late scratches$, "
      ++ "$sources$: [$https://example.org/b$]}").

(** The same leg with its keys in another order and without the books,
    in an object that has the risks first and neither rationales nor
    sources. *)
Definition reordered_text : string :=
  dq ("{$risks$: $late scratches$, $parlay$: [{$selection$: $BOS -3.5$, "
      ++ "$confidence$: $medium$, $market$: $spread$}]}").

Definition reordered_data : json :=
  JObj [("risks", JStr "late scratches");
        ("parlay", JArr [JObj [("selection", JStr "BOS -3.5");
                               ("confidence", JStr "medium");
                               ("market", JStr "spread")]])].

Definition reordered_result : ParlayResult :=
  mkResult [mkLeg "spread" "BOS -3.5" [] "medium"] [] "late scratches" [].

(** A ledger with three successes of user 7 on one day. *)
Definition ledger_three_wins : Ledger :=
  <["0D0D0D0D" := mkRow 7 "2025-01-15" success]> ledger_two_wins.

Definition an_admin : member := mkMember 7 true [].

Definition a_command : command :=
  mkCommand "UFC" 3 "main card" (Some "today") None None channel.

(** A run whose worker does not resolve in time, with two heartbeats. *)
Definition timeout_world : world :=
  mkWorld (mkDate 2025 1 15) "A1B2C3D4" (fun k => 120 * Z.of_nat k) 2 false
          failing_client.

(** * Further code

    The helpers of [cogs/parlay.py] that build the embeds, the cache and
    the fetch of [utils/sportsdata.py], and the observers the further
    properties use. *)

(** ** More Python text *)

Module Str.

Definition upper_char (c : ascii) : ascii :=
  let n := nat_of_ascii c in
  if ((97 <=? n)%nat && (n <=? 122)%nat) then ascii_of_nat (n - 32) else c.

Definition is_lower (c : ascii) : bool :=
  let n := nat_of_ascii c in (97 <=? n)%nat && (n <=? 122)%nat.

Definition is_upper (c : ascii) : bool :=
  let n := nat_of_ascii c in (65 <=? n)%nat && (n <=? 90)%nat.

(** [s.upper()] *)
Definition upper (s : string) : string := Py.map_chars upper_char s.

(** [s.title()]: a letter that follows a letter is lowered, a letter that
    follows anything else is raised; [prev] tells whether the character
    before is a letter. *)
Fixpoint title_from (prev : bool) (s : string) : string :=
  match s with
  | EmptyString => EmptyString
  | String c r =>
      if is_lower c then
        String (if prev then c else upper_char c) (title_from true r)
      else if is_upper c then
        String (if prev then Py.lower_char c else c) (title_from true r)
      else String c (title_from false r)
  end.

Definition title (s : string) : string := title_from false s.

(** [sep.join(parts)] *)
Fixpoint join (sep : string) (parts : list string) : string :=
  match parts with
  | [] => EmptyString
  | [p] => p
  | p :: rest => p ++ sep ++ join sep rest
  end.

(** [q in v] for two texts. *)
Fixpoint has_sub (q v : string) : bool :=
  String.prefix q v
  || match v with
     | EmptyString => false
     | String _ r => has_sub q r
     end.

(** The characters of a text that are not whitespace. *)
Fixpoint non_space (s : string) : string :=
  match s with
  | EmptyString => EmptyString
  | String c r => if Py.isspace c then non_space r else String c (non_space r)
  end.

End Str.

Definition newline : ascii := ascii_of_nat 10.

(** ** The embed helpers ([cogs/parlay.py]) *)

(** The loop of [_chunk]: while [s] has more than [limit] characters,
    [s[:cut]] is the text before the last newline among its first [limit]
    characters, or those [limit] characters when there is none, and
    [s[cut:]] is the rest.  [fuel] bounds the turns of the loop; [None]
    when it runs out. *)
Fixpoint chunk_loop (fuel limit : nat) (s : string) (parts : list string)
    : option (list string) :=
  if (limit <? Py.char_len s)%nat then
    match fuel with
    | O => None
    | S fuel' =>
        let found := Py.rfind newline (Py.take_chars limit s) in
        let head := if found =? -1 then Py.take_chars limit s
                    else substring 0 (Z.to_nat found) s in
        chunk_loop fuel' limit
          (Py.lstrip_by Py.isspace (Re.drop (String.length head) s))
          (parts ++ [Py.rstrip_by Py.isspace head])%list
    end
  else Some (if Py.nonempty s then (parts ++ [s])%list else parts).

(** [_chunk(text, limit)] *)
Definition _chunk (text : string) (limit : nat) : option (list string) :=
  chunk_loop (String.length (Py.strip text)) limit (Py.strip text) [].

Definition CHUNK_LIMIT : nat := 1010.

(** The line of the [i]-th source. *)
Definition source_line (i : nat) (u : string) : string :=
  digits (Z.of_nat i) ++ ". <" ++ Py.strip u ++ ">".

(** The lines of [_sources_block], the first source numbered [i]; an
    empty source has no line. *)
Fixpoint sources_lines (i : nat) (urls : list string) : list string :=
  match urls with
  | [] => []
  | u :: rest =>
      if Py.nonempty u then source_line i u :: sources_lines (S i) rest
      else sources_lines (S i) rest
  end.

(** [_sources_block(urls, max_items)] *)
Definition _sources_block (urls : list string) (max_items : nat) : string :=
  match sources_lines 1 (take max_items urls) with
  | [] => "—"
  | out => Str.join (String newline EmptyString) out
  end.

(** A field of an embed: its name and its value. *)
Record field := mkField { f_name : string; f_value : string }.

(** The fields of the chunks of one text: the first under [name], the
    others under the name of its continuation. *)
Definition chunk_fields (name : string) (chunks : list string) : list field :=
  imap (fun i ch => mkField (if (i =? 0)%nat then name else name ++ " (cont.)") ch)
       chunks.

(** The chunks of a text under the default limit. *)
Definition chunks_of (text : string) : list string :=
  default [] (_chunk text CHUNK_LIMIT).

(** The field of the [i]-th leg. *)
Definition leg_field (i : nat) (leg : ParlayLeg) : field :=
  let nl := String newline EmptyString in
  let books := match book_examples leg with
               | [] => "—"
               | _ => Str.join ", " (take 3 (book_examples leg))
               end in
  mkField ("Leg " ++ digits (Z.of_nat i))
          ("**Selection:** " ++ selection leg ++ nl
           ++ "**Market:** " ++ Str.title (market leg) ++ nl
           ++ "**Books:** " ++ books ++ nl
           ++ "**Confidence:** " ++ Str.upper (confidence leg)).

(** The bulleted text of the rationales that are not blank. *)
Definition rationale_text (rs : list string) : string :=
  "• " ++ Str.join (String newline "• ")
            (filter (fun x => Py.nonempty (Py.strip x) = true) rs).

Definition leg_fields (legs : list ParlayLeg) : list field :=
  match legs with
  | [] => [mkField "Parlay" "No legs returned."]
  | _ => imap (fun i leg => leg_field (S i) leg) legs
  end.

Definition rationale_fields (rs : list string) : list field :=
  match rs with
  | [] => []
  | _ => chunk_fields "Rationale" (chunks_of (rationale_text rs))
  end.

Definition risks_fields (k : string) : list field :=
  if Py.nonempty k then chunk_fields "Risks" (chunks_of k) else [].

(** The fields of the embed of a result. *)
Definition result_fields (r : ParlayResult) : list field :=
  (leg_fields (parlay r) ++ rationale_fields (rationales r)
   ++ risks_fields (risks r)
   ++ [mkField "Sources" (_sources_block (sources r) 10)])%list.

(** The fields of [_result_embed]; [None] when its assertion fails. *)
Definition _result_embed_fields (result : option ParlayResult) (err : option string)
    : option (list field) :=
  if err_set err then Some (mkField "Error" <$> chunks_of (default "" err))
  else result_fields <$> result.

(** ** The command with sends that may fail ([Parlay.parlay])

    [Parlay.parlay] above is the command when every send goes through.
    Here the answers of the sends that decide what the command does next
    are inputs: the two calls made outside any [try], whose exception
    ends the command, and the sends of the last step, whose failure
    leads to a second way of delivery.  The other sends are inside a
    [try] that swallows their failure, so that they change nothing in
    what follows. *)

Record sends := mkSends {
  defer_ok : bool;  (* inter.response.defer, outside any try *)
  first_ok : bool;  (* the first status, sent outside any try *)
  dm_ok : bool;     (* inter.author.send of the final embed *)
  edit_ok : bool;   (* the edit that shows the last status *)
  post_ok : bool;   (* inter.followup.send of the final embed *)
  notice_ok : bool; (* the edit that says the result could not be posted *)
}.

Definition all_ok : sends := mkSends true true true true true true.

(** The calls that send, and what they carry. *)
Inductive route := AuthorSend | FollowupSend | EditOriginal | EditStatusMsg.

Inductive payload :=
| PStatus (e : status_embed)
| PResult (e : result_embed)
| PResultNotice (e : result_embed)
| PNotice.

(** One send, and whether it went through. *)
Record attempt := mkAttempt {
  at_route : route;
  at_payload : payload;
  at_ok : bool;
}.

Definition dm_closed_notice : string :=
  "⚠️ I couldn't DM you the result (DMs closed?). Posting here instead.".

Definition cannot_post_notice : string :=
  "⚠️ Couldn’t post the result due to permissions.".

(** The last step of a run that resolved: the final embed and the last
    status, by the mode of delivery.  In channel mode [status_msg] is the
    message the first send returned. *)
Definition deliver_final (mode : deliver_t) (o : sends)
    (final_emb : result_embed) (done_status : status_embed) : list attempt :=
  match mode with
  | dm =>
      ([mkAttempt AuthorSend (PResult final_emb) (dm_ok o);
        mkAttempt EditOriginal (PStatus done_status) (edit_ok o)]
       ++ (if edit_ok o && negb (dm_ok o)
           then [mkAttempt FollowupSend (PResultNotice final_emb) (post_ok o)]
           else []))%list
  | channel =>
      ([mkAttempt EditStatusMsg (PStatus done_status) (edit_ok o);
        mkAttempt FollowupSend (PResult final_emb) (post_ok o)]
       ++ (if post_ok o then []
           else [mkAttempt EditOriginal PNotice (notice_ok o)]))%list
  end.

(** The last step of a run that timed out. *)
Definition deliver_timeout (mode : deliver_t) (o : sends)
    (timeout_embed : result_embed) (done_status : status_embed) : list attempt :=
  match mode with
  | channel =>
      [mkAttempt EditStatusMsg (PStatus done_status) (edit_ok o);
       mkAttempt FollowupSend (PResult timeout_embed) (post_ok o)]
  | dm =>
      ([mkAttempt EditOriginal (PStatus done_status) (edit_ok o);
        mkAttempt AuthorSend (PResult timeout_embed) (dm_ok o)]
       ++ (if dm_ok o then []
           else [mkAttempt FollowupSend (PResult timeout_embed) (post_ok o)]))%list
  end.

(** A send as the event the observer of [Parlay.parlay] sees. *)
Definition attempt_event (a : attempt) : event :=
  match at_payload a with
  | PStatus e => ShowStatus e
  | PResult e => SendResult e
  | PResultNotice e => SendResult e
  | PNotice => SendMessage cannot_post_notice
  end.

(** The result embeds that reached the caller, and those that were
    sent. *)
Definition reached (atts : list attempt) : list result_embed :=
  omap (fun a => match at_payload a with
                 | PResult e | PResultNotice e => if at_ok a then Some e else None
                 | _ => None
                 end) atts.

Definition tried (atts : list attempt) : list result_embed :=
  omap (fun a => match at_payload a with
                 | PResult e | PResultNotice e => Some e
                 | _ => None
                 end) atts.

(** [Parlay.parlay] with the answers of its sends: the ledger after the
    command and the sends it made, in program order.  An exception of
    [defer] or of the first status ends the command where it stands. *)
Definition parlay_with_sends `{Host} (o : sends) (w : world) (author : member)
    (c : command) (db : Ledger) : Ledger * list event :=
  let is_admin := administrator author in
  let has_role := existsb (Z.eqb PREMIUM_ROLE_ID) (role_ids author) in
  if negb (is_admin || has_role) then (db, [SendMessage access_denied])
  else
    let '(remaining, today) :=
      _remaining_today (_today_et_str (w_now w)) (member_id author) db in
    if remaining <=? 0 then (db, [SendMessage limit_reached])
    else if negb (defer_ok o) then (db, [Defer])
    else
      let sport_key := sport_key_of (c_sport c) in
      let job_id := w_uuid w in
      let date_iso := normalize_date (w_now w) (c_date c) in
      let db := _create_pending_job job_id (member_id author) today db in
      let first := ShowStatus (_status_embed job_id "Waiting" 0 0) in
      if negb (first_ok o) then (db, [Defer; first])
      else
        let n := w_heartbeats w in
        let opening : list event :=
          ([Defer; first;
            ShowStatus (_status_embed job_id "Waiting" (w_elapsed w 0) 1);
            StartWorker]
           ++ heartbeat_events job_id (w_elapsed w) 1 n)%list in
        let spinner_idx := (1 + n)%nat in
        if negb (w_in_time w) then
          (_set_job_status job_id failed db,
           (opening ++ [CancelWorker]
            ++ (attempt_event
                  <$> deliver_timeout (c_deliver c) o (ErrorEmbed timeout_message)
                        (_status_embed job_id "Failed" JOB_TIMEOUT_SECONDS
                           spinner_idx))
            ++ [CancelHeartbeat])%list)
        else
          let spinner_idx := S spinner_idx in
          let processing :=
            ShowStatus (_status_embed job_id "Processing" (w_elapsed w (S n))
                          spinner_idx) in
          let '(result, err) :=
            run_deep_research (w_client w)
              (mkRequest (c_query c) sport_key (c_legs c) (Some date_iso)
                 (c_region c) (c_constraints c)) in
          let elapsed := w_elapsed w (S (S n)) in
          let db :=
            _set_job_status job_id (if err_set err then failed else success) db in
          match _result_embed result err with
          | None => (db, (opening ++ [CancelHeartbeat; processing; AssertionError])%list)
          | Some final_emb =>
              (db, (opening ++ [CancelHeartbeat; processing]
                    ++ (attempt_event
                          <$> deliver_final (c_deliver c) o final_emb
                                (_status_embed job_id
                                   (if err_set err then "Failed" else "Complete")
                                   elapsed spinner_idx)))%list)
          end.

(** ** The cache and the fetch ([utils/sportsdata.py]) *)

(** [TTLCache._store]: the expiry and the value under each key.  Times
    are seconds in exact arithmetic. *)
Abbreviation TTLStore := (gmap string (Q * json)).

(** [now > exp] *)
Definition expired (now exp : Q) : bool := negb (Qle_bool now exp).

(** [TTLCache.get], at the clock reading [now]: the value, and the store
    without the entry when it had expired. *)
Definition cache_get (now : Q) (key : string) (store : TTLStore)
    : option json * TTLStore :=
  match store !! key with
  | None => (None, store)
  | Some (exp, val) =>
      if expired now exp then (None, delete key store) else (Some val, store)
  end.

(** [TTLCache.set] *)
Definition cache_set (now : Q) (key : string) (val : json) (ttl : Z)
    (store : TTLStore) : TTLStore :=
  <[key := ((now + inject_Z ttl)%Q, val)]> store.

(** The answer of the server to one request: its status and its body as
    JSON ([None] when the body does not parse). *)
Record http_reply := mkReply { reply_status : Z; reply_json : option json }.

(** How [_get] ends. *)
Inductive fetched :=
| Data (data : json)
| ResponseError (status : Z)
| BodyError.

(** What [_get] does besides returning. *)
Inductive fetch_effect :=
| Request (path : string)
| Wait (seconds : Q).

(** [SportsDataClient._get]: the clock reads [now] at the lookup and
    [later] at the store; [server] answers the request. *)
Definition _get (server : string -> http_reply) (now later : Q)
    (path : string) (ttl : Z) (key : string) (store : TTLStore)
    : fetched * TTLStore * list fetch_effect :=
  let '(cached, store) := cache_get now key store in
  let miss :=
    let reply := server path in
    let waits := if reply_status reply =? 429 then [Wait 1] else [] in
    if 400 <=? reply_status reply
    then (ResponseError (reply_status reply), store, Request path :: waits)
    else match reply_json reply with
         | None => (BodyError, store, Request path :: waits)
         | Some data =>
             (Data data, cache_set later key data ttl store, Request path :: waits)
         end in
  match cached with
  | Some JNull => miss
  | Some data => (Data data, store, [])
  | None => miss
  end.

(** The name fields [match_team] reads. *)
Definition team_keys : list string :=
  ["Name"; "FullName"; "City"; "Team"; "Nickname"; "Key"].

(** The test of [match_team] on one team, a dict by its fields: some name
    field, lowered, is not empty and holds the query. *)
Definition team_matches `{Host} (q : string) (t : list (string * json)) : bool :=
  existsb (fun k =>
             let v := Py.lower (py_str (default (JStr "") (dict_get k t))) in
             Py.nonempty v && ((q =? v)%string || Str.has_sub q v))
          team_keys.

(** [SportsDataClient.match_team] *)
Definition match_team `{Host} (teams : list (list (string * json))) (query : string)
    : option (list (string * json)) :=
  let q := Py.lower (Py.strip query) in
  List.find (team_matches q) teams.

(** ** The methods that fetch ([SportsDataClient]) *)

(** [SPORT_MAP]: the league and the teams endpoint of each sport. *)
Definition SPORT_MAP : list (string * (string * string)) :=
  [("nfl", ("nfl", "Teams")); ("nba", ("nba", "Teams")); ("mlb", ("mlb", "Teams"));
   ("nhl", ("nhl", "Teams")); ("ncaaf", ("cfb", "Teams")); ("ncaab", ("cbb", "Teams"));
   ("wnba", ("wnba", "Teams")); ("mls", ("soccer-mls", "Teams"));
   ("epl", ("soccer-premier-league", "Teams"));
   ("laliga", ("soccer-la-liga", "Teams")); ("seriea", ("soccer-serie-a", "Teams"));
   ("bundesliga", ("soccer-bundesliga", "Teams"));
   ("ucl", ("soccer-uefa-champions-league", "Teams"));
   ("f1", ("f1", "Teams")); ("nascar", ("nascar", "Teams")); ("golf", ("golf", "Teams"));
   ("tennis", ("tennis", "Competitors")); ("mma", ("mma", "Fighters"));
   ("boxing", ("boxing", "Fighters"))].

Definition TTL_SCORES : Z := 30.
Definition TTL_STAND : Z := 1800.
Definition TTL_ODDS : Z := 30.

Fixpoint sport_map_get (sport : string) (m : list (string * (string * string)))
    : option (string * string) :=
  match m with
  | [] => None
  | (k, v) :: rest => if (sport =? k)%string then Some v else sport_map_get sport rest
  end.

(** [_league]; [None] for its [ValueError]. *)
Definition _league (sport : string) : option string :=
  fst <$> sport_map_get sport SPORT_MAP.

(** The state a method threads through its calls of [_get]: the store,
    what was done so far, and the number of calls made. *)
Definition fetch_state : Type := TTLStore * list fetch_effect * nat.

(** One call of [_get] inside a method; [clock k] gives the two readings
    of the clock during the call number [k]. *)
Definition get_in (server : string -> http_reply) (clock : nat -> Q * Q)
    (path : string) (ttl : Z) (key : string) (st : fetch_state)
    : fetched * fetch_state :=
  let '(store, log, k) := st in
  let '(res, store', effs) := _get server (clock k).1 (clock k).2 path ttl key store in
  (res, (store', (log ++ effs)%list, S k)).

(** The loop of [games_by_date] over the endpoints left. *)
Fixpoint games_loop (server : string -> http_reply) (clock : nat -> Q * Q)
    (league sd_date : string) (endpoints : list string) (st : fetch_state)
    : fetched * fetch_state :=
  match endpoints with
  | [] => (Data (JArr []), st)
  | endpoint :: rest =>
      let path := "/v3/" ++ league ++ "/scores/json/" ++ endpoint ++ "/" ++ sd_date in
      let key := "scores:" ++ league ++ ":" ++ sd_date ++ ":" ++ endpoint in
      match get_in server clock path TTL_SCORES key st with
      | (ResponseError status, st') =>
          if status =? 404 then games_loop server clock league sd_date rest st'
          else (ResponseError status, st')
      | other => other
      end
  end.

(** [games_by_date]; [to_sd] stands for [iso_to_sportsdata_date], which
    never raises; [None] for the [ValueError] of [_league]. *)
Definition games_by_date (server : string -> http_reply) (clock : nat -> Q * Q)
    (to_sd : string -> string) (sport date_iso : string) (store : TTLStore)
    : option (fetched * fetch_state) :=
  league ← _league sport;
  Some (games_loop server clock league (to_sd date_iso)
          ["GamesByDate"; "ScoresByDate"] (store, [], 0%nat)).

(** The dict [odds_by_date] returns for a status 403 or 404. *)
Definition odds_unavailable (status : Z) : json :=
  JObj [("__odds_unavailable__", JBool true); ("status", JInt status)].

(** [odds_by_date] *)
Definition odds_by_date (server : string -> http_reply) (clock : nat -> Q * Q)
    (to_sd : string -> string) (sport date_iso : string) (store : TTLStore)
    : option (fetched * fetch_state) :=
  league ← _league sport;
  let sd_date := to_sd date_iso in
  Some match get_in server clock
               ("/v3/" ++ league ++ "/odds/json/GameOddsByDate/" ++ sd_date) TTL_ODDS
               ("odds:" ++ league ++ ":" ++ sd_date) (store, [], 0%nat) with
       | (ResponseError status, st') =>
           if (status =? 403) || (status =? 404)
           then (Data (odds_unavailable status), st')
           else (ResponseError status, st')
       | other => other
       end.

(** The text of an integer ([f"{yr}"]). *)
Definition int_text (n : Z) : string :=
  if n <? 0 then "-" ++ digits (- n) else digits n.

(** The endpoints of the season fallbacks of [standings], by the name
    that tells them apart: the template, and the path it formats to. *)
Definition standings_endpoints : list string :=
  ["StandingsBySeason"; "Standings"; "StandingsBasic"].

Definition ep_template (name : string) : string :=
  "/v3/{lg}/scores/json/" ++ name ++ "/{season}".

Definition ep_format (name lg season : string) : string :=
  "/v3/" ++ lg ++ "/scores/json/" ++ name ++ "/" ++ season.

(** The seasons and endpoints the three nested loops of [standings] go
    through, in order. *)
Definition standings_candidates (year_now : Z) : list (string * string) :=
  yr ← [year_now; year_now - 1];
  suf ← [""; "REG"; "POST"; "PRE"];
  ep ← standings_endpoints;
  [(int_text yr ++ suf, ep)].

(** The nested loops of [standings] over the candidates left. *)
Fixpoint standings_loop (server : string -> http_reply) (clock : nat -> Q * Q)
    (league : string) (candidates : list (string * string)) (st : fetch_state)
    : fetched * fetch_state :=
  match candidates with
  | [] => (Data (JArr []), st)
  | (season_str, ep) :: rest =>
      match get_in server clock (ep_format ep league season_str) TTL_STAND
              ("stand:" ++ league ++ ":" ++ season_str ++ ":" ++ ep_template ep) st with
      | (Data (JArr (x :: xs)), st') => (Data (JArr (x :: xs)), st')
      | (Data _, st') => standings_loop server clock league rest st'
      | (ResponseError status, st') =>
          if (status =? 400) || (status =? 404)
          then standings_loop server clock league rest st'
          else (ResponseError status, st')
      | (BodyError, st') => (BodyError, st')
      end
  end.

(** [standings]; [year_now] is the year of the clock in ET. *)
Definition standings (server : string -> http_reply) (clock : nat -> Q * Q)
    (year_now : Z) (sport : string) (store : TTLStore)
    : option (fetched * fetch_state) :=
  league ← _league sport;
  Some match get_in server clock ("/v3/" ++ league ++ "/scores/json/Standings")
               TTL_STAND ("stand:" ++ league ++ ":current") (store, [], 0%nat) with
       | (ResponseError status, st') =>
           if (status =? 400) || (status =? 404)
           then standings_loop server clock league (standings_candidates year_now) st'
           else (ResponseError status, st')
       | other => other
       end.

(** The number of requests among the things done. *)
Fixpoint count_requests (log : list fetch_effect) : nat :=
  match log with
  | [] => 0
  | Request _ :: rest => S (count_requests rest)
  | Wait _ :: rest => count_requests rest
  end.

(** ** Observers *)

(** A text that does not start with whitespace, and one that does not
    end with it. *)
Definition headed (s : string) : Prop :=
  match s with
  | EmptyString => True
  | String c _ => Py.isspace c = false
  end.

Definition tailed (s : string) : Prop := Py.rstrip_by Py.isspace s = s.

(** The texts of a list put end to end. *)
Definition glued (parts : list string) : string := foldr String.append "" parts.

(** What [_chunk] owes its text: parts that are not empty, of at most
    [limit] characters, without whitespace at either end, which hold in
    order the characters of the text that are not whitespace. *)
Definition chunks_text (limit : nat) (parts : list string) (text : string) : Prop :=
  Forall (fun p => (1 <= String.length p)%nat
                   ∧ (Py.char_len p <= limit)%nat
                   ∧ Py.strip p = p) parts
  ∧ Str.non_space (glued parts) = Str.non_space text.

(** The order of the calendar. *)
Definition date_lt (a b : date) : Prop :=
  year a < year b
  ∨ (year a = year b ∧ (month a < month b
                         ∨ (month a = month b ∧ day a < day b))).

(** The spinner frames of the statuses shown, in order. *)
Definition frames (evs : list event) : list nat :=
  omap (fun ev => match ev with ShowStatus e => se_spin e | _ => None end) evs.

(** The result embeds sent, in order. *)
Definition results_sent (evs : list event) : list result_embed :=
  omap (fun ev => match ev with SendResult e => Some e | _ => None end) evs.

(** The outcome a row records, if the ledger has the job. *)
Definition job_status (db : Ledger) (job_id : string) : option Status :=
  status <$> db !! job_id.

(** A reply inside a code fence: the fence, the tag json or no tag, a
    line break, the body, a line break and the fence. *)
Definition fenced (tag : bool) (body : string) : string :=
  Re.fence ++ (if tag then "json" else "")
  ++ String newline (body ++ String newline Re.fence).

(** A text of two lines. *)
Definition two_lines : string := "alpha" ++ String newline "beta gamma".

(** A server that answers every request with the text [ok], a store that
    is empty, and two teams, the first without any name. *)
Definition ok_server : string -> http_reply :=
  fun _ => mkReply 200 (Some (JStr "ok")).

Definition down_server : string -> http_reply :=
  fun _ => mkReply 503 None.

Definition two_teams : list (list (string * json)) :=
  [[("TeamID", JInt 1); ("Name", JStr "")];
   [("TeamID", JInt 2); ("City", JStr "Boston"); ("Name", JStr "Celtics")]].

(** A run whose worker answers in time with the text [plain_text], after
    one heartbeat. *)
Definition resolving_world : world :=
  mkWorld (mkDate 2025 1 15) "A1B2C3D4" (fun k => 120 * Z.of_nat k) 1 true
          (replying plain_text).

(** A server that knows no path, and a clock that stands still. *)
Definition missing_server : string -> http_reply :=
  fun _ => mkReply 404 None.

Definition still_clock : nat -> Q * Q := fun _ => (0%Q, 0%Q).

(** * Properties *)

(** ** The ledger *)

Section ledger_facts.
Implicit Types (db : Ledger) (j : string) (r row : JobRow) (st : Status).

Lemma set_job_status_lookup db j st :
  _set_job_status j st db !! j
  = (fun r => mkRow (user_id r) (et_date r) st) <$> db !! j.
Proof. unfold _set_job_status. by rewrite lookup_alter_eq. Qed.

Lemma set_job_status_lookup_ne db j j' st :
  j ≠ j' → _set_job_status j st db !! j' = db !! j'.
Proof. intros Hne. unfold _set_job_status. by rewrite lookup_alter_ne. Qed.

Lemma set_job_status_absent db j st :
  db !! j = None → _set_job_status j st db = db.
Proof.
  intros Hnone. apply map_eq. intros k. destruct (decide (j = k)) as [<-|Hne].
  - by rewrite set_job_status_lookup, Hnone.
  - by apply set_job_status_lookup_ne.
Qed.

Lemma set_job_status_twice db j st1 st2 :
  _set_job_status j st2 (_set_job_status j st1 db) = _set_job_status j st2 db.
Proof.
  apply map_eq. intros k. destruct (decide (j = k)) as [<-|Hne].
  - rewrite !set_job_status_lookup. by destruct (db !! j).
  - by rewrite !set_job_status_lookup_ne.
Qed.

Lemma reserve_then_finalize db j uid d st :
  _set_job_status j st (_create_pending_job j uid d db) = <[j := mkRow uid d st]> db.
Proof.
  unfold _set_job_status, _create_pending_job. by rewrite alter_insert_eq.
Qed.


Lemma count_insert_uncounted uid d db j row :
  status row ≠ success →
  (∀ r, db !! j = Some r → status r ≠ success) →
  _count_success_today uid d (<[j := row]> db) = _count_success_today uid d db.
Proof.
  intros Hrow Hold. unfold _count_success_today.
  rewrite map_filter_insert_not'; [done| |].
  - unfold counted. simpl. tauto.
  - intros r Hr. unfold counted. simpl. specialize (Hold r Hr). tauto.
Qed.

Lemma count_insert_counted uid d db j :
  (∀ r, db !! j = Some r → ¬ counted uid d (j, r)) →
  _count_success_today uid d (<[j := mkRow uid d success]> db)
  = _count_success_today uid d db + 1.
Proof.
  intros Hold. unfold _count_success_today.
  rewrite map_filter_insert_True by done.
  rewrite map_size_insert_None; [lia|].
  apply map_lookup_filter_None. right. intros r Hr. by apply Hold.
Qed.



End ledger_facts.




(** After [n] jobs of one user and day have been reserved under fresh ids
    and finalized as success, Remaining is [max 0 (DAILY_MAX_PARLAYS - n)]
    when no success of that user and day was there before. *)
Lemma remaining_after_successes today uid db (ids : list string) :
  NoDup ids →
  (∀ j, j ∈ ids → db !! j = None) →
  _count_success_today uid today db = 0 →
  (_remaining_today today uid
     (foldr (fun j acc => _set_job_status j success
                            (_create_pending_job j uid today acc)) db ids)).1
  = Z.max 0 (DAILY_MAX_PARLAYS - Z.of_nat (length ids)).
Proof.
  intros Hnd Hfresh Hzero. unfold _remaining_today. simpl. do 2 f_equal.
  induction Hnd as [|j ids Hj Hnd IH]; simpl.
  - exact Hzero.
  - rewrite reserve_then_finalize, count_insert_counted.
    + rewrite IH; [lia|]. intros k Hk. apply Hfresh. by right.
    + intros r Hr. exfalso.
      assert (Hnone : ∀ l, j ∉ l → (∀ k, k ∈ l → db !! k = None) →
                foldr (fun j acc => _set_job_status j success
                         (_create_pending_job j uid today acc)) db l !! j = None).
      { clear -Hfresh. intros l. induction l as [|k l IHl]; simpl; intros Hnin Hl.
        - apply Hfresh. by left.
        - rewrite reserve_then_finalize, lookup_insert_ne.
          + apply IHl; [set_solver|]. intros k' Hk'. apply Hl. by right.
          + set_solver. }
      rewrite Hnone in Hr; [done|done|]. intros k Hk. apply Hfresh. by right.
Qed.

(** C5, as the code has it.  A finalize writes its outcome over the status
    of the row, whatever that status was: the row's other columns and the
    other rows stay, a repeated finalize with the same outcome changes
    nothing, and of two finalizes the later one decides. *)
Theorem finalize_overwrites (db : Ledger) (job_id : string) (st st' : Status) :
  _set_job_status job_id st db !! job_id
    = (fun r => mkRow (user_id r) (et_date r) st) <$> db !! job_id
  ∧ (∀ other, job_id ≠ other → _set_job_status job_id st db !! other = db !! other)
  ∧ _set_job_status job_id st (_set_job_status job_id st db)
    = _set_job_status job_id st db
  ∧ _set_job_status job_id st' (_set_job_status job_id st db)
    = _set_job_status job_id st' db.
Proof.
  split; [apply set_job_status_lookup|].
  split; [intros other Hne; by apply set_job_status_lookup_ne|].
  split; apply set_job_status_twice.
Qed.

(** C5 as stated fails: a finalize as failed after a finalize as success
    is accepted and replaces the status, and a reserve returns a finalized
    row to pending. *)
Lemma finalize_conflict_is_silent :
  status <$> ledger_one_win !! "A1B2C3D4" = Some success
  ∧ status <$> _set_job_status "A1B2C3D4" failed ledger_one_win !! "A1B2C3D4"
    = Some failed
  ∧ status <$> _create_pending_job "A1B2C3D4" 7 "2025-01-15" ledger_one_win
                 !! "A1B2C3D4"
    = Some pending.
Proof. repeat split; vm_compute; reflexivity. Qed.

(** ** Dates *)

Lemma days_in_month_bounds y m : 28 <= days_in_month y m <= 31.
Proof.
  unfold days_in_month.
  destruct (m =? 2); [destruct (is_leap y); lia|].
  destruct ((m =? 4) || (m =? 6) || (m =? 9) || (m =? 11)); lia.
Qed.

Lemma next_day_valid d : valid_date d → valid_date (next_day d).
Proof.
  unfold valid_date, next_day. intros [Hm Hd].
  destruct (day d <? _) eqn:Hlt; simpl.
  - apply Z.ltb_lt in Hlt. lia.
  - destruct (month d <? 12) eqn:Hm12; simpl.
    + apply Z.ltb_lt in Hm12.
      pose proof (days_in_month_bounds (year d) (month d + 1)). lia.
    + pose proof (days_in_month_bounds (year d + 1) 1). lia.
Qed.

Example tomorrow_of_leap_february :
  normalize_date (mkDate 2024 2 28) (Some "Tomorrow") = "2024-02-29"
  ∧ normalize_date (mkDate 2025 2 28) (Some "TMR") = "2025-03-01"
  ∧ normalize_date (mkDate 2025 12 31) (Some "tomorow") = "2026-01-01".
Proof. repeat split; vm_compute; reflexivity. Qed.

(** C10, as the code has it.  [normalize_date] gives today's date for
    [None], for the empty text and for a text that is today in any
    letter case, tomorrow's date for the four aliases in any letter case,
    and every other text back as it is. *)
Theorem normalize_date_cases (now : date) (s : string) :
  normalize_date now None = strftime_ymd now
  ∧ normalize_date now (Some "") = strftime_ymd now
  ∧ (Py.lower s = "today" → normalize_date now (Some s) = strftime_ymd now)
  ∧ (Py.lower s ∈ tomorrow_aliases →
     normalize_date now (Some s) = strftime_ymd (next_day now))
  ∧ (s ≠ "" → Py.lower s ≠ "today" → Py.lower s ∉ tomorrow_aliases →
     normalize_date now (Some s) = s).
Proof.
  assert (Hne : s ≠ "" → Py.nonempty s = true) by (by destruct s).
  split; [done|]. split; [done|]. unfold normalize_date. split; [|split].
  - intros ->. simpl. by rewrite orb_true_r.
  - intros Ha.
    assert (Hs : s ≠ "").
    { intros ->. apply (bool_decide_eq_true_2 _) in Ha. vm_compute in Ha.
      discriminate Ha. }
    assert (Ht : Py.lower s ≠ "today").
    { intros Ht. rewrite Ht in Ha. apply (bool_decide_eq_true_2 _) in Ha.
      vm_compute in Ha. discriminate Ha. }
    rewrite (Hne Hs). simpl.
    destruct (String.eqb_spec (Py.lower s) "today") as [|_]; [done|].
    by rewrite bool_decide_eq_true_2.
  - intros Hs Ht Ha. rewrite (Hne Hs). simpl.
    destruct (String.eqb_spec (Py.lower s) "today") as [|_]; [done|].
    by rewrite bool_decide_eq_false_2.
Qed.

(** C10 as stated fails on the empty text: it is none of the listed
    inputs, and it does not come back unchanged. *)
Lemma normalize_date_empty_text :
  normalize_date (mkDate 2025 1 15) (Some "") = "2025-01-15"
  ∧ Py.lower "" ≠ "today"
  ∧ Py.lower "" ∉ tomorrow_aliases.
Proof.
  split; [vm_compute; reflexivity|]. split; [discriminate|].
  intros Hin. apply (bool_decide_eq_true_2 _) in Hin. vm_compute in Hin.
  discriminate Hin.
Qed.

(** No format is checked: a text that is no date goes through. *)
Example normalize_date_no_validation :
  normalize_date (mkDate 2025 1 15) (Some "next friday!") = "next friday!".
Proof. vm_compute. reflexivity. Qed.

(** ** The research worker *)

Lemma base_delay_doubles (k : nat) :
  (base_delay (S k) == 2 * base_delay k)%Q.
Proof.
  unfold base_delay. rewrite Nat2Z.inj_succ, Z.pow_succ_r by lia.
  rewrite inject_Z_mult. reflexivity.
Qed.

Lemma jitter_small (k : nat) : (k < 10)%nat → (0 <= jitter k)%Q ∧ (jitter k < base_delay 0)%Q.
Proof.
  intros Hk. unfold jitter, base_delay, Qle, Qlt. simpl. lia.
Qed.

#[local] Opaque backoff.

(** The pieces of one leaf of the case analysis of the loop, where the
    log is a list of known effects. *)
Ltac pick_count :=
  first [ exists 0%nat; split; [lia|reflexivity]
        | exists 1%nat; split; [lia|reflexivity]
        | exists 2%nat; split; [lia|reflexivity]
        | exists 3%nat; split; [lia|reflexivity] ].

Ltac earlier_calls_failed :=
  let i := fresh "i" in
  let Hi := fresh "Hi" in
  let Hlt := fresh "Hlt" in
  intros i ? Hi Hlt; cbn in Hi, Hlt;
  repeat (try lia; destruct i as [|i]; cbn in Hi, Hlt;
          [first [lia | (injection Hi as <-; eexists; eassumption)]|]);
  try lia.

Ltac answered_or_raised :=
  let Hall := fresh "Hall" in
  intros Hall;
  first
    [ by eexists
    | match goal with
      | Hret : _ ?i ?b = Return _ |- _ =>
          let Hr := fresh "Hr" in
          destruct (Hall i b) as [? Hr]; rewrite Hr in Hret; discriminate Hret
      end ].

(** C8.  [_call_deep_research] runs at most 3 attempts, each one call
    with [response_format] and at most one fallback call without it;
    after the [k]-th failed attempt, counted from 0, and so between two
    consecutive attempts, it sleeps [backoff k], a base that doubles with
    [k] plus the jitter [k/10].  It stops at the first call that the
    client answers and returns that answer: every call before the last
    one failed, so a failed attempt is always followed by the next one
    while attempts are left.  When every attempt fails, and so whenever
    the client answers no call, it raises one error, that of the last
    call, after 3 attempts, and [run_deep_research] returns that error's
    text inside its own message. *)
Theorem call_deep_research_retries (client : client_t) :
  let res := (_call_deep_research client).1 in
  let log := (_call_deep_research client).2 in
  (attempts_made log <= 3)%nat
  ∧ (length (calls_made log) <= 2 * attempts_made log)%nat
  ∧ (∃ k, (k <= 3)%nat ∧ sleeps log = backoff <$> seq 0 k)
  ∧ (∀ k, (backoff k == base_delay k + jitter k)%Q
          ∧ (base_delay (S k) == 2 * base_delay k)%Q
          ∧ (jitter k == inject_Z (Z.of_nat k) / 10)%Q)
  ∧ (∀ i b, calls_made log !! i = Some b →
            (S i < length (calls_made log))%nat → ∃ e, client i b = Raise e)
  ∧ ((∀ i b, ∃ e, client i b = Raise e) → ∃ e, res = Raise e)
  ∧ match res with
    | Return r =>
        (∃ k, (k < 3)%nat ∧ skeleton log = take (2 * k + 1) schedule)
        ∧ (∃ b, last (calls_made log) = Some b
                ∧ client (length (calls_made log) - 1)%nat b = Return r)
    | Raise e =>
        skeleton log = schedule
        ∧ attempts_made log = 3%nat
        ∧ (∃ b, last (calls_made log) = Some b
                ∧ client (length (calls_made log) - 1)%nat b = Raise e)
        ∧ ∀ (H : Host) (req : request),
            Py.nonempty (Py.strip (user_query req)) = true →
            run_deep_research client req
            = (None, Some ("Deep Research request failed: " ++ exn_text e))
    end.
Proof.
  intros res log.
  assert (Hbackoff : ∀ k, (backoff k == base_delay k + jitter k)%Q
          ∧ (base_delay (S k) == 2 * base_delay k)%Q
          ∧ (jitter k == inject_Z (Z.of_nat k) / 10)%Q).
  { intros k. split; [|split].
    - Transparent backoff. unfold backoff. Opaque backoff. reflexivity.
    - apply base_delay_doubles.
    - unfold jitter. field. }
  assert (Hrun : ∀ e, res = Raise e → ∀ (H : Host) (req : request),
            Py.nonempty (Py.strip (user_query req)) = true →
            run_deep_research client req
            = (None, Some ("Deep Research request failed: " ++ exn_text e))).
  { intros e He H req Hq. unfold run_deep_research. rewrite Hq. simpl.
    fold res. by rewrite He. }
  revert Hrun. unfold res, log, _call_deep_research, max_retries.
  cbn [seq retry_loop].
  repeat match goal with
  | |- context [match client ?k ?b with _ => _ end] =>
      let e := fresh "e" in
      destruct (client k b) as [?|e] eqn:?;
      [|destruct e as [[|] ?]]; cbn [exn_type_error]
  end;
  intros Hrun; cbn [fst snd] in *;
  (split; [cbv; lia|split; [cbv; lia|split; [pick_count|split; [exact Hbackoff|]]]]).
  all: split; [earlier_calls_failed|].
  all: split; [answered_or_raised|].
  all: try (split; [pick_count|]; eexists; (split; [reflexivity|]);
            match goal with H : _ = Return _ |- _ => exact H end).
  all: split; [reflexivity|split; [reflexivity|split]].
  all: try (apply Hrun; reflexivity).
  all: eexists; (split; [reflexivity|]).
  all: match goal with H : _ = Raise _ |- _ => exact H end.
Qed.

Example failing_client_log :
  _call_deep_research failing_client
  = (Raise (mkExn false "boom 5"),
     [Call true; Call false; Sleep (backoff 0);
      Call true; Call false; Sleep (backoff 1);
      Call true; Call false; Sleep (backoff 2)]).
Proof. reflexivity. Qed.

(** ** The runner *)

Section runner_facts.
Context `{Host}.

(** The runner on a reply whose text is [text]. *)
Lemma run_on_text client req resp text :
  Py.nonempty (Py.strip (user_query req)) = true →
  (_call_deep_research client).1 = Return resp →
  output_text resp = Some text →
  run_deep_research client req
  = match _extract_json_from_text text with
    | None =>
        (None, Some ("Model did not return valid JSON. Preview: ```"
                     ++ preview text ++ "```"))
    | Some data0 =>
        let data := normalize_missing data0 in
        match model_validate data with
        | Some parsed => (Some parsed, None)
        | None =>
            match salvage data with
            | Some rough => (Some rough, None)
            | None =>
                (None, Some ("Model output failed validation: "
                             ++ ve_text data ++ String (ascii_of_nat 10)
                             ("Preview: ```" ++ preview text ++ "```")))
            end
        end
    end.
Proof.
  intros Hq Hcall Htext. unfold run_deep_research.
  by rewrite Hq, Hcall, Htext.
Qed.


End runner_facts.

(** The result pair of the runner: a result alone, or an error alone that
    is not the empty text. *)
Lemma run_result_shape (H : Host) (client : client_t) (req : request) :
  match run_deep_research client req with
  | (Some _, None) => True
  | (None, Some e) => Py.nonempty e = true
  | _ => False
  end.
Proof.
  unfold run_deep_research.
  destruct (negb _); [done|].
  destruct (_call_deep_research client).1 as [resp|ex]; [|done].
  destruct (output_text resp) as [text|]; [|done].
  destruct (_extract_json_from_text text) as [data|]; [|done].
  cbn zeta. destruct (model_validate _); [done|].
  by destruct (salvage _).
Qed.

(** C9.  [run_deep_research] returns either a result and no error, or no
    result and an error text that is not empty. *)
Theorem run_deep_research_one_of (H : Host) (client : client_t) (req : request) :
  (∃ r, run_deep_research client req = (Some r, None))
  ∨ (∃ e, run_deep_research client req = (None, Some e) ∧ e ≠ "").
Proof.
  pose proof (run_result_shape H client req) as Hshape.
  destruct (run_deep_research client req) as [[r|] [e|]]; try done.
  - left. by exists r.
  - right. exists e. split; [done|]. by intros ->.
Qed.

(** ** Salvage *)

(** C3, as the code has it.  After a failed validation the salvage path
    takes the legs that are objects and validates each: when all of them
    validate and the three other values can be walked, it returns exactly
    those legs, in order, with rationales, risks and sources turned into
    text by [str]; one object leg that fails validation makes the whole
    salvage fail, and then the runner returns no result and the
    validation message.  No exception leaves the runner. *)
Theorem salvage_all_or_nothing (H : Host) (data : json) :
  (∀ rough, salvage data = Some rough →
     ∃ kvs legs rs us,
       data = JObj kvs
       ∧ py_iter (get_or "parlay" (JArr []) kvs) = Some legs
       ∧ Forall2 (fun leg p => validate_leg leg = Some p)
           (filter (fun leg => is_dict leg = true) legs) (parlay rough)
       ∧ py_iter (get_or "rationales" (JArr []) kvs) = Some rs
       ∧ rationales rough = py_str <$> rs
       ∧ risks rough = py_str (get_or "risks" (JStr "") kvs)
       ∧ py_iter (get_or "sources" (JArr []) kvs) = Some us
       ∧ sources rough = py_str <$> us)
  ∧ (∀ kvs legs ps rs us,
       data = JObj kvs →
       py_iter (get_or "parlay" (JArr []) kvs) = Some legs →
       Forall2 (fun leg p => validate_leg leg = Some p)
         (filter (fun leg => is_dict leg = true) legs) ps →
       py_iter (get_or "rationales" (JArr []) kvs) = Some rs →
       py_iter (get_or "sources" (JArr []) kvs) = Some us →
       salvage data
       = Some (mkResult ps (py_str <$> rs)
                 (py_str (get_or "risks" (JStr "") kvs)) (py_str <$> us)))
  ∧ (∀ kvs legs leg,
       data = JObj kvs →
       py_iter (get_or "parlay" (JArr []) kvs) = Some legs →
       leg ∈ legs → is_dict leg = true → validate_leg leg = None →
       salvage data = None)
  ∧ (∀ client req resp text data0,
       Py.nonempty (Py.strip (user_query req)) = true →
       (_call_deep_research client).1 = Return resp →
       output_text resp = Some text →
       _extract_json_from_text text = Some data0 →
       data = normalize_missing data0 →
       model_validate data = None →
       run_deep_research client req
       = match salvage data with
         | Some rough => (Some rough, None)
         | None =>
             (None, Some ("Model output failed validation: "
                          ++ ve_text data ++ String (ascii_of_nat 10)
                          ("Preview: ```" ++ preview text ++ "```")))
         end).
Proof.
  split; [|split; [|split]].
  - intros rough. destruct data as [| | | | | |kvs]; try discriminate.
    unfold salvage.
    destruct (py_iter (get_or "parlay" _ kvs)) as [legs|] eqn:Hlegs;
      [|discriminate].
    simpl.
    destruct (mapM validate_leg _) as [p|] eqn:Hp; [|discriminate].
    simpl.
    destruct (py_iter (get_or "rationales" _ kvs)) as [rs|] eqn:Hrs;
      [|discriminate].
    simpl.
    destruct (py_iter (get_or "sources" _ kvs)) as [us|] eqn:Hus;
      [|discriminate].
    simpl. intros [= <-].
    exists kvs, legs, rs, us. simpl. apply mapM_Some in Hp. repeat split; done.
  - intros kvs legs ps rs us -> Hlegs Hps Hrs Hus. unfold salvage.
    rewrite Hlegs. simpl. apply mapM_Some in Hps. rewrite Hps. simpl.
    by rewrite Hrs, Hus.
  - intros kvs legs leg -> Hlegs Hin Hdict Hbad. unfold salvage.
    rewrite Hlegs. simpl.
    assert (Hnone : mapM validate_leg
              (filter (fun leg => is_dict leg = true) legs) = None).
    { apply mapM_None, Exists_exists. exists leg. split; [|done].
      by apply list_elem_of_filter. }
    by rewrite Hnone.
  - intros client req resp text data0 Hq Hcall Htext Hex -> Hval.
    rewrite (run_on_text client req resp text Hq Hcall Htext), Hex. simpl.
    by rewrite Hval.
Qed.

(** C3 as stated fails: of three legs, two validate one by one and the
    third has a confidence outside the levels; the validation fails, the
    salvage fails too, and the runner returns no result. *)
Lemma salvage_fails_on_one_bad_leg :
  Reader.loads three_legs_text = Some three_legs_data
  ∧ validate_leg leg_a = Some (mkLeg "moneyline" "A -3" [] "high")
  ∧ validate_leg leg_b = None
  ∧ validate_leg leg_c = Some (mkLeg "total" "O 210.5" [] "low")
  ∧ model_validate three_legs_data = None
  ∧ salvage (H := example_host) three_legs_data = None
  ∧ (run_deep_research (H := example_host) (replying three_legs_text) a_request).1
    = None.
Proof. repeat split; vm_compute; reflexivity. Qed.

(** What the salvage path does recover: values of the wrong type in the
    text fields, and legs that are not objects. *)
Example salvage_coerces_text :
  run_deep_research (H := example_host)
    (replying (dq "{$parlay$: [7, {$market$:$total$,$selection$:$U 9$,$confidence$:$LOW$}], $risks$: null, $rationales$: [1, true, $x$]}"))
    a_request
  = (Some (mkResult [mkLeg "total" "U 9" [] "low"] ["1"; "True"; "x"] "" []), None).
Proof. vm_compute. reflexivity. Qed.

(** ** Extraction *)

(** C4: the code at the array-only reply.  The candidate handed to
    [json.loads] is the span from the first [{] to the last [}], that is
    the leg itself and not the array; the leg is read as the result
    object, has none of its keys, and the run ends with no leg at all.
    Read whole and wrapped, the same text validates to its one leg. *)
Theorem array_only_reply_loses_its_leg :
  json_candidate array_only_text
  = dq "{$market$:$moneyline$,$selection$:$A -3$,$confidence$:$HIGH$}"
  ∧ run_deep_research (H := example_host) (replying array_only_text) a_request
    = (Some (mkResult [] [] "" []), None)
  ∧ (wrap_array <$> Reader.loads array_only_text) ≫= model_validate
    = Some (mkResult [mkLeg "moneyline" "A -3" [] "high"] [] "" []).
Proof. repeat split; vm_compute; reflexivity. Qed.

(** ** Text *)

Section text_facts.

Lemma lstrip_by_head p c r :
  p c = false → Py.lstrip_by p (String c r) = String c r.
Proof. intros Hc. simpl. by rewrite Hc. Qed.

Lemma append_cons a b x : String a b ++ x = String a (b ++ x).
Proof. reflexivity. Qed.

Lemma braced_eq body : "{" ++ body ++ "}" = String "{" (body ++ String "}" "").
Proof. reflexivity. Qed.

Lemma append_snoc_nonempty b c : b ++ String c "" ≠ "".
Proof. by destruct b. Qed.

Lemma rstrip_by_snoc p b c :
  p c = false → Py.rstrip_by p (b ++ String c "") = b ++ String c "".
Proof.
  intros Hc. induction b as [|a b IH].
  - simpl. by rewrite Hc.
  - rewrite append_cons. cbn [Py.rstrip_by]. rewrite IH. pose proof (append_snoc_nonempty b c) as Hne.
    destruct (b ++ String c ""); [congruence|done].
Qed.

Lemma rfind_snoc c b :
  Py.rfind c (b ++ String c "") = Z.of_nat (String.length b).
Proof.
  induction b as [|a b IH].
  - simpl. by rewrite Ascii.eqb_refl.
  - rewrite append_cons. cbn [Py.rfind String.length]. rewrite IH.
    destruct (Z.eqb_spec (Z.of_nat (String.length b)) (-1)); lia.
Qed.

Lemma length_snoc b c : String.length (b ++ String c "") = S (String.length b).
Proof.
  induction b as [|a b IH]; [done|].
  rewrite append_cons. cbn [String.length]. congruence.
Qed.

Lemma substring_whole s : substring 0 (String.length s) s = s.
Proof. induction s as [|a s IH]; simpl; congruence. Qed.

(** A text in braces is its own span, and has nothing to strip. *)
Lemma isolate_braced body : isolate ("{" ++ body ++ "}") = "{" ++ body ++ "}".
Proof.
  unfold isolate. rewrite braced_eq. cbn [Py.find Py.rfind].
  rewrite rfind_snoc, Ascii.eqb_refl.
  destruct (Z.eqb_spec (Z.of_nat (String.length body)) (-1)) as [|_]; [lia|].
  destruct (Z.eqb_spec (Z.of_nat (String.length body) + 1) (-1)) as [|_]; [lia|].
  destruct (Z.ltb_spec 0 (Z.of_nat (String.length body) + 1)) as [_|]; [|lia].
  cbn [negb andb Z.eqb]. unfold Py.slice.
  replace (Z.to_nat 0) with 0%nat by reflexivity.
  replace (Z.to_nat (Z.of_nat (String.length body) + 1 + 1 - 0))
    with (String.length (String "{" (body ++ String "}" ""))).
  - apply substring_whole.
  - cbn [String.length]. rewrite length_snoc. lia.
Qed.

Lemma strip_braced body : Py.strip ("{" ++ body ++ "}") = "{" ++ body ++ "}".
Proof.
  unfold Py.strip, Py.strip_by. rewrite braced_eq.
  rewrite lstrip_by_head by reflexivity.
  rewrite <- append_cons. by apply rstrip_by_snoc.
Qed.

(** Without a match of the comma pattern the substitution changes
    nothing. *)
Lemma sub_trailing_commas_none fuel t :
  has_trailing_comma t = false → Re.sub_trailing_commas fuel t = t.
Proof.
  revert t. induction fuel as [|fuel IH]; intros t Hnone; [done|].
  destruct t as [|c r]; [done|].
  cbn [has_trailing_comma] in Hnone.
  apply orb_false_iff in Hnone as [Hhere Hrest].
  cbn [Re.sub_trailing_commas].
  destruct (Ascii.eqb c ",").
  - cbn [andb] in Hhere.
    destruct (Py.lstrip_by Py.isspace r) as [|d r'].
    + by rewrite IH.
    + rewrite Hhere. by rewrite IH.
  - by rewrite IH.
Qed.

(** A text without a backtick has no fence. *)
Lemma fence_search_no_backtick s :
  Py.contains "`" s = false → Re.fence_search s = None.
Proof.
  induction s as [|a s IH]; [done|].
  cbn [Py.contains]. intros [Ha Hs]%orb_false_iff.
  cbn [Re.fence_search]. rewrite (IH Hs).
  unfold Py.startswith, Re.fence. cbn [String.prefix].
  destruct (ascii_dec "`" a) as [<-|Hne]; [discriminate Ha|done].
Qed.

End text_facts.

(** ** The round trip *)

Lemma conf_ok_canonical c : c ∈ confidence_levels → _conf_ok c = Some c.
Proof.
  unfold confidence_levels. intros Hc.
  repeat (apply elem_of_cons in Hc as [->|Hc]; [reflexivity|]).
  by apply elem_of_nil in Hc.
Qed.

Lemma as_str_list_encoded (l : list string) :
  as_str_list (JArr (JStr <$> l)) = Some l.
Proof. unfold as_str_list. by apply mapM_fmap_Some. Qed.

Lemma validate_leg_encoded l :
  confidence l ∈ confidence_levels → validate_leg (encode_leg l) = Some l.
Proof.
  intros Hc. destruct l as [m s b c]. unfold validate_leg, encode_leg.
  cbn [dict_get String.eqb Ascii.eqb Bool.eqb market selection
       book_examples confidence mbind option_bind as_str field_or].
  rewrite as_str_list_encoded. cbn [mbind option_bind].
  simpl in Hc. by rewrite (conf_ok_canonical c Hc).
Qed.

Lemma model_validate_encoded r :
  canonical r → model_validate (normalize_missing (encode_result r)) = Some r.
Proof.
  intros Hr. destruct r as [p rs k us].
  unfold normalize_missing, encode_result, setdefault, model_validate.
  cbn [dict_get String.eqb Ascii.eqb Bool.eqb parlay rationales risks sources
       mbind option_bind as_str field_or as_leg_list].
  rewrite mapM_fmap_Forall_Some.
  - cbn [mbind option_bind]. by rewrite !as_str_list_encoded.
  - eapply Forall_impl; [exact Hr|]. intros l Hl. by apply validate_leg_encoded.
Qed.

Lemma dict_get_app k (a b : list (string * json)) :
  dict_get k (a ++ b)%list
  = match dict_get k a with
    | Some v => Some v
    | None => dict_get k b
    end.
Proof.
  induction a as [|[k' v] a IH]; [done|]. cbn [app dict_get].
  by destruct (k =? k')%string.
Qed.

Lemma dict_get_setdefault k k' v kvs :
  dict_get k (setdefault k' v kvs)
  = match dict_get k kvs with
    | Some x => Some x
    | None => if (k =? k')%string then Some v else None
    end.
Proof.
  unfold setdefault. destruct (dict_get k' kvs) as [x|] eqn:Hk'.
  - destruct (dict_get k kvs) as [y|] eqn:Hk; [done|].
    destruct (String.eqb_spec k k') as [->|_]; [congruence|done].
  - rewrite dict_get_app. cbn [dict_get]. by destruct (dict_get k kvs).
Qed.

(** The defaults the runner adds are the defaults of the schema. *)
Lemma model_validate_normalized kvs :
  model_validate (normalize_missing (JObj kvs)) = model_validate (JObj kvs).
Proof.
  unfold normalize_missing, model_validate. rewrite !dict_get_setdefault.
  destruct (dict_get "parlay" kvs), (dict_get "rationales" kvs),
    (dict_get "risks" kvs), (dict_get "sources" kvs); reflexivity.
Qed.

Lemma field_or_text_list o (l : list string) :
  field_states text_list [] o l → field_or [] as_str_list o = Some l.
Proof.
  intros [-> | [-> ->]]; [|done]. cbn [field_or]. apply as_str_list_encoded.
Qed.

Lemma validate_leg_states j l :
  leg_states j l → confidence l ∈ confidence_levels → validate_leg j = Some l.
Proof.
  intros (kvs & -> & Hm & Hs & Hb & Hc) Hlevel. cbn [validate_leg].
  rewrite Hm, Hs, Hc, (field_or_text_list _ _ Hb).
  cbn [mbind option_bind as_str]. rewrite (conf_ok_canonical _ Hlevel).
  by destruct l.
Qed.

Lemma validate_legs_states legs (ls : list ParlayLeg) :
  Forall2 leg_states legs ls →
  Forall (fun l => confidence l ∈ confidence_levels) ls →
  mapM validate_leg legs = Some ls.
Proof.
  intros Hlegs Hall. apply mapM_Some_2.
  induction Hlegs as [|j l legs ls Hj _ IH]; [constructor|].
  inversion Hall; subst. constructor; [by apply validate_leg_states|by apply IH].
Qed.

(** A result equal to the object field for field is what the validation
    of the code gives for the object. *)
Lemma model_validate_states data r :
  result_states data r → canonical r →
  model_validate (normalize_missing data) = Some r.
Proof.
  intros (kvs & -> & Hp & Hr & Hk & Hu) Hcanon.
  rewrite model_validate_normalized. cbn [model_validate].
  assert (Hlegs : field_or [] as_leg_list (dict_get "parlay" kvs) = Some (parlay r)).
  { destruct Hp as [(legs & -> & Hlegs) | [-> ->]]; [|done].
    cbn [field_or as_leg_list]. by apply validate_legs_states. }
  assert (Hrisks : field_or "" as_str (dict_get "risks" kvs) = Some (risks r)).
  { by destruct Hk as [-> | [-> ->]]. }
  rewrite Hlegs, (field_or_text_list _ _ Hr), Hrisks, (field_or_text_list _ _ Hu).
  by destruct r.
Qed.

Lemma encode_states r : result_states (encode_result r) r.
Proof.
  exists [("parlay", JArr (encode_leg <$> parlay r));
          ("rationales", JArr (JStr <$> rationales r));
          ("risks", JStr (risks r));
          ("sources", JArr (JStr <$> sources r))].
  split; [done|]. split; [|by repeat split; left].
  left. exists (encode_leg <$> parlay r). split; [done|].
  apply Forall2_fmap_l, Forall_Forall2_diag, Forall_forall. intros l _.
  exists [("market", JStr (market l)); ("selection", JStr (selection l));
          ("book_examples", JArr (JStr <$> book_examples l));
          ("confidence", JStr (confidence l))].
  by repeat split; try left.
Qed.

(** A comma the ASCII reading of the pattern finds is one the wide
    reading finds. *)
Lemma lstrip_wide_closer r d r' :
  Py.lstrip_by Py.isspace r = String d r' → Re.is_closer d = true →
  ∃ r2, Py.lstrip_by may_be_space r = String d r2.
Proof.
  intros Hr Hd. induction r as [|c r IH]; [done|].
  cbn [Py.lstrip_by] in *. unfold may_be_space at 1.
  destruct (Py.isspace c) eqn:Hc; cbn [orb]; [by apply IH|].
  injection Hr as -> ->.
  assert (Hlow : (128 <=? nat_of_ascii d)%nat = false).
  { unfold Re.is_closer in Hd. apply orb_true_iff in Hd as [Hd|Hd];
      apply Ascii.eqb_eq in Hd; by subst d. }
  rewrite Hlow. by eexists.
Qed.

Lemma comma_may_trail_none t :
  comma_may_trail t = false → has_trailing_comma t = false.
Proof.
  induction t as [|c t IH]; [done|]. cbn [comma_may_trail has_trailing_comma].
  intros [Hhere Hrest]%orb_false_iff. rewrite (IH Hrest), orb_false_r.
  destruct (Ascii.eqb c ","); [|done]. cbn [andb] in *.
  destruct (Py.lstrip_by Py.isspace t) as [|d r'] eqn:Ht; [done|].
  destruct (Re.is_closer d) eqn:Hd; [|done].
  destruct (lstrip_wide_closer t d r' Ht Hd) as (r2 & Hw).
  rewrite Hw in Hhere. congruence.
Qed.

Section roundtrip_facts.
Context `{Host}.

(** The candidate of a text in braces that no repair touches. *)
Lemma json_candidate_untouched s body :
  s = "{" ++ body ++ "}" →
  has_trailing_comma s = false →
  looks_single_quoted s = false →
  repair (Py.strip (isolate s)) = s.
Proof.
  intros Hs Hcommas Hquotes.
  rewrite Hs, isolate_braced, strip_braced, <- Hs.
  unfold repair. by rewrite (sub_trailing_commas_none _ s Hcommas), Hquotes.
Qed.

End roundtrip_facts.

(** C6, as the code has it.  A JSON text in braces in which the fence
    pattern has no match, no comma stands before a closing brace or
    bracket with nothing but whitespace between (bytes of characters
    outside ASCII counted as possible whitespace), and the single-quote
    repair does not apply, and which [json.loads] reads as an object that
    satisfies the schema, with canonical confidences, is extracted and
    validated to the result equal to that object field for field,
    whatever the order of its keys and whichever keys with a default it
    leaves out. *)
Theorem roundtrip_of_untouched_text (H : Host)
    (text body : string) (data : json) (r : ParlayResult) :
  Py.strip text = "{" ++ body ++ "}" →
  Re.fence_search (Py.strip text) = None →
  comma_may_trail (Py.strip text) = false →
  looks_single_quoted (Py.strip text) = false →
  json_loads (Py.strip text) = Some data →
  result_states data r →
  canonical r →
  extract_then_validate text = Some r.
Proof.
  intros Hs Hfence Hcommas Hquotes Hloads Hdata Hr.
  destruct Hdata as (kvs & -> & Hfields).
  unfold extract_then_validate, _extract_json_from_text, json_candidate.
  rewrite Hfence.
  rewrite (json_candidate_untouched _ body Hs (comma_may_trail_none _ Hcommas)
             Hquotes).
  rewrite Hloads. cbn [fmap option_fmap option_map wrap_array mbind option_bind].
  apply model_validate_states; [|done]. by exists kvs.
Qed.

Lemma roundtrip_of_untouched_text_witness :
  extract_then_validate (H := example_host) reordered_text = Some reordered_result.
Proof.
  apply (roundtrip_of_untouched_text example_host reordered_text
           (substring 1 (String.length reordered_text - 2) reordered_text)
           reordered_data reordered_result).
  - vm_compute. reflexivity.
  - vm_compute. reflexivity.
  - vm_compute. reflexivity.
  - vm_compute. reflexivity.
  - vm_compute. reflexivity.
  - eexists. split; [reflexivity|]. split; [|split; [|split]].
    + left. eexists. split; [reflexivity|].
      constructor; [|constructor]. eexists. split; [reflexivity|].
      split; [reflexivity|]. split; [reflexivity|].
      split; [by right|reflexivity].
    + by right.
    + by left.
    + by right.
  - repeat constructor.
Defined.

(** C6 as stated fails: the text of a result of the schema whose risks
    hold a comma before a closing bracket comes back with the comma
    removed. *)
Lemma roundtrip_loses_comma_in_text :
  Reader.loads noted_text = Some (encode_result noted_result)
  ∧ canonical noted_result
  ∧ extract_then_validate (H := example_host) noted_text = Some noted_result_back
  ∧ risks noted_result = "books [DK, FD,] may move"
  ∧ risks noted_result_back = "books [DK, FD] may move".
Proof.
  split; [vm_compute; reflexivity|]. split.
  - repeat constructor.
  - repeat split; vm_compute; reflexivity.
Qed.

(** ** The job command *)

Section command_facts.
Context `{Host}.

Lemma statuses_app evs1 evs2 :
  statuses (evs1 ++ evs2) = (statuses evs1 ++ statuses evs2)%list.
Proof. unfold statuses. apply omap_app. Qed.

Lemma terminal_statuses_app evs1 evs2 :
  terminal_statuses (evs1 ++ evs2)
  = (terminal_statuses evs1 ++ terminal_statuses evs2)%list.
Proof. unfold terminal_statuses. by rewrite statuses_app, filter_app. Qed.

Lemma delivered_errors_app evs1 evs2 :
  delivered_errors (evs1 ++ evs2)
  = (delivered_errors evs1 ++ delivered_errors evs2)%list.
Proof. unfold delivered_errors. apply omap_app. Qed.

(** The heartbeat shows Running and nothing else. *)
Lemma heartbeat_list_statuses job_id (elapsed : nat → Z) spinner_idx (l : list nat) :
  let evs := (fun k => ShowStatus (_status_embed job_id "Running" (elapsed (S k))
                                     (spinner_idx + S k)%nat)) <$> l in
  statuses evs = replicate (length l) "Running"
  ∧ terminal_statuses evs = []
  ∧ delivered_errors evs = []
  ∧ (CancelWorker ∉ evs)
  ∧ (StartWorker ∉ evs).
Proof.
  induction l as [|k l (IH1 & IH2 & IH3 & IH4 & IH5)]; intros evs.
  - repeat split; try done; apply not_elem_of_nil.
  - unfold evs, terminal_statuses in *. rewrite fmap_cons.
    cbn [statuses delivered_errors omap list_omap length replicate].
    fold (statuses ((fun k => ShowStatus (_status_embed job_id "Running"
                       (elapsed (S k)) (spinner_idx + S k)%nat)) <$> l)).
    fold (delivered_errors ((fun k => ShowStatus (_status_embed job_id "Running"
                       (elapsed (S k)) (spinner_idx + S k)%nat)) <$> l)).
    cbn [se_status _status_embed].
    repeat split.
    + by rewrite IH1.
    + rewrite filter_cons_False; [exact IH2|]. by vm_compute.
    + exact IH3.
    + intros [Heq|Hin]%elem_of_cons; [discriminate Heq|by apply IH4].
    + intros [Heq|Hin]%elem_of_cons; [discriminate Heq|by apply IH5].
Qed.

Lemma heartbeat_statuses job_id elapsed spinner_idx n :
  statuses (heartbeat_events job_id elapsed spinner_idx n) = replicate n "Running"
  ∧ terminal_statuses (heartbeat_events job_id elapsed spinner_idx n) = []
  ∧ delivered_errors (heartbeat_events job_id elapsed spinner_idx n) = []
  ∧ (CancelWorker ∉ heartbeat_events job_id elapsed spinner_idx n)
  ∧ (StartWorker ∉ heartbeat_events job_id elapsed spinner_idx n).
Proof.
  pose proof (heartbeat_list_statuses job_id elapsed spinner_idx (seq 0 n)) as Hl.
  cbn zeta in Hl. by rewrite length_seq in Hl.
Qed.

Lemma opening_statuses w :
  statuses (opening_of w)
    = ("Waiting" :: "Waiting" :: replicate (w_heartbeats w) "Running")
  ∧ terminal_statuses (opening_of w) = []
  ∧ delivered_errors (opening_of w) = []
  ∧ (CancelWorker ∉ opening_of w).
Proof.
  destruct (heartbeat_statuses (w_uuid w) (w_elapsed w) 1 (w_heartbeats w))
    as (H1 & H2 & H3 & H4 & _).
  unfold opening_of.
  rewrite statuses_app, terminal_statuses_app, delivered_errors_app, H1, H2, H3.
  repeat split; try done.
  intros [Hin|Hin]%elem_of_app; [|by apply H4].
  repeat (apply elem_of_cons in Hin as [Heq|Hin]; [discriminate Heq|]).
  by apply elem_of_nil in Hin.
Qed.


(** A run that is not admitted. *)
Lemma parlay_rejected w author c db :
  (_remaining_today (_today_et_str (w_now w)) (member_id author) db).1 = 0 →
  Parlay.parlay w author c db
  = (db, [SendMessage
            (if administrator author
                || existsb (Z.eqb PREMIUM_ROLE_ID) (role_ids author)
             then limit_reached else access_denied)]).
Proof.
  intros Hrem. unfold Parlay.parlay.
  destruct (administrator author || _); [|done].
  unfold _remaining_today in *. cbn [fst negb] in *. by rewrite Hrem.
Qed.

(** A run that is admitted and whose worker resolves in time: the row of
    the job is finalized once, as success exactly when the runner gave no
    error, and exactly one terminal status is shown. *)
Lemma parlay_resolved w author c db :
  administrator author || existsb (Z.eqb PREMIUM_ROLE_ID) (role_ids author) = true →
  0 < (_remaining_today (_today_et_str (w_now w)) (member_id author) db).1 →
  w_in_time w = true →
  let err := (run_deep_research (w_client w) (request_of w c)).2 in
  (Parlay.parlay w author c db).1
    = <[w_uuid w := mkRow (member_id author) (_today_et_str (w_now w))
                      (if err_set err then failed else success)]> db
  ∧ terminal_statuses (Parlay.parlay w author c db).2
    = [if err_set err then "Failed" else "Complete"]
  ∧ (AssertionError ∉ (Parlay.parlay w author c db).2).
Proof.
  intros Hauth Hrem Hres err. unfold Parlay.parlay. rewrite Hauth.
  unfold _remaining_today in *. cbn [fst negb] in *.
  destruct (Z.leb_spec (Z.max 0 (DAILY_MAX_PARLAYS
              - _count_success_today (member_id author)
                  (_today_et_str (w_now w)) db)) 0) as [Hle|_]; [lia|].
  rewrite Hres. cbn [negb]. fold (request_of w c). fold (opening_of w).
  pose proof (run_result_shape H (w_client w) (request_of w c)) as Hshape.
  unfold err. clear err.
  destruct (opening_statuses w) as (_ & Ht & _ & _).
  assert (Hno : AssertionError ∉ opening_of w).
  { unfold opening_of, heartbeat_events.
    intros [Hin|Hin]%elem_of_app.
    - repeat (apply elem_of_cons in Hin as [Heq|Hin]; [discriminate Heq|]).
      by apply elem_of_nil in Hin.
    - apply list_elem_of_fmap in Hin as (k & Heq & _). discriminate Heq. }
  destruct (run_deep_research (w_client w) (request_of w c)) as [[r|] [e|]];
    try done; cbn [snd err_set _result_embed fmap option_fmap option_map];
    try rewrite Hshape; rewrite reserve_then_finalize; cbn [fst snd];
    (split; [done|]);
    destruct (c_deliver c);
    rewrite !terminal_statuses_app, Ht;
    (split; [by vm_compute|]);
    intros [Hin|Hin]%elem_of_app; try (by apply Hno);
    repeat (apply elem_of_cons in Hin as [Heq|Hin]; [discriminate Heq|]);
    by apply elem_of_nil in Hin.
Qed.

End command_facts.





(** C7.  When Remaining is 0 the command answers with one message and
    does nothing else: the ledger is as it was, no status is shown and no
    worker is started; for a caller who passes the access check that
    message is the one of the daily limit. *)
Theorem quota_exhausted_rejects (H : Host) (w : world) (author : member)
    (c : command) (db : Ledger) :
  (_remaining_today (_today_et_str (w_now w)) (member_id author) db).1 = 0 →
  (Parlay.parlay w author c db).1 = db
  ∧ statuses (Parlay.parlay w author c db).2 = []
  ∧ (StartWorker ∉ (Parlay.parlay w author c db).2)
  ∧ length (Parlay.parlay w author c db).2 = 1%nat
  ∧ (administrator author || existsb (Z.eqb PREMIUM_ROLE_ID) (role_ids author) = true →
     (Parlay.parlay w author c db).2 = [SendMessage limit_reached]).
Proof.
  intros Hrem. rewrite (parlay_rejected w author c db Hrem). cbn [fst snd].
  repeat split; try done.
  - intros [Heq|Hin]%elem_of_cons; [discriminate Heq|by apply elem_of_nil in Hin].
  - by intros ->.
Qed.

(** The fourth attempt of a day with three successes. *)
Lemma quota_exhausted_rejects_witness :
  (_remaining_today "2025-01-15" 7 ledger_three_wins).1 = 0
  ∧ Parlay.parlay (H := example_host) timeout_world an_admin a_command ledger_three_wins
    = (ledger_three_wins, [SendMessage limit_reached]).
Proof.
  split; [vm_compute; reflexivity|].
  destruct (quota_exhausted_rejects example_host timeout_world an_admin a_command
              ledger_three_wins) as (Hdb & _ & _ & _ & Hmsg).
  - vm_compute. reflexivity.
  - rewrite (surjective_pairing (Parlay.parlay _ _ _ _)), Hdb, Hmsg; reflexivity.
Defined.

(** * Further properties *)

(** ** The ledger, continued *)

Section ledger_more.
Implicit Types (db : Ledger) (j : string) (r row : JobRow) (st : Status).

(** The ledger after the jobs [ids], each reserved for the user on the
    day and finalized as success, the last of the list first. *)
Lemma fold_jobs_lookup_fresh uid d db (ids : list string) j :
  j ∉ ids →
  foldr (fun k acc => _set_job_status k success (_create_pending_job k uid d acc))
        db ids !! j = db !! j.
Proof.
  induction ids as [|k ids IH]; [done|]. intros Hnin. cbn [foldr].
  rewrite reserve_then_finalize, lookup_insert_ne.
  - apply IH. intros Hin. apply Hnin. by right.
  - intros ->. apply Hnin. by left.
Qed.

Lemma count_insert_other uid d db j row :
  ¬ counted uid d (j, row) →
  (∀ r, db !! j = Some r → ¬ counted uid d (j, r)) →
  _count_success_today uid d (<[j := row]> db) = _count_success_today uid d db.
Proof.
  intros Hrow Hold. unfold _count_success_today.
  by rewrite map_filter_insert_not'.
Qed.

End ledger_more.

(** X1.  Jobs reserved under fresh, distinct job ids and finalized as
    success each take one from the count of their user and day, so that
    Remaining falls by their number down to 0; the count of any other
    user or day is unchanged. *)
Theorem successes_consume_quota (today : string) (uid : Z) (db : Ledger)
    (ids : list string) :
  NoDup ids →
  (∀ j, j ∈ ids → db !! j = None) →
  let db' := foldr (fun j acc => _set_job_status j success
                                   (_create_pending_job j uid today acc)) db ids in
  _count_success_today uid today db'
    = _count_success_today uid today db + Z.of_nat (length ids)
  ∧ (_remaining_today today uid db').1
    = Z.max 0 ((DAILY_MAX_PARLAYS - _count_success_today uid today db)
               - Z.of_nat (length ids))
  ∧ (∀ other day, (other, day) ≠ (uid, today) →
       _count_success_today other day db' = _count_success_today other day db).
Proof.
  intros Hnd Hfresh db'.
  assert (Hcount : _count_success_today uid today db'
            = _count_success_today uid today db + Z.of_nat (length ids)).
  { unfold db'. clear db'. induction Hnd as [|j ids Hj Hnd IH]; cbn [foldr length].
    - lia.
    - rewrite reserve_then_finalize, count_insert_counted.
      + rewrite IH; [lia|]. intros k Hk. apply Hfresh. by right.
      + intros r Hr. rewrite fold_jobs_lookup_fresh in Hr by done.
        rewrite Hfresh in Hr; [done|by left]. }
  split; [exact Hcount|]. split.
  - unfold _remaining_today. cbn [fst]. rewrite Hcount. f_equal. lia.
  - intros other day Hne. unfold db'. clear db' Hcount.
    induction Hnd as [|j ids Hj Hnd IH]; cbn [foldr]; [done|].
    rewrite reserve_then_finalize, count_insert_other.
    + apply IH. intros k Hk. apply Hfresh. by right.
    + unfold counted. cbn. intros (-> & -> & _). by apply Hne.
    + intros r Hr. rewrite fold_jobs_lookup_fresh in Hr by done.
      rewrite Hfresh in Hr; [done|by left].
Qed.

Lemma successes_consume_quota_witness :
  (_remaining_today "2025-01-15" 7
     (foldr (fun j acc => _set_job_status j success
                            (_create_pending_job j 7 "2025-01-15" acc))
        ledger_two_wins ["0E0E0E0E"; "0F0F0F0F"])).1 = 0.
Proof.
  destruct (successes_consume_quota "2025-01-15" 7 ledger_two_wins
              ["0E0E0E0E"; "0F0F0F0F"]) as (_ & Hrem & _).
  - repeat constructor; intros Hin;
      repeat (apply elem_of_cons in Hin as [Hin|Hin]; [discriminate Hin|]);
      by apply elem_of_nil in Hin.
  - intros j Hin.
    repeat (apply elem_of_cons in Hin as [->|Hin]; [vm_compute; reflexivity|]).
    by apply elem_of_nil in Hin.
  - rewrite Hrem. vm_compute. reflexivity.
Defined.

(** X2.  A reserve followed by a finalize as failed changes the count of
    a user and day only through the row the job id held before: the
    count falls by one when that row was a success of that user and day,
    and stays otherwise; so Remaining never falls. *)
Theorem reserve_then_fail_count (today : string) (uid : Z) (db : Ledger)
    (job_id : string) (owner : Z) (date : string) :
  let db' := _set_job_status job_id failed
               (_create_pending_job job_id owner date db) in
  _count_success_today uid today db'
    = match db !! job_id with
      | Some r =>
          if decide (counted uid today (job_id, r))
          then _count_success_today uid today db - 1
          else _count_success_today uid today db
      | None => _count_success_today uid today db
      end
  ∧ (_remaining_today today uid db).1 <= (_remaining_today today uid db').1.
Proof.
  intros db'. unfold db'. rewrite reserve_then_finalize.
  assert (Hfail : ¬ counted uid today (job_id, mkRow owner date failed)).
  { unfold counted. cbn. by intros (_ & _ & ?). }
  assert (Hcount : _count_success_today uid today
                     (<[job_id := mkRow owner date failed]> db)
            = match db !! job_id with
              | Some r =>
                  if decide (counted uid today (job_id, r))
                  then _count_success_today uid today db - 1
                  else _count_success_today uid today db
              | None => _count_success_today uid today db
              end).
  { destruct (db !! job_id) as [r|] eqn:Hr.
    - destruct (decide (counted uid today (job_id, r))) as [Hc|Hc].
      + unfold _count_success_today.
        rewrite map_filter_insert_False, map_filter_delete by done.
        rewrite map_size_delete.
        assert (Hin : filter (counted uid today) db !! job_id = Some r)
          by (by apply map_lookup_filter_Some).
        rewrite Hin.
        assert (size (filter (counted uid today) db) ≠ 0%nat).
        { intros Hz. apply map_size_empty_inv in Hz. rewrite Hz in Hin.
          by rewrite lookup_empty in Hin. }
        lia.
      + apply count_insert_other; [done|]. intros r' Hr'. congruence.
    - apply count_insert_other; [done|]. intros r' Hr'. congruence. }
  split; [exact Hcount|].
  unfold _remaining_today. cbn [fst]. rewrite Hcount.
  destruct (db !! job_id) as [r|]; [|lia].
  destruct (decide (counted uid today (job_id, r))); lia.
Qed.

(** ** Dates, continued *)

(** X3.  On a date of the calendar, [next_day] gives the date of the
    calendar that follows it: it is later, and no date of the calendar
    lies between the two. *)
Theorem next_day_is_successor (d : date) :
  valid_date d →
  valid_date (next_day d)
  ∧ date_lt d (next_day d)
  ∧ (∀ d', valid_date d' → date_lt d d' → ¬ date_lt d' (next_day d)).
Proof.
  intros Hd. split; [by apply next_day_valid|].
  destruct d as [y m dd]. unfold valid_date, next_day, date_lt in *.
  cbn [year month day] in *.
  destruct (Z.ltb_spec dd (days_in_month y m)) as [Hlt|Hge];
    [|destruct (Z.ltb_spec m 12) as [Hm|Hm]]; cbn [year month day].
  - split; [lia|]. intros [y' m' dd'] _. cbn [year month day]. lia.
  - split; [lia|]. intros [y' m' dd'] [Hm' Hd']. cbn [year month day] in *.
    intros [Hy|[-> [Hmm|[-> Hdd]]]]; lia.
  - split; [lia|]. intros [y' m' dd'] [Hm' Hd']. cbn [year month day] in *.
    intros [Hy|[-> [Hmm|[-> Hdd]]]]; lia.
Qed.

Lemma next_day_is_successor_witness :
  next_day (mkDate 2024 2 28) = mkDate 2024 2 29
  ∧ date_lt (mkDate 2024 12 31) (next_day (mkDate 2024 12 31)).
Proof.
  split; [reflexivity|].
  apply (next_day_is_successor (mkDate 2024 12 31)).
  unfold valid_date. cbn. lia.
Defined.

Section date_text.

Lemma string_length_app (a b : string) :
  String.length (a ++ b) = (String.length a + String.length b)%nat.
Proof.
  induction a as [|c a IH]; [done|].
  rewrite append_cons. cbn [String.length]. by rewrite IH.
Qed.

Lemma length_map_chars f s : String.length (Py.map_chars f s) = String.length s.
Proof. induction s as [|c s IH]; [done|]. cbn. by rewrite IH. Qed.

Lemma length_zeros k : String.length (String.concat "" (repeat "0" k)) = k.
Proof.
  induction k as [|k IH]; [done|].
  destruct k as [|k]; [done|].
  change (String.concat "" (repeat "0" (S (S k))))
    with ("0" ++ "" ++ String.concat "" (repeat "0" (S k))).
  rewrite !string_length_app. cbn [String.length]. rewrite IH. lia.
Qed.

Lemma length_zpad w n : (w <= String.length (zpad w n))%nat.
Proof. unfold zpad. rewrite string_length_app, length_zeros. lia. Qed.

Lemma length_strftime d : (10 <= String.length (strftime_ymd d))%nat.
Proof.
  unfold strftime_ymd. rewrite !string_length_app. cbn [String.length].
  pose proof (length_zpad 4 (year d)). pose proof (length_zpad 2 (month d)).
  pose proof (length_zpad 2 (day d)). lia.
Qed.

(** A text of ten characters or more is no word that [normalize_date]
    knows, and goes through it unchanged. *)
Lemma normalize_date_long now s :
  (10 <= String.length s)%nat → normalize_date now (Some s) = s.
Proof.
  intros Hlen. unfold normalize_date.
  assert (Hne : Py.nonempty s = true) by (destruct s; [cbn in Hlen; lia|done]).
  assert (Hl : String.length (Py.lower s) = String.length s)
    by apply length_map_chars.
  rewrite Hne. cbn [negb orb].
  destruct (String.eqb_spec (Py.lower s) "today") as [Heq|_].
  { rewrite Heq in Hl. cbn in Hl. lia. }
  rewrite bool_decide_eq_false_2; [done|].
  unfold tomorrow_aliases. intros Hin.
  repeat (apply elem_of_cons in Hin as [Heq|Hin];
          [rewrite Heq in Hl; cbn in Hl; lia|]).
  by apply elem_of_nil in Hin.
Qed.

End date_text.

(** X4.  [normalize_date] applied to its own result changes nothing: the
    dates it writes are not taken for one of its words. *)
Theorem normalize_date_idempotent (now : date) (date_str : option string) :
  normalize_date now (Some (normalize_date now date_str))
  = normalize_date now date_str.
Proof.
  assert (Hd : ∀ d, normalize_date now (Some (strftime_ymd d)) = strftime_ymd d).
  { intros d. apply normalize_date_long, length_strftime. }
  destruct date_str as [s|]; [|apply Hd].
  unfold normalize_date at 2 3.
  destruct (negb (Py.nonempty s) || (Py.lower s =? "today")%string) eqn:Hfirst;
    [apply Hd|].
  destruct (bool_decide (Py.lower s ∈ tomorrow_aliases)) eqn:Hsecond; [apply Hd|].
  unfold normalize_date. by rewrite Hfirst, Hsecond.
Qed.

(** ** The status embed *)

(** X5.  The timer of a status embed splits the elapsed seconds, taken as
    0 when negative, into minutes and seconds below 60; a status in
    progress is yellow and shows the frame [spinner_idx mod 12], any other
    status shows no frame and is green when it is Complete and red
    otherwise. *)
Theorem status_embed_shape (job_id st : string) (elapsed_s : Z) (spinner_idx : nat) :
  let e := _status_embed job_id st elapsed_s spinner_idx in
  0 <= (se_timer e).1
  ∧ 0 <= (se_timer e).2 < 60
  ∧ 60 * (se_timer e).1 + (se_timer e).2 = Z.max 0 elapsed_s
  ∧ (if bool_decide (st ∈ ["Running"; "Waiting"; "Processing"])
     then se_color e = yellow
          ∧ se_spin e = Some (spinner_idx mod 12)%nat
          ∧ (spinner_idx mod 12 < 12)%nat
     else se_spin e = None
          ∧ se_color e = if bool_decide (st = "Complete") then green else red).
Proof.
  intros e. unfold e, _status_embed, in_progress. cbn [se_timer se_color se_spin fst snd].
  split; [apply Z.div_pos; lia|].
  split; [apply Z.mod_pos_bound; lia|].
  split; [pose proof (Z.div_mod (Z.max 0 elapsed_s) 60); lia|].
  destruct (bool_decide (st ∈ ["Running"; "Waiting"; "Processing"])).
  - repeat split. apply Nat.mod_upper_bound. lia.
  - split; [done|].
    destruct (String.eqb_spec st "Complete") as [->|Hne].
    + by rewrite bool_decide_eq_true_2.
    + by rewrite bool_decide_eq_false_2.
Qed.

(** ** The runner, continued *)

Lemma length_substring_le n m s : (String.length (substring n m s) <= m)%nat.
Proof.
  revert n m. induction s as [|c s IH]; intros n m.
  - destruct n, m; cbn; lia.
  - destruct n as [|n].
    + destruct m as [|m]; cbn; [lia|]. specialize (IH 0%nat m). lia.
    + cbn. apply IH.
Qed.

(** ** Characters *)

Section char_facts.

Lemma char_len_app a b : Py.char_len (a ++ b) = (Py.char_len a + Py.char_len b)%nat.
Proof.
  induction a as [|c a IH]; [done|]. rewrite append_cons. cbn [Py.char_len].
  destruct (Py.is_cont c); lia.
Qed.

Lemma char_len_le_length s : (Py.char_len s <= String.length s)%nat.
Proof.
  induction s as [|c s IH]; [done|]. cbn [Py.char_len String.length].
  destruct (Py.is_cont c); lia.
Qed.

Lemma char_len_take n s : (Py.char_len (Py.take_chars n s) <= n)%nat.
Proof.
  revert n. induction s as [|c s IH]; intros n; [cbn; lia|].
  cbn [Py.take_chars]. destruct (Py.is_cont c) eqn:Hc.
  - cbn [Py.char_len]. rewrite Hc. apply IH.
  - destruct n as [|n]; [cbn; lia|]. cbn [Py.char_len]. rewrite Hc.
    specialize (IH n). lia.
Qed.

Lemma take_chars_whole n s : (Py.char_len s <= n)%nat → Py.take_chars n s = s.
Proof.
  revert n. induction s as [|c s IH]; intros n Hn; [done|].
  cbn [Py.take_chars Py.char_len] in *. destruct (Py.is_cont c).
  - by rewrite IH.
  - destruct n as [|n]; [lia|]. rewrite IH; [done|lia].
Qed.

(** The first characters of a text are a prefix of it. *)
Lemma take_chars_split n s : ∃ t, s = Py.take_chars n s ++ t.
Proof.
  revert n. induction s as [|c s IH]; intros n; [by exists ""|].
  cbn [Py.take_chars]. destruct (Py.is_cont c).
  - destruct (IH n) as (t & Ht). exists t. by rewrite append_cons, <- Ht.
  - destruct n as [|n]; [by exists (String c s)|].
    destruct (IH n) as (t & Ht). exists t. by rewrite append_cons, <- Ht.
Qed.

Lemma is_ascii_app a b : Py.is_ascii (a ++ b) = Py.is_ascii a && Py.is_ascii b.
Proof.
  induction a as [|c a IH]; [done|]. rewrite append_cons. cbn [Py.is_ascii].
  by rewrite IH, andb_assoc.
Qed.

(** On ASCII text a character is a byte. *)
Lemma char_len_ascii s : Py.is_ascii s = true → Py.char_len s = String.length s.
Proof.
  induction s as [|c s IH]; [done|]. cbn [Py.is_ascii Py.char_len String.length].
  intros [Hc Hs]%andb_true_iff. unfold Py.is_cont.
  apply Nat.ltb_lt in Hc.
  destruct (Nat.leb_spec 128 (nat_of_ascii c)); [lia|]. cbn [andb].
  by rewrite (IH Hs).
Qed.

End char_facts.

(** X6.  The preview of a text in an error message is the text itself up
    to 300 characters, and otherwise its first 300 characters and the
    ellipsis, 302 characters in all; so the message for a reply that is
    no JSON has at most 350 characters however long the reply is. *)
Theorem preview_is_bounded (H : Host) (client : client_t) (req : request)
    (resp : response) (text : string) :
  (Py.char_len (preview text) <= 302)%nat
  ∧ ((Py.char_len text <= 300)%nat → preview text = text)
  ∧ ((300 < Py.char_len text)%nat →
     preview text = Py.take_chars 300 text ++ " …")
  ∧ (Py.nonempty (Py.strip (user_query req)) = true →
     (_call_deep_research client).1 = Return resp →
     output_text resp = Some text →
     _extract_json_from_text text = None →
     ∃ e, run_deep_research client req = (None, Some e)
          ∧ (Py.char_len e <= 350)%nat).
Proof.
  assert (Hshort : (Py.char_len text <= 300)%nat → preview text = text).
  { intros Hlen. unfold preview, Py.len.
    destruct (Z.ltb_spec 300 (Z.of_nat (Py.char_len text))) as [|_]; [lia|].
    by rewrite andb_false_r. }
  assert (Hlong : (300 < Py.char_len text)%nat →
            preview text = Py.take_chars 300 text ++ " …").
  { intros Hlen. unfold preview, Py.len.
    destruct (Z.ltb_spec 300 (Z.of_nat (Py.char_len text))) as [_|]; [|lia].
    destruct text; [cbn in Hlen; lia|done]. }
  assert (Hdots : Py.char_len " …" = 2%nat) by reflexivity.
  assert (Hbound : (Py.char_len (preview text) <= 302)%nat).
  { destruct (le_lt_dec (Py.char_len text) 300) as [Hle|Hlt].
    - rewrite (Hshort Hle). lia.
    - rewrite (Hlong Hlt), char_len_app, Hdots.
      pose proof (char_len_take 300 text). lia. }
  split; [exact Hbound|]. split; [exact Hshort|]. split; [exact Hlong|].
  intros Hq Hcall Htext Hex.
  rewrite (run_on_text client req resp text Hq Hcall Htext), Hex.
  eexists. split; [reflexivity|].
  rewrite !char_len_app.
  assert (Hhead : Py.char_len "Model did not return valid JSON. Preview: ```"
                  = 45%nat) by reflexivity.
  assert (Htail : Py.char_len "```" = 3%nat) by reflexivity.
  rewrite Hhead, Htail. lia.
Qed.

Lemma preview_is_bounded_witness :
  ∃ e, run_deep_research (H := example_host) (replying "pas de JSON, désolé")
         a_request
       = (None, Some e)
       ∧ (Py.char_len e <= 350)%nat.
Proof.
  apply (preview_is_bounded example_host (replying "pas de JSON, désolé") a_request
           (mkResp (Some "pas de JSON, désolé")) "pas de JSON, désolé");
    vm_compute; reflexivity.
Defined.

(** ** The research worker, continued *)

(** The case analysis of the three turns of the loop, by the answers of
    the client. *)
Ltac loop_cases client :=
  unfold _call_deep_research, max_retries; cbn [seq retry_loop];
  repeat match goal with
  | |- context [match client ?k ?b with _ => _ end] =>
      let e := fresh "e" in
      let Heq := fresh "Hcall" in
      destruct (client k b) as [?|e] eqn:Heq;
      [|destruct e as [[|] ?]]; cbn [exn_type_error]
  end.

Lemma backoff_total : (backoff 0 + backoff 1 + backoff 2 == 73 # 10)%Q.
Proof. vm_compute. reflexivity. Qed.

(** X7.  When [_call_deep_research] returns, what it returns is the
    answer of the last call it made, and it does not sleep after that
    call; when it raises, it has slept after each of the three attempts,
    the last one included, 1 + 2.1 + 4.2 seconds in all. *)
Theorem call_ends_with_last_answer (client : client_t) :
  let res := (_call_deep_research client).1 in
  let log := (_call_deep_research client).2 in
  match res with
  | Return r =>
      ∃ b, last log = Some (Call b)
           ∧ client (length (calls_made log) - 1)%nat b = Return r
           ∧ S (length (sleeps log)) = attempts_made log
  | Raise _ =>
      last log = Some (Sleep (backoff 2))
      ∧ sleeps log = [backoff 0; backoff 1; backoff 2]
      ∧ (backoff 0 + backoff 1 + backoff 2 == 73 # 10)%Q
  end.
Proof.
  intros res log. unfold res, log. clear res log.
  loop_cases client; cbn [fst snd].
  all: try (split; [reflexivity|split; [reflexivity|exact backoff_total]]).
  all: eexists; split; [reflexivity|split; [|reflexivity]].
  all: match goal with H : _ = Return _ |- _ => exact H end.
Qed.

(** X8.  The call without [response_format] is the fallback for a
    [TypeError] only: with a client whose calls never raise a
    [TypeError], every call passes [response_format] and at most 3 calls
    are made. *)
Theorem no_type_error_no_fallback (client : client_t) :
  (∀ k b e, client k b = Raise e → exn_type_error e = false) →
  (Call false ∉ (_call_deep_research client).2)
  ∧ (length (calls_made (_call_deep_research client).2) <= 3)%nat.
Proof.
  intros Hno.
  loop_cases client; cbn [fst snd];
    try match goal with
    | H : client _ _ = Raise (mkExn true _) |- _ =>
        apply Hno in H; discriminate H
    end.
  all: split; [|cbv; lia].
  all: intros Hin; cbn [rev app] in Hin.
  all: repeat (apply elem_of_cons in Hin as [Heq|Hin]; [discriminate Heq|]).
  all: by apply elem_of_nil in Hin.
Qed.

(** A client whose calls fail for a reason that is no [TypeError]. *)
Lemma no_type_error_no_fallback_witness :
  calls_made (_call_deep_research (fun _ _ => Raise (mkExn false "down"))).2
  = [true; true; true]
  ∧ (Call false ∉ (_call_deep_research (fun _ _ => Raise (mkExn false "down"))).2).
Proof.
  split; [reflexivity|].
  apply (no_type_error_no_fallback (fun _ _ => Raise (mkExn false "down"))).
  intros k b e [= <-]. reflexivity.
Defined.

(** ** Chunks *)

Section chunk_facts.

Lemma append_empty s : s ++ "" = s.
Proof. induction s as [|c s IH]; [done|]. by rewrite append_cons, IH. Qed.

Lemma append_assoc (a b c : string) : (a ++ b) ++ c = a ++ (b ++ c).
Proof. induction a as [|x a IH]; [done|]. by rewrite !append_cons, IH. Qed.

Lemma substring_empty n m : substring n m "" = "".
Proof. by destruct n, m. Qed.

Lemma substring_extra s : ∀ n k,
  substring n (String.length s + k) s = substring n (String.length s) s.
Proof.
  induction s as [|c s IH]; intros n k.
  - by rewrite !substring_empty.
  - destruct n as [|n]; cbn [String.length Nat.add substring].
    + by rewrite IH.
    + replace (S (String.length s + k)) with (String.length s + S k)%nat by lia.
      replace (S (String.length s)) with (String.length s + 1)%nat by lia.
      by rewrite !IH.
Qed.

Lemma drop_0 s : Re.drop 0 s = s.
Proof. apply substring_whole. Qed.

Lemma drop_S n c s : Re.drop (S n) (String c s) = Re.drop n s.
Proof.
  unfold Re.drop. cbn [String.length substring].
  replace (S (String.length s)) with (String.length s + 1)%nat by lia.
  apply substring_extra.
Qed.

Lemma drop_empty n : Re.drop n "" = "".
Proof. unfold Re.drop. apply substring_empty. Qed.

Lemma take_drop_string n s : substring 0 n s ++ Re.drop n s = s.
Proof.
  revert n. induction s as [|c s IH]; intros n.
  - by rewrite substring_empty, drop_empty.
  - destruct n as [|n].
    + by rewrite drop_0.
    + rewrite drop_S. cbn [substring]. by rewrite append_cons, IH.
Qed.

Lemma length_drop n s : String.length (Re.drop n s) = (String.length s - n)%nat.
Proof.
  revert n. induction s as [|c s IH]; intros n.
  - by rewrite drop_empty.
  - destruct n as [|n]; [by rewrite drop_0|]. rewrite drop_S, IH. cbn. lia.
Qed.

Lemma length_lstrip p s : (String.length (Py.lstrip_by p s) <= String.length s)%nat.
Proof.
  induction s as [|c s IH]; [done|]. cbn [Py.lstrip_by].
  destruct (p c); cbn [String.length]; lia.
Qed.

Lemma length_rstrip p s : (String.length (Py.rstrip_by p s) <= String.length s)%nat.
Proof.
  induction s as [|c s IH]; [done|]. cbn [Py.rstrip_by].
  destruct (Py.rstrip_by p s); [destruct (p c)|]; cbn [String.length] in *; lia.
Qed.

Lemma headed_lstrip s : headed (Py.lstrip_by Py.isspace s).
Proof.
  induction s as [|c s IH]; [done|]. cbn [Py.lstrip_by].
  destruct (Py.isspace c) eqn:Hc; [done|]. exact Hc.
Qed.

Lemma lstrip_headed s : headed s → Py.lstrip_by Py.isspace s = s.
Proof. destruct s as [|c s]; [done|]. intros Hc. cbn in *. by rewrite Hc. Qed.

Lemma tailed_rstrip s : tailed (Py.rstrip_by Py.isspace s).
Proof.
  unfold tailed. induction s as [|c s IH]; [done|]. cbn [Py.rstrip_by].
  destruct (Py.rstrip_by Py.isspace s) as [|d r] eqn:Hr.
  - destruct (Py.isspace c) eqn:Hc; [done|]. cbn. by rewrite Hc.
  - change (Py.rstrip_by Py.isspace (String c (String d r)))
      with (match Py.rstrip_by Py.isspace (String d r) with
            | EmptyString => if Py.isspace c then EmptyString else String c EmptyString
            | r' => String c r'
            end).
    by rewrite IH.
Qed.

Lemma tailed_tail c s : tailed (String c s) → tailed s.
Proof.
  unfold tailed. cbn [Py.rstrip_by].
  destruct (Py.rstrip_by Py.isspace s) as [|d r].
  - destruct (Py.isspace c); [discriminate|]. by intros [= <-].
  - by intros [= <-].
Qed.

Lemma tailed_lstrip s : tailed s → tailed (Py.lstrip_by Py.isspace s).
Proof.
  induction s as [|c s IH]; [done|]. intros Ht. cbn [Py.lstrip_by].
  destruct (Py.isspace c); [|done]. by apply IH, (tailed_tail c).
Qed.

Lemma tailed_drop n s : tailed s → tailed (Re.drop n s).
Proof.
  revert n. induction s as [|c s IH]; intros n Ht.
  - by rewrite drop_empty.
  - destruct n as [|n]; [by rewrite drop_0|]. rewrite drop_S.
    by apply IH, (tailed_tail c).
Qed.

Lemma rstrip_head c x :
  Py.isspace c = false →
  ∃ y, Py.rstrip_by Py.isspace (String c x) = String c y.
Proof.
  intros Hc. cbn [Py.rstrip_by].
  destruct (Py.rstrip_by Py.isspace x) as [|d r]; [rewrite Hc|]; eauto.
Qed.

Lemma non_space_app a b : Str.non_space (a ++ b) = Str.non_space a ++ Str.non_space b.
Proof.
  induction a as [|c a IH]; [done|]. rewrite append_cons. cbn [Str.non_space].
  destruct (Py.isspace c); [done|]. by rewrite append_cons, IH.
Qed.

Lemma non_space_lstrip s : Str.non_space (Py.lstrip_by Py.isspace s) = Str.non_space s.
Proof.
  induction s as [|c s IH]; [done|]. cbn [Py.lstrip_by Str.non_space].
  destruct (Py.isspace c) eqn:Hc; [done|]. cbn [Str.non_space]. by rewrite Hc.
Qed.

Lemma non_space_rstrip s : Str.non_space (Py.rstrip_by Py.isspace s) = Str.non_space s.
Proof.
  induction s as [|c s IH]; [done|]. cbn [Py.rstrip_by Str.non_space].
  destruct (Py.rstrip_by Py.isspace s) as [|d r] eqn:Hr.
  - rewrite <- IH. destruct (Py.isspace c) eqn:Hc; cbn [Str.non_space]; [done|].
    by rewrite Hc.
  - by rewrite <- IH.
Qed.

Lemma non_space_strip s : Str.non_space (Py.strip s) = Str.non_space s.
Proof.
  unfold Py.strip, Py.strip_by. by rewrite non_space_rstrip, non_space_lstrip.
Qed.

Lemma rfind_range c s : -1 <= Py.rfind c s < Z.of_nat (String.length s).
Proof.
  induction s as [|a s IH]; [cbn; lia|]. cbn [Py.rfind String.length].
  destruct (Z.eqb_spec (Py.rfind c s) (-1)); [destruct (Ascii.eqb a c)|]; lia.
Qed.

Lemma rfind_zero_head c a s : Py.rfind c (String a s) = 0 → a = c.
Proof.
  cbn [Py.rfind]. pose proof (rfind_range c s).
  destruct (Z.eqb_spec (Py.rfind c s) (-1)); [|lia].
  destruct (Ascii.eqb_spec a c); [done|lia].
Qed.

Lemma substring_app_le a t : ∀ k,
  (k <= String.length a)%nat → substring 0 k (a ++ t) = substring 0 k a.
Proof.
  induction a as [|x a IH]; intros k Hk.
  - cbn in Hk. assert (k = 0%nat) as -> by lia. by destruct t.
  - rewrite append_cons. destruct k as [|k]; [done|]. cbn [substring].
    rewrite IH; [done|]. cbn in Hk. lia.
Qed.

Lemma drop_app_length a t : Re.drop (String.length a) (a ++ t) = t.
Proof.
  induction a as [|x a IH]; [apply drop_0|].
  rewrite append_cons. cbn [String.length]. by rewrite drop_S.
Qed.

Lemma tailed_suffix a t : tailed (a ++ t) → tailed t.
Proof.
  induction a as [|x a IH]; [done|]. rewrite append_cons. intros Ht.
  by apply IH, (tailed_tail x).
Qed.

Lemma char_len_rstrip s :
  (Py.char_len (Py.rstrip_by Py.isspace s) <= Py.char_len s)%nat.
Proof.
  induction s as [|c s IH]; [done|]. cbn [Py.rstrip_by].
  destruct (Py.rstrip_by Py.isspace s) as [|d r].
  - destruct (Py.isspace c); cbn [Py.char_len] in *; destruct (Py.is_cont c); lia.
  - cbn [Py.char_len] in *. destruct (Py.is_cont c); lia.
Qed.

Lemma is_ascii_lstrip s :
  Py.is_ascii s = true → Py.is_ascii (Py.lstrip_by Py.isspace s) = true.
Proof.
  induction s as [|c s IH]; [done|]. intros Hs. cbn [Py.lstrip_by].
  destruct (Py.isspace c); [|done]. cbn [Py.is_ascii] in Hs.
  apply andb_true_iff in Hs as [_ Hs]. by apply IH.
Qed.

Lemma is_ascii_rstrip s :
  Py.is_ascii s = true → Py.is_ascii (Py.rstrip_by Py.isspace s) = true.
Proof.
  induction s as [|c s IH]; [done|]. cbn [Py.is_ascii].
  intros [Hc Hs]%andb_true_iff. specialize (IH Hs). cbn [Py.rstrip_by].
  destruct (Py.rstrip_by Py.isspace s) as [|d r].
  - destruct (Py.isspace c); [done|]. cbn [Py.is_ascii]. by rewrite Hc.
  - cbn [Py.is_ascii] in *. by rewrite Hc, IH.
Qed.

(** What the loop takes from a text longer than the limit that starts
    with no whitespace: a prefix that starts with the same character and
    has at most [limit] characters. *)
Lemma head_spec limit c s :
  (1 <= limit)%nat → Py.isspace c = false →
  let found := Py.rfind newline (Py.take_chars limit (String c s)) in
  let head := if found =? -1 then Py.take_chars limit (String c s)
              else substring 0 (Z.to_nat found) (String c s) in
  ∃ y t, head = String c y ∧ String c s = head ++ t
         ∧ (Py.char_len head <= limit)%nat.
Proof.
  intros Hlimit Hc found head.
  destruct (take_chars_split limit (String c s)) as (t0 & Ht0).
  pose proof (char_len_take limit (String c s)) as Hlen.
  assert (Hfirst : ∃ y0, Py.take_chars limit (String c s) = String c y0).
  { cbn [Py.take_chars]. destruct (Py.is_cont c); [by eexists|].
    destruct limit as [|l]; [lia|]. by eexists. }
  destruct Hfirst as (y0 & Hy0).
  unfold head. destruct (Z.eqb_spec found (-1)) as [|Hfound].
  - exists y0, t0. by rewrite <- Hy0.
  - pose proof (rfind_range newline (Py.take_chars limit (String c s))) as Hr.
    fold found in Hr.
    assert (Hnz : found ≠ 0).
    { intros Hz. unfold found in Hz. rewrite Hy0 in Hz.
      apply rfind_zero_head in Hz. subst c. discriminate Hc. }
    remember (Z.to_nat found) as k eqn:Hkdef.
    assert (Hk : (1 <= k < String.length (Py.take_chars limit (String c s)))%nat)
      by lia.
    assert (Hsub : substring 0 k (String c s)
                   = substring 0 k (Py.take_chars limit (String c s))).
    { rewrite Ht0 at 1. apply substring_app_le. lia. }
    pose proof (take_drop_string k (Py.take_chars limit (String c s))) as Hsplit.
    exists (substring 0 (k - 1) y0),
           (Re.drop k (Py.take_chars limit (String c s)) ++ t0).
    split; [|split].
    + rewrite Hsub, Hy0. destruct k as [|k']; [lia|]. cbn [substring].
      by replace (S k' - 1)%nat with k' by lia.
    + rewrite Hsub, <- append_assoc, Hsplit. exact Ht0.
    + rewrite Hsub. rewrite <- Hsplit, char_len_app in Hlen. lia.
Qed.

(** The loop of [_chunk] on a text that starts with no whitespace and
    ends with none. *)
Lemma chunk_loop_spec limit : (1 <= limit)%nat →
  ∀ fuel s parts,
    (String.length s <= fuel)%nat → headed s → tailed s →
    ∃ out,
      chunk_loop fuel limit s parts = Some (parts ++ out)%list
      ∧ chunks_text limit out s
      ∧ (Py.is_ascii s = true → Forall (fun p => Py.is_ascii p = true) out).
Proof.
  intros Hlimit. unfold chunks_text.
  induction fuel as [|fuel IH]; intros s parts Hfuel Hhead Htail.
  - destruct s; [|cbn in Hfuel; lia]. exists []. cbn [chunk_loop Py.char_len].
    destruct (Nat.ltb_spec limit 0); [lia|]. cbn. by rewrite app_nil_r.
  - destruct (Nat.ltb_spec limit (Py.char_len s)) as [Hlong|Hshort].
    + destruct s as [|c s]; [cbn in Hlong; lia|]. cbn in Hhead.
      destruct (head_spec limit c s Hlimit Hhead) as (y & t & Hy & Hsplit & Hchars).
      cbn zeta in Hy, Hsplit, Hchars. cbn [chunk_loop].
      destruct (Nat.ltb_spec limit (Py.char_len (String c s))) as [_|]; [|lia].
      set (head := if Py.rfind newline (Py.take_chars limit (String c s)) =? -1
                   then Py.take_chars limit (String c s)
                   else substring 0
                          (Z.to_nat (Py.rfind newline
                                       (Py.take_chars limit (String c s))))
                          (String c s)) in *.
      assert (Hdrop : Re.drop (String.length head) (String c s) = t).
      { rewrite Hsplit at 1. apply drop_app_length. }
      rewrite Hdrop.
      set (part := Py.rstrip_by Py.isspace head).
      set (rest := Py.lstrip_by Py.isspace t).
      assert (Hlen : String.length (String c s)
                     = (String.length head + String.length t)%nat).
      { rewrite Hsplit at 1. apply string_length_app. }
      destruct (IH rest (parts ++ [part])%list)
        as (out & Hout & (Hall & Hns) & Hascii).
      * unfold rest. pose proof (length_lstrip Py.isspace t).
        rewrite Hy in Hlen. cbn [String.length] in *. lia.
      * apply headed_lstrip.
      * apply tailed_lstrip, (tailed_suffix head). by rewrite <- Hsplit.
      * exists (part :: out). rewrite Hout, <- app_assoc. split; [done|].
        assert (Hpart : ∃ y', part = String c y').
        { unfold part. rewrite Hy. by apply rstrip_head. }
        destruct Hpart as (y' & Hy'). split; [split|].
        -- constructor; [|done]. split; [rewrite Hy'; cbn; lia|]. split.
           ++ unfold part. pose proof (char_len_rstrip head). lia.
           ++ unfold Py.strip, Py.strip_by. rewrite lstrip_headed.
              ** apply tailed_rstrip.
              ** by rewrite Hy'.
        -- unfold glued in *. cbn [foldr]. rewrite non_space_app, Hns.
           unfold part, rest.
           rewrite non_space_rstrip, non_space_lstrip, <- non_space_app.
           by rewrite <- Hsplit.
        -- intros Hs. rewrite Hsplit, is_ascii_app in Hs.
           apply andb_true_iff in Hs as [Hh Ht]. constructor.
           ++ by apply is_ascii_rstrip.
           ++ by apply Hascii, is_ascii_lstrip.
    + destruct s as [|c s].
      * exists []. cbn [chunk_loop Py.char_len].
        destruct (Nat.ltb_spec limit 0); [lia|]. cbn. by rewrite app_nil_r.
      * exists [String c s]. cbn [chunk_loop].
        destruct (Nat.ltb_spec limit (Py.char_len (String c s))) as [|_]; [lia|].
        cbn [Py.nonempty]. split; [done|]. split; [split|].
        -- constructor; [|done]. split; [cbn [String.length]; lia|].
           split; [done|].
           unfold Py.strip, Py.strip_by. by rewrite lstrip_headed.
        -- unfold glued. cbn [foldr]. by rewrite append_empty.
        -- intros Hs. by constructor.
Qed.

Lemma headed_rstrip s : headed s → headed (Py.rstrip_by Py.isspace s).
Proof.
  destruct s as [|c s]; [done|]. intros Hc.
  destruct (rstrip_head c s Hc) as (y & ->). exact Hc.
Qed.

Lemma is_ascii_strip s : Py.is_ascii s = true → Py.is_ascii (Py.strip s) = true.
Proof. intros Hs. by apply is_ascii_rstrip, is_ascii_lstrip. Qed.

Lemma chunk_total text limit :
  (1 <= limit)%nat →
  ∃ parts,
    _chunk text limit = Some parts
    ∧ chunks_text limit parts text
    ∧ (Py.is_ascii text = true →
       Forall (fun p => (1 <= String.length p <= limit)%nat) parts).
Proof.
  intros Hlimit. unfold _chunk.
  destruct (chunk_loop_spec limit Hlimit (String.length (Py.strip text))
              (Py.strip text) []) as (out & Hout & (Hall & Hns) & Hascii).
  - lia.
  - apply headed_rstrip, headed_lstrip.
  - apply tailed_rstrip.
  - exists out. split; [by rewrite Hout|]. split.
    + split; [done|]. by rewrite Hns, non_space_strip.
    + intros Htext. specialize (Hascii (is_ascii_strip _ Htext)).
      apply Forall_forall. intros p Hp.
      rewrite Forall_forall in Hall, Hascii.
      destruct (Hall p Hp) as (Hne & Hchars & _).
      pose proof (char_len_ascii p (Hascii p Hp)). lia.
Qed.

(** A stripped text that is not empty holds a character that is not
    whitespace. *)
Lemma stripped_non_space p :
  (1 <= String.length p)%nat → Py.strip p = p → Str.non_space p ≠ "".
Proof.
  destruct p as [|c y]; [cbn; lia|]. intros _ Hs.
  destruct (Py.isspace c) eqn:Hc.
  - exfalso. unfold Py.strip, Py.strip_by in Hs.
    pose proof (length_rstrip Py.isspace (Py.lstrip_by Py.isspace (String c y))) as H1.
    rewrite Hs in H1. cbn [Py.lstrip_by] in H1. rewrite Hc in H1.
    pose proof (length_lstrip Py.isspace y). cbn [String.length] in H1. lia.
  - cbn [Str.non_space]. by rewrite Hc.
Qed.

Lemma chunks_of_spec text :
  chunks_text CHUNK_LIMIT (chunks_of text) text
  ∧ (Py.is_ascii text = true →
     Forall (fun p => (1 <= String.length p <= CHUNK_LIMIT)%nat) (chunks_of text)).
Proof.
  destruct (chunk_total text CHUNK_LIMIT) as (parts & Hparts & Hspec & Hascii).
  - unfold CHUNK_LIMIT. lia.
  - unfold chunks_of. by rewrite Hparts.
Qed.

(** The fields of the chunks of a text: the chunks as values, in order,
    the first under the name and the others under its continuation. *)
Lemma chunk_fields_lookup name parts : ∀ i f,
  chunk_fields name parts !! i = Some f →
  parts !! i = Some (f_value f)
  ∧ f_name f = if (i =? 0)%nat then name else name ++ " (cont.)".
Proof.
  unfold chunk_fields. intros i f Hf.
  rewrite list_lookup_imap in Hf.
  destruct (parts !! i) as [p|]; [|done]. cbn in Hf. by injection Hf as <-.
Qed.

End chunk_facts.

(** X9.  [_chunk] with a limit of at least 1 returns (its loop ends):
    every part is not empty, has at most [limit] characters and no
    whitespace at either end, and the parts hold, in order, every
    character of the text that is not whitespace.  On a text of ASCII a
    part has between 1 and [limit] bytes. *)
Theorem chunk_parts_fit (text : string) (limit : nat) :
  (1 <= limit)%nat →
  ∃ parts,
    _chunk text limit = Some parts
    ∧ Forall (fun p => (1 <= String.length p)%nat
                       ∧ (Py.char_len p <= limit)%nat
                       ∧ Py.strip p = p) parts
    ∧ Str.non_space (glued parts) = Str.non_space text
    ∧ (Py.is_ascii text = true →
       Forall (fun p => (1 <= String.length p <= limit)%nat) parts).
Proof.
  intros Hlimit.
  destruct (chunk_total text limit Hlimit) as (parts & Hrun & [Hall Hns] & Hascii).
  by exists parts.
Qed.

Lemma chunk_parts_fit_witness :
  ∃ parts,
    _chunk two_lines 6 = Some parts
    ∧ Forall (fun p => (1 <= String.length p)%nat
                       ∧ (Py.char_len p <= 6)%nat
                       ∧ Py.strip p = p) parts
    ∧ Str.non_space (glued parts) = Str.non_space two_lines
    ∧ (Py.is_ascii two_lines = true →
       Forall (fun p => (1 <= String.length p <= 6)%nat) parts).
Proof. apply (chunk_parts_fit two_lines 6). lia. Defined.

(** X10.  The embed of an error: every field is named Error and holds a
    text that is not empty, of at most 1010 characters, and the fields
    hold, in order, every character of the error that is not whitespace;
    an error of whitespace alone gives an embed without any field.  On
    an error of ASCII a field holds between 1 and 1010 bytes. *)
Theorem error_embed_keeps_text (result : option ParlayResult) (e : string) :
  Py.nonempty e = true →
  ∃ fs,
    _result_embed_fields result (Some e) = Some fs
    ∧ Forall (fun f => f_name f = "Error"
                       ∧ (1 <= String.length (f_value f))%nat
                       ∧ (Py.char_len (f_value f) <= CHUNK_LIMIT)%nat) fs
    ∧ Str.non_space (glued (f_value <$> fs)) = Str.non_space e
    ∧ (fs = [] ↔ Str.non_space e = "")
    ∧ (Py.is_ascii e = true →
       Forall (fun f => (1 <= String.length (f_value f) <= CHUNK_LIMIT)%nat) fs).
Proof.
  intros He. exists (mkField "Error" <$> chunks_of e).
  destruct (chunks_of_spec e) as [[Hall Hns] Hascii].
  assert (Hvals : f_value <$> (mkField "Error" <$> chunks_of e) = chunks_of e).
  { rewrite <- list_fmap_compose. apply list_fmap_id. }
  split; [unfold _result_embed_fields; cbn; by rewrite He|].
  split; [|split; [|split]].
  - apply Forall_fmap. eapply Forall_impl; [exact Hall|].
    by intros p (Hne & Hchars & _).
  - by rewrite Hvals.
  - rewrite <- Hns. split.
    + intros Hnil. apply fmap_nil_inv in Hnil. by rewrite Hnil.
    + destruct (chunks_of e) as [|p ps]; [done|]. intros Hempty. exfalso.
      inversion Hall as [|? ? (Hlen & _ & Hstrip) _]; subst.
      apply (stripped_non_space p); [lia|done|].
      unfold glued in Hempty. cbn [foldr] in Hempty.
      rewrite non_space_app in Hempty.
      by destruct (Str.non_space p).
  - intros Htext. apply Forall_fmap. exact (Hascii Htext).
Qed.

Lemma error_embed_keeps_text_witness :
  ∃ fs,
    _result_embed_fields None (Some two_lines) = Some fs
    ∧ Forall (fun f => f_name f = "Error"
                       ∧ (1 <= String.length (f_value f))%nat
                       ∧ (Py.char_len (f_value f) <= CHUNK_LIMIT)%nat) fs
    ∧ Str.non_space (glued (f_value <$> fs)) = Str.non_space two_lines
    ∧ (fs = [] ↔ Str.non_space two_lines = "")
    ∧ (Py.is_ascii two_lines = true →
       Forall (fun f => (1 <= String.length (f_value f) <= CHUNK_LIMIT)%nat) fs).
Proof. apply (error_embed_keeps_text None two_lines). reflexivity. Defined.

(** X11.  The embed of a result, field by field and in this order: the
    fields of the legs (one per leg, or the single field that says no leg
    was returned); the chunks of the bulleted rationales, when the result
    has rationales; the chunks of the risks; the field of the sources.
    The chunks of a text are not empty, have at most 1010 characters and
    hold, in order, the characters of the text that are not whitespace;
    the first is under the name, the others under the name of the
    continuation. *)
Theorem result_embed_layout (r : ParlayResult) (err : option string) :
  err_set err = false →
  ∃ rat risk,
    _result_embed_fields (Some r) err
    = Some (leg_fields (parlay r)
            ++ chunk_fields "Rationale" rat
            ++ chunk_fields "Risks" risk
            ++ [mkField "Sources" (_sources_block (sources r) 10)])%list
    ∧ length (leg_fields (parlay r)) = Nat.max 1 (length (parlay r))
    ∧ match rationales r with
      | [] => rat = []
      | _ => chunks_text CHUNK_LIMIT rat (rationale_text (rationales r))
      end
    ∧ chunks_text CHUNK_LIMIT risk (risks r)
    ∧ ∀ name parts i f,
        chunk_fields name parts !! i = Some f →
        parts !! i = Some (f_value f)
        ∧ f_name f = if (i =? 0)%nat then name else name ++ " (cont.)".
Proof.
  intros Herr.
  exists (match rationales r with
          | [] => []
          | _ => chunks_of (rationale_text (rationales r))
          end), (chunks_of (risks r)).
  split; [|split; [|split; [|split]]].
  - unfold _result_embed_fields. rewrite Herr. cbn [fmap option_fmap option_map].
    unfold result_fields, rationale_fields, risks_fields. do 2 f_equal.
    f_equal; [by destruct (rationales r)|]. f_equal.
    destruct (risks r) as [|c k]; [|done]. reflexivity.
  - unfold leg_fields. destruct (parlay r) as [|l ls]; [done|].
    rewrite length_imap. cbn [length]. lia.
  - destruct (rationales r) as [|x xs]; [done|]. apply chunks_of_spec.
  - apply chunks_of_spec.
  - apply chunk_fields_lookup.
Qed.

Lemma result_embed_layout_witness :
  ∃ rat risk,
    _result_embed_fields (Some noted_result) None
    = Some (leg_fields (parlay noted_result)
            ++ chunk_fields "Rationale" rat
            ++ chunk_fields "Risks" risk
            ++ [mkField "Sources" (_sources_block (sources noted_result) 10)])%list
    ∧ length (leg_fields (parlay noted_result))
      = Nat.max 1 (length (parlay noted_result))
    ∧ match rationales noted_result with
      | [] => rat = []
      | _ => chunks_text CHUNK_LIMIT rat (rationale_text (rationales noted_result))
      end
    ∧ chunks_text CHUNK_LIMIT risk (risks noted_result)
    ∧ ∀ name parts i f,
        chunk_fields name parts !! i = Some f →
        parts !! i = Some (f_value f)
        ∧ f_name f = if (i =? 0)%nat then name else name ++ " (cont.)".
Proof. apply (result_embed_layout noted_result None). reflexivity. Defined.

(** ** Sources *)

Section sources_facts.

Lemma sources_lines_member urls : ∀ i k u,
  urls !! k = Some u → Py.nonempty u = true →
  source_line (i + k) u ∈ sources_lines i urls.
Proof.
  induction urls as [|v urls IH]; intros i k u Hk Hu; [done|].
  destruct k as [|k]; cbn in Hk.
  - injection Hk as ->. cbn [sources_lines]. rewrite Hu, Nat.add_0_r. left.
  - cbn [sources_lines]. replace (i + S k)%nat with (S i + k)%nat by lia.
    destruct (Py.nonempty v); [right|]; by apply IH.
Qed.

Lemma sources_lines_origin urls : ∀ i line,
  line ∈ sources_lines i urls →
  ∃ k u, urls !! k = Some u ∧ Py.nonempty u = true ∧ line = source_line (i + k) u.
Proof.
  induction urls as [|v urls IH]; intros i line Hin; [by apply elem_of_nil in Hin|].
  cbn [sources_lines] in Hin. destruct (Py.nonempty v) eqn:Hv.
  - apply elem_of_cons in Hin as [-> | Hin].
    + exists 0%nat, v. by rewrite Nat.add_0_r.
    + destruct (IH _ _ Hin) as (k & u & Hk & Hu & ->).
      exists (S k), u. split; [done|]. split; [done|]. f_equal. lia.
  - destruct (IH _ _ Hin) as (k & u & Hk & Hu & ->).
    exists (S k), u. split; [done|]. split; [done|]. f_equal. lia.
Qed.

Lemma sources_lines_length urls : ∀ i,
  (length (sources_lines i urls) <= length urls)%nat.
Proof.
  induction urls as [|v urls IH]; intros i; [done|]. cbn [sources_lines].
  destruct (Py.nonempty v); cbn [length]; specialize (IH (S i)); lia.
Qed.

Lemma sources_lines_none urls : ∀ i,
  Forall (fun u => u = "") urls → sources_lines i urls = [].
Proof.
  induction urls as [|v urls IH]; intros i Hall; [done|].
  inversion Hall; subst. cbn. by apply IH.
Qed.

End sources_facts.

(** X12.  The lines of [_sources_block]: at most [max_items] of them and
    none for a source past the first [max_items]; a source that is not
    empty has its line, numbered by its place in the list (an empty
    source before it is skipped and its number with it), and every line
    is such a one; the dash stands for no line at all. *)
Theorem sources_block_numbering (urls : list string) (max_items : nat) :
  (length (sources_lines 1 (take max_items urls)) <= Nat.min max_items (length urls))%nat
  ∧ (∀ k u, urls !! k = Some u → (k < max_items)%nat → Py.nonempty u = true →
            source_line (S k) u ∈ sources_lines 1 (take max_items urls))
  ∧ (∀ line, line ∈ sources_lines 1 (take max_items urls) →
             ∃ k u, (k < max_items)%nat ∧ urls !! k = Some u
                    ∧ Py.nonempty u = true ∧ line = source_line (S k) u)
  ∧ (Forall (fun u => u = "") (take max_items urls) →
     _sources_block urls max_items = "—").
Proof.
  split; [|split; [|split]].
  - pose proof (sources_lines_length (take max_items urls) 1) as Hlen.
    by rewrite length_take in Hlen.
  - intros k u Hk Hlt Hu.
    apply (sources_lines_member (take max_items urls) 1 k u); [|done].
    by rewrite lookup_take_lt.
  - intros line Hin.
    destruct (sources_lines_origin _ _ _ Hin) as (k & u & Hk & Hu & ->).
    exists k, u. apply lookup_take_Some in Hk as [Hk Hlt]. done.
  - intros Hall. unfold _sources_block. by rewrite sources_lines_none.
Qed.

(** ** The cache and the fetch *)

Section cache_facts.
Implicit Types (store : TTLStore) (key k : string) (now later exp : Q).

Lemma expired_false now exp : (now <= exp)%Q → expired now exp = false.
Proof.
  intros Hle. unfold expired. apply negb_false_iff. by apply Qle_bool_iff.
Qed.

Lemma expired_true now exp : (exp < now)%Q → expired now exp = true.
Proof.
  intros Hlt. unfold expired. apply negb_true_iff.
  destruct (Qle_bool now exp) eqn:Hb; [|done].
  apply Qle_bool_iff in Hb. exfalso. by apply (Qlt_not_le exp now).
Qed.

Lemma expired_spec now exp :
  (expired now exp = false ∧ (now <= exp)%Q) ∨ (expired now exp = true ∧ (exp < now)%Q).
Proof.
  destruct (Qlt_le_dec exp now) as [Hlt|Hle].
  - right. split; [by apply expired_true|done].
  - left. split; [by apply expired_false|done].
Qed.

(** The store after a lookup: the store, or the store without the key. *)
Lemma cache_get_store now key store :
  (cache_get now key store).2 = store
  ∨ ((cache_get now key store).2 = delete key store
     ∧ (cache_get now key store).1 = None).
Proof.
  unfold cache_get. destruct (store !! key) as [[exp val]|]; [|by left].
  destruct (expired now exp); [by right|by left].
Qed.

Lemma cache_get_hit now key store val :
  (cache_get now key store).1 = Some val →
  (cache_get now key store).2 = store
  ∧ ∃ exp, store !! key = Some (exp, val) ∧ (now <= exp)%Q.
Proof.
  unfold cache_get. destruct (store !! key) as [[exp v]|]; [|done].
  destruct (expired_spec now exp) as [[-> Hle]|[-> _]]; [|done].
  intros [= ->]. split; [done|]. by exists exp.
Qed.

Lemma cache_get_fresh now key store exp val :
  store !! key = Some (exp, val) → (now <= exp)%Q →
  cache_get now key store = (Some val, store).
Proof.
  intros Hkey Hle. unfold cache_get. by rewrite Hkey, expired_false.
Qed.

End cache_facts.

(** X13.  A value put in the cache is read back at every time up to its
    expiry, the store unchanged by the read; a read after the expiry
    gives nothing and removes the entry; the entries of the other keys
    are neither read differently nor changed. *)
Theorem cache_set_then_get (now now2 : Q) (key : string) (val : json) (ttl : Z)
    (store : TTLStore) :
  let store1 := cache_set now key val ttl store in
  ((now2 <= now + inject_Z ttl)%Q → cache_get now2 key store1 = (Some val, store1))
  ∧ ((now + inject_Z ttl < now2)%Q →
     cache_get now2 key store1 = (None, delete key store))
  ∧ (∀ k, k ≠ key →
          (cache_get now2 k store1).1 = (cache_get now2 k store).1
          ∧ (cache_get now2 k store1).2 !! key = Some ((now + inject_Z ttl)%Q, val)).
Proof.
  intros store1. unfold store1, cache_set. split; [|split].
  - intros Hle. apply (cache_get_fresh _ _ _ (now + inject_Z ttl)%Q);
      [by rewrite lookup_insert_eq|done].
  - intros Hlt. unfold cache_get. rewrite lookup_insert_eq.
    rewrite (expired_true _ _ Hlt). by rewrite delete_insert_eq.
  - intros k Hk. unfold cache_get. rewrite lookup_insert_ne by done.
    destruct (store !! k) as [[exp v]|]; cbn; [|by rewrite lookup_insert_eq].
    destruct (expired now2 exp); cbn; [|by rewrite lookup_insert_eq].
    rewrite lookup_delete_ne by done. by rewrite lookup_insert_eq.
Qed.

(** X14.  After [_get] has fetched a value that is not null, every
    [_get] under the same key up to the expiry returns that value from
    the cache: no request, no wait, the store unchanged, whatever the
    server would answer and whatever path and lifetime are passed. *)
Theorem get_serves_from_cache (server server2 : string -> http_reply)
    (now later now2 later2 : Q) (path path2 : string) (ttl ttl2 : Z)
    (key : string) (store store1 : TTLStore) (data : json)
    (effs : list fetch_effect) :
  _get server now later path ttl key store = (Data data, store1, effs) →
  effs ≠ [] → data ≠ JNull → (now2 <= later + inject_Z ttl)%Q →
  _get server2 now2 later2 path2 ttl2 key store1 = (Data data, store1, []).
Proof.
  intros Hget Heffs Hdata Hle. unfold _get in Hget.
  destruct (cache_get now key store) as [cached store0].
  assert (Hmiss :
    (let reply := server path in
     let waits := if reply_status reply =? 429 then [Wait 1] else [] in
     if 400 <=? reply_status reply
     then (ResponseError (reply_status reply), store0, Request path :: waits)
     else match reply_json reply with
          | None => (BodyError, store0, Request path :: waits)
          | Some data =>
              (Data data, cache_set later key data ttl store0, Request path :: waits)
          end) = (Data data, store1, effs) →
    store1 = cache_set later key data ttl store0).
  { cbn zeta. destruct (400 <=? _); [done|].
    destruct (reply_json (server path)); [|done]. by intros [= -> <- _]. }
  assert (Hstore : store1 = cache_set later key data ttl store0).
  { destruct cached as [[]|]; try (by apply Hmiss);
      injection Hget as _ _ <-; done. }
  subst store1. unfold _get.
  rewrite (cache_get_fresh now2 key _ (later + inject_Z ttl)%Q data);
    [|by unfold cache_set; rewrite lookup_insert_eq|done].
  by destruct data.
Qed.

Lemma get_serves_from_cache_witness :
  _get down_server (10 # 1) (11 # 1) "/v3/nba/scores/json/Teams" 30 "teams:nba"
       (cache_set 1 "teams:nba" (JStr "ok") 86400 ∅)
  = (Data (JStr "ok"), cache_set 1 "teams:nba" (JStr "ok") 86400 ∅, []).
Proof.
  apply (get_serves_from_cache ok_server down_server 0 1 (10 # 1) (11 # 1)
           "/v3/nba/scores/json/Teams" "/v3/nba/scores/json/Teams" 86400 30
           "teams:nba" ∅ _ (JStr "ok") [Request "/v3/nba/scores/json/Teams"]).
  - reflexivity.
  - discriminate.
  - discriminate.
  - vm_compute. discriminate.
Defined.

(** X15.  What [_get] does, by how it ends.  A value comes from the
    cache, without any request, only when it is not null and has not
    expired; otherwise one request is made, and never a second one.  A
    status from 400 on ends in the error of the response, after a wait of
    one second when it is 429; a wait therefore never precedes a value.
    An error stores nothing.  The entries of the other keys are never
    changed. *)
Theorem get_outcomes (server : string -> http_reply) (now later : Q)
    (path : string) (ttl : Z) (key : string) (store : TTLStore) :
  let '(res, store1, effs) := _get server now later path ttl key store in
  (∀ k, k ≠ key → store1 !! k = store !! k)
  ∧ match res with
    | Data d =>
        (effs = [] ∧ d ≠ JNull ∧ store1 = store
         ∧ ∃ exp, store !! key = Some (exp, d) ∧ (now <= exp)%Q)
        ∨ (effs = [Request path]
           ∧ reply_status (server path) < 400
           ∧ reply_json (server path) = Some d
           ∧ store1 !! key = Some ((later + inject_Z ttl)%Q, d))
    | ResponseError st =>
        st = reply_status (server path) ∧ 400 <= st
        ∧ effs = Request path :: (if st =? 429 then [Wait 1] else [])
        ∧ (store1 = store ∨ store1 = delete key store)
    | BodyError =>
        reply_status (server path) < 400
        ∧ effs = [Request path]
        ∧ (store1 = store ∨ store1 = delete key store)
    end.
Proof.
  unfold _get.
  pose proof (cache_get_store now key store) as Hstore.
  pose proof (cache_get_hit now key store) as Hhit.
  destruct (cache_get now key store) as [cached store0]. cbn [fst snd] in *.
  assert (Hframe : ∀ k, k ≠ key → store0 !! k = store !! k).
  { intros k Hk. destruct Hstore as [->|[-> _]]; [done|].
    by rewrite lookup_delete_ne. }
  assert (Hsub : store0 = store ∨ store0 = delete key store).
  { destruct Hstore as [->|[-> _]]; auto. }
  assert (Hmiss :
    let '(res, store1, effs) :=
      (let reply := server path in
       let waits := if reply_status reply =? 429 then [Wait 1] else [] in
       if 400 <=? reply_status reply
       then (ResponseError (reply_status reply), store0, Request path :: waits)
       else match reply_json reply with
            | None => (BodyError, store0, Request path :: waits)
            | Some data =>
                (Data data, cache_set later key data ttl store0,
                 Request path :: waits)
            end) in
    (∀ k, k ≠ key → store1 !! k = store !! k)
    ∧ match res with
      | Data d =>
          (effs = [] ∧ d ≠ JNull ∧ store1 = store
           ∧ ∃ exp, store !! key = Some (exp, d) ∧ (now <= exp)%Q)
          ∨ (effs = [Request path]
             ∧ reply_status (server path) < 400
             ∧ reply_json (server path) = Some d
             ∧ store1 !! key = Some ((later + inject_Z ttl)%Q, d))
      | ResponseError st =>
          st = reply_status (server path) ∧ 400 <= st
          ∧ effs = Request path :: (if st =? 429 then [Wait 1] else [])
          ∧ (store1 = store ∨ store1 = delete key store)
      | BodyError =>
          reply_status (server path) < 400
          ∧ effs = [Request path]
          ∧ (store1 = store ∨ store1 = delete key store)
      end).
  { cbn zeta. destruct (Z.leb_spec 400 (reply_status (server path))) as [Hge|Hlt].
    - done.
    - destruct (Z.eqb_spec (reply_status (server path)) 429) as [E|_]; [lia|].
      destruct (reply_json (server path)) as [d|] eqn:Hbody.
      + split.
        * intros k Hk. unfold cache_set. rewrite lookup_insert_ne by done.
          by apply Hframe.
        * right. unfold cache_set. by rewrite lookup_insert_eq.
      + done. }
  destruct cached as [d|]; [|exact Hmiss].
  destruct (Hhit d eq_refl) as [-> Hentry].
  destruct d; try exact Hmiss; (split; [done|]); left; done.
Qed.

(** ** Teams *)

Lemma find_ext_pred {A} (f g : A → bool) (l : list A) :
  (∀ x, f x = g x) → List.find f l = List.find g l.
Proof.
  intros Hfg. induction l as [|x l IH]; [done|]. cbn. by rewrite Hfg, IH.
Qed.

Lemma existsb_ext_pred {A} (f g : A → bool) (l : list A) :
  (∀ x, f x = g x) → existsb f l = existsb g l.
Proof.
  intros Hfg. induction l as [|x l IH]; [done|]. cbn. by rewrite Hfg, IH.
Qed.

Lemma has_sub_refl q : Str.has_sub q q = true.
Proof.
  assert (Hp : String.prefix q q = true).
  { induction q as [|c q IH]; [done|]. cbn. by destruct (ascii_dec c c). }
  destruct q; cbn [Str.has_sub]; by rewrite Hp.
Qed.

(** X16.  [match_team] on a query of whitespace alone: the empty text is
    held by every text, so the answer is the first team one of whose name
    fields is not empty, whatever the names are. *)
Theorem match_team_blank_query (H : Host) (teams : list (list (string * json)))
    (query : string) :
  Py.strip query = "" →
  match_team teams query
  = List.find
      (fun t =>
         existsb (fun k => Py.nonempty
                             (Py.lower (py_str (default (JStr "") (dict_get k t)))))
                 team_keys)
      teams.
Proof.
  intros Hq. unfold match_team. rewrite Hq. cbn [Py.lower Py.map_chars].
  apply find_ext_pred. intros t. unfold team_matches.
  apply existsb_ext_pred. intros k. cbn zeta.
  destruct (Py.lower _) as [|c v]; [done|]. cbn. done.
Qed.

Lemma match_team_blank_query_witness :
  match_team (H := example_host) two_teams "   "
  = List.find
      (fun t =>
         existsb (fun k => Py.nonempty
                             (Py.lower (py_str (H := example_host)
                                          (default (JStr "") (dict_get k t)))))
                 team_keys)
      two_teams.
Proof. apply (match_team_blank_query example_host two_teams "   "). reflexivity. Defined.

(** ** Validated results *)

Section canonical_facts.
Context `{Host}.

Lemma conf_ok_level v c : _conf_ok v = Some c → c ∈ confidence_levels.
Proof.
  unfold _conf_ok. case_bool_decide as Hin; [|done]. by intros [= <-].
Qed.

Lemma validate_leg_level j l : validate_leg j = Some l → confidence l ∈ confidence_levels.
Proof.
  destruct j as [| | | | | |kvs]; try done. cbn [validate_leg].
  destruct (dict_get "market" kvs ≫= as_str) as [m|]; [|done].
  destruct (dict_get "selection" kvs ≫= as_str) as [s|]; [|done].
  destruct (field_or [] as_str_list (dict_get "book_examples" kvs)) as [b|]; [|done].
  destruct ((dict_get "confidence" kvs ≫= as_str) ≫= _conf_ok) as [c|] eqn:Hc; [|done].
  cbn. intros [= <-]. cbn.
  destruct (dict_get "confidence" kvs ≫= as_str) as [v|]; [|done].
  by apply (conf_ok_level v).
Qed.

Lemma validate_legs_level items legs :
  mapM validate_leg items = Some legs →
  Forall (fun l => confidence l ∈ confidence_levels) legs.
Proof.
  intros Hm. apply mapM_Some in Hm.
  induction Hm as [|j l items legs Hj _ IH]; constructor; [|done].
  by apply (validate_leg_level j).
Qed.

Lemma model_validate_canonical data r : model_validate data = Some r → canonical r.
Proof.
  destruct data as [| | | | | |kvs]; try done. cbn [model_validate].
  destruct (field_or [] as_leg_list (dict_get "parlay" kvs)) as [p|] eqn:Hp; [|done].
  destruct (field_or [] as_str_list (dict_get "rationales" kvs)) as [rs|]; [|done].
  destruct (field_or "" as_str (dict_get "risks" kvs)) as [k|]; [|done].
  destruct (field_or [] as_str_list (dict_get "sources" kvs)) as [u|]; [|done].
  cbn. intros [= <-]. unfold canonical. cbn.
  unfold field_or in Hp. destruct (dict_get "parlay" kvs) as [v|].
  - destruct v; try done. by apply (validate_legs_level items).
  - injection Hp as <-. constructor.
Qed.

Lemma salvage_canonical data r : salvage data = Some r → canonical r.
Proof.
  destruct data as [| | | | | |kvs]; try done. cbn [salvage].
  destruct (py_iter (get_or "parlay" (JArr []) kvs)) as [legs|]; [|done]. cbn.
  destruct (mapM validate_leg (filter (fun leg => is_dict leg = true) legs))
    as [p|] eqn:Hp; [|done]. cbn.
  destruct (py_iter (get_or "rationales" (JArr []) kvs)) as [rs|]; [|done]. cbn.
  destruct (py_iter (get_or "sources" (JArr []) kvs)) as [u|]; [|done]. cbn.
  intros [= <-]. unfold canonical. cbn. by apply (validate_legs_level _ _ Hp).
Qed.

Lemma normalize_encoded r : normalize_missing (encode_result r) = encode_result r.
Proof. reflexivity. Qed.

End canonical_facts.

(** X17.  Every result [run_deep_research] returns, by strict validation
    or by the salvage path, has the confidence of each leg in one of the
    three levels as written (lowercase, no outer whitespace); stated as
    an object of the schema, it validates strictly to itself. *)
Theorem runner_results_are_canonical (H : Host) (client : client_t)
    (req : request) (r : ParlayResult) :
  (run_deep_research client req).1 = Some r →
  canonical r ∧ model_validate (normalize_missing (encode_result r)) = Some r.
Proof.
  intros Hrun. assert (Hc : canonical r).
  { revert Hrun. unfold run_deep_research.
    destruct (negb _); [done|].
    destruct (_call_deep_research client).1 as [resp|ex]; [|done].
    destruct (output_text resp) as [text|]; [|done].
    destruct (_extract_json_from_text text) as [data|]; [|done].
    cbn zeta. destruct (model_validate _) as [parsed|] eqn:Hv.
    - intros [= <-]. by apply (model_validate_canonical _ _ Hv).
    - destruct (salvage _) as [rough|] eqn:Hs; [|done].
      intros [= <-]. by apply (salvage_canonical _ _ Hs). }
  split; [done|]. by apply model_validate_encoded.
Qed.

Lemma runner_results_are_canonical_witness :
  canonical plain_result
  ∧ model_validate (normalize_missing (encode_result plain_result)) = Some plain_result.
Proof.
  apply (runner_results_are_canonical example_host (replying plain_text) a_request).
  vm_compute. reflexivity.
Defined.

(** ** Extraction from a wrapped reply *)

Section extraction_facts.

Lemma regroup p a inner c q :
  ((p ++ String a inner) ++ String c "") ++ q = p ++ String a (inner ++ String c q).
Proof. rewrite !append_assoc. reflexivity. Qed.

Lemma contains_app c a b :
  Py.contains c (a ++ b) = Py.contains c a || Py.contains c b.
Proof.
  induction a as [|x a IH]; [done|]. rewrite append_cons. cbn [Py.contains].
  by rewrite IH, orb_assoc.
Qed.

Lemma contains_lstrip c s :
  Py.contains c s = false → Py.contains c (Py.lstrip_by Py.isspace s) = false.
Proof.
  induction s as [|a s IH]; [done|]. intros Hc. cbn [Py.lstrip_by].
  destruct (Py.isspace a); [|done]. cbn [Py.contains] in Hc.
  apply orb_false_iff in Hc as [_ Hc]. by apply IH.
Qed.

Lemma contains_rstrip c s :
  Py.contains c s = false → Py.contains c (Py.rstrip_by Py.isspace s) = false.
Proof.
  induction s as [|a s IH]; [done|]. cbn [Py.contains].
  intros [Ha Hs]%orb_false_iff. specialize (IH Hs). cbn [Py.rstrip_by].
  destruct (Py.rstrip_by Py.isspace s) as [|d r].
  - destruct (Py.isspace a); [done|]. cbn. by rewrite Ha.
  - cbn [Py.contains] in *. by rewrite Ha, IH.
Qed.

Lemma find_app c p r :
  Py.contains c p = false → Py.find c (p ++ String c r) = Z.of_nat (String.length p).
Proof.
  induction p as [|a p IH].
  - intros _. change ("" ++ String c r) with (String c r).
    cbn [Py.find String.length]. by rewrite Ascii.eqb_refl.
  - cbn [Py.contains]. intros [Ha Hp]%orb_false_iff.
    rewrite append_cons. cbn [Py.find String.length]. rewrite Ha, (IH Hp).
    destruct (Z.eqb_spec (Z.of_nat (String.length p)) (-1)); lia.
Qed.

Lemma rfind_none c y : Py.contains c y = false → Py.rfind c y = -1.
Proof.
  induction y as [|a y IH]; [done|]. cbn [Py.contains].
  intros [Ha Hy]%orb_false_iff. cbn [Py.rfind]. by rewrite (IH Hy), Ha.
Qed.

Lemma rfind_app c x y :
  Py.contains c y = false →
  Py.rfind c (x ++ String c y) = Z.of_nat (String.length x).
Proof.
  intros Hy. induction x as [|a x IH].
  - change ("" ++ String c y) with (String c y).
    cbn [Py.rfind String.length]. rewrite (rfind_none c y Hy), Ascii.eqb_refl.
    reflexivity.
  - rewrite append_cons. cbn [Py.rfind String.length]. rewrite IH.
    destruct (Z.eqb_spec (Z.of_nat (String.length x)) (-1)); lia.
Qed.

Lemma substring_prefix b c : substring 0 (String.length b) (b ++ c) = b.
Proof.
  induction b as [|x b IH]; [by destruct c|].
  rewrite append_cons. cbn. by rewrite IH.
Qed.

Lemma substring_mid a b c :
  substring (String.length a) (String.length b) (a ++ b ++ c) = b.
Proof.
  induction a as [|x a IH]; [exact (substring_prefix b c)|].
  rewrite append_cons. cbn. exact IH.
Qed.

Lemma lstrip_app p c r :
  Py.isspace c = false →
  Py.lstrip_by Py.isspace (p ++ String c r) = Py.lstrip_by Py.isspace p ++ String c r.
Proof.
  intros Hc. induction p as [|a p IH].
  - change ("" ++ String c r) with (String c r). cbn [Py.lstrip_by]. by rewrite Hc.
  - rewrite append_cons. cbn [Py.lstrip_by]. by destruct (Py.isspace a).
Qed.

Lemma rstrip_app x y :
  Py.rstrip_by Py.isspace (x ++ y)
  = match Py.rstrip_by Py.isspace y with
    | EmptyString => Py.rstrip_by Py.isspace x
    | r => x ++ r
    end.
Proof.
  induction x as [|c x IH].
  { change ("" ++ y) with y. by destruct (Py.rstrip_by Py.isspace y). }
  rewrite append_cons. cbn [Py.rstrip_by]. rewrite IH.
  destruct (Py.rstrip_by Py.isspace y) as [|d r]; [done|].
  rewrite append_cons. by destruct x.
Qed.

Lemma tailed_app x y : y ≠ "" → tailed y → tailed (x ++ y).
Proof.
  unfold tailed. intros Hy Ht. rewrite rstrip_app, Ht. by destruct y.
Qed.

Lemma rstrip_after_closer x q :
  Py.rstrip_by Py.isspace ((x ++ String "}" "") ++ q)
  = (x ++ String "}" "") ++ Py.rstrip_by Py.isspace q.
Proof.
  rewrite rstrip_app. destruct (Py.rstrip_by Py.isspace q) as [|d r]; [|done].
  rewrite rstrip_by_snoc by done. by rewrite append_empty.
Qed.

(** The object between prose that has no brace of its own side. *)
Lemma isolate_in_prose p inner q :
  Py.contains "{" p = false → Py.contains "}" q = false →
  isolate (p ++ String "{" (inner ++ String "}" q))
  = String "{" (inner ++ String "}" "").
Proof.
  intros Hp Hq.
  set (t := p ++ String "{" (inner ++ String "}" q)).
  assert (Hfind : Py.find "{" t = Z.of_nat (String.length p))
    by apply (find_app "{" p _ Hp).
  assert (Hrfind : Py.rfind "}" t
                   = Z.of_nat (String.length p + S (String.length inner))).
  { replace t with ((p ++ String "{" inner) ++ String "}" q)
      by (unfold t; rewrite append_assoc; reflexivity).
    rewrite (rfind_app "}" _ q Hq), string_length_app. done. }
  assert (Hmid : t = p ++ String "{" (inner ++ String "}" "") ++ q).
  { unfold t. rewrite append_cons, append_assoc. reflexivity. }
  unfold isolate. fold t. rewrite Hfind, Hrfind.
  destruct (Z.eqb_spec (Z.of_nat (String.length p)) (-1)) as [|_]; [lia|].
  destruct (Z.eqb_spec (Z.of_nat (String.length p + S (String.length inner))) (-1))
    as [|_]; [lia|].
  destruct (Z.ltb_spec (Z.of_nat (String.length p))
              (Z.of_nat (String.length p + S (String.length inner)))) as [_|]; [|lia].
  cbn [negb andb]. unfold Py.slice.
  replace (Z.to_nat (Z.of_nat (String.length p))) with (String.length p) by lia.
  replace (Z.to_nat (Z.of_nat (String.length p + S (String.length inner)) + 1
                     - Z.of_nat (String.length p)))
    with (String.length (String "{" (inner ++ String "}" ""))).
  - rewrite Hmid. apply substring_mid.
  - cbn [String.length]. rewrite length_snoc. lia.
Qed.

Lemma json_candidate_braced inner :
  Py.contains "`" inner = false →
  json_candidate ("{" ++ inner ++ "}") = repair ("{" ++ inner ++ "}").
Proof.
  intros Hin. unfold json_candidate. rewrite strip_braced.
  rewrite fence_search_no_backtick.
  - by rewrite isolate_braced, strip_braced.
  - rewrite braced_eq. cbn [Py.contains]. rewrite contains_app, Hin. done.
Qed.

Lemma json_candidate_in_prose p inner q :
  Py.contains "{" p = false → Py.contains "}" q = false →
  Py.contains "`" p = false → Py.contains "`" inner = false →
  Py.contains "`" q = false →
  json_candidate (p ++ String "{" (inner ++ String "}" q))
  = repair ("{" ++ inner ++ "}").
Proof.
  intros Hp Hq Hbp Hbi Hbq. unfold json_candidate.
  assert (Hstrip : Py.strip (p ++ String "{" (inner ++ String "}" q))
                   = Py.lstrip_by Py.isspace p
                     ++ String "{" (inner ++ String "}" (Py.rstrip_by Py.isspace q))).
  { unfold Py.strip, Py.strip_by. rewrite lstrip_app by done.
    set (p' := Py.lstrip_by Py.isspace p).
    rewrite <- (regroup p' "{" inner "}" q), rstrip_after_closer.
    apply regroup. }
  rewrite Hstrip. rewrite fence_search_no_backtick.
  - rewrite isolate_in_prose.
    + by rewrite <- braced_eq, strip_braced.
    + clear -Hp. induction p as [|a p IH]; [done|]. cbn [Py.contains] in Hp.
      apply orb_false_iff in Hp as [Ha Hp]. cbn [Py.lstrip_by].
      destruct (Py.isspace a); [by apply IH|]. cbn [Py.contains]. by rewrite Ha, Hp.
    + by apply contains_rstrip.
  - rewrite contains_app, (contains_lstrip _ _ Hbp). cbn [Py.contains orb].
    rewrite contains_app, Hbi. cbn [Py.contains orb].
    by apply contains_rstrip.
Qed.

Lemma closes_false x t :
  Py.contains "`" x = false → Re.closes (x ++ String "}" t) = false.
Proof.
  unfold Re.closes. induction x as [|d x IH]; [done|].
  cbn [Py.contains]. intros [Hd Hx]%orb_false_iff.
  rewrite append_cons. cbn [Py.lstrip_by].
  destruct (Py.isspace d); [by apply IH|].
  unfold Py.startswith, Re.fence. cbn [String.prefix].
  destruct (ascii_dec "`" d) as [<-|_]; [discriminate Hd|done].
Qed.

Lemma lazy_group_closed x t :
  Py.contains "`" x = false → Re.closes t = true →
  Re.lazy_group (x ++ String "}" t) = Some (x ++ String "}" "").
Proof.
  intros Hx Ht. induction x as [|a x IH].
  - change ("" ++ String "}" t) with (String "}" t). cbn [Re.lazy_group].
    by rewrite Ht.
  - cbn [Py.contains] in Hx. apply orb_false_iff in Hx as [Ha Hx].
    rewrite !append_cons. cbn [Re.lazy_group].
    rewrite (closes_false x t Hx), (IH Hx). done.
Qed.

Lemma fence_search_here c r g :
  Py.startswith Re.fence (String c r) = true →
  Re.after_fence (Re.drop 3 (String c r)) = Some g →
  Re.fence_search (String c r) = Some g.
Proof. intros Hs Hg. cbn [Re.fence_search]. by rewrite Hs, Hg. Qed.

Lemma fence_search_fenced tag inner :
  Py.contains "`" inner = false →
  Re.fence_search (fenced tag ("{" ++ inner ++ "}")) = Some ("{" ++ inner ++ "}").
Proof.
  intros Hin. rewrite braced_eq.
  set (body_then := String "{" (inner ++ String "}" (String newline Re.fence))).
  assert (Hgroup : Re.ws_then_group (String newline body_then)
                   = Some (String "{" (inner ++ String "}" ""))).
  { assert (Hlazy : Re.lazy_group body_then = Some (String "{" (inner ++ String "}" ""))).
    { apply (lazy_group_closed (String "{" inner)); [|reflexivity].
      cbn [Py.contains]. by rewrite Hin. }
    change (Re.ws_then_group (String newline body_then))
      with (match Re.ws_then_group body_then with
            | Some g => Some g
            | None => Re.lazy_group (String newline body_then)
            end).
    change (Re.ws_then_group body_then) with (Re.lazy_group body_then).
    by rewrite Hlazy. }
  assert (Hbody : String "{" (inner ++ String "}" "") ++ String newline Re.fence
                  = body_then).
  { unfold body_then. rewrite append_cons, append_assoc. reflexivity. }
  unfold fenced. rewrite Hbody.
  destruct tag.
  - change (Re.fence ++ "json" ++ String newline body_then)
      with (String "`" (String "`" (String "`"
              (String "j" (String "s" (String "o" (String "n"
                 (String newline body_then)))))))).
    apply fence_search_here; [reflexivity|].
    rewrite !drop_S, drop_0. unfold Re.after_fence.
    change (Py.lower (substring 0 4 _)) with "json".
    rewrite String.eqb_refl, !drop_S, drop_0. by rewrite Hgroup.
  - change (Re.fence ++ "" ++ String newline body_then)
      with (String "`" (String "`" (String "`" (String newline body_then)))).
    apply fence_search_here; [reflexivity|].
    rewrite !drop_S, drop_0. unfold Re.after_fence.
    change (Py.lower (substring 0 4 (String newline body_then)) =? "json")%string
      with false.
    by rewrite Hgroup.
Qed.

Lemma strip_fenced tag body : Py.strip (fenced tag body) = fenced tag body.
Proof.
  unfold Py.strip, Py.strip_by.
  assert (Hl : Py.lstrip_by Py.isspace (fenced tag body) = fenced tag body)
    by reflexivity.
  rewrite Hl. unfold fenced.
  apply tailed_app; [by destruct tag|].
  apply tailed_app; [done|].
  change (String newline (body ++ String newline Re.fence))
    with (String newline "" ++ (body ++ String newline Re.fence)).
  apply tailed_app; [by destruct body|].
  apply tailed_app; [done|]. reflexivity.
Qed.

Lemma json_candidate_fenced tag inner :
  Py.contains "`" inner = false →
  json_candidate (fenced tag ("{" ++ inner ++ "}")) = repair ("{" ++ inner ++ "}").
Proof.
  intros Hin. unfold json_candidate.
  rewrite strip_fenced, (fence_search_fenced tag inner Hin).
  by rewrite strip_braced, isolate_braced, strip_braced.
Qed.

End extraction_facts.

(** X18.  A reply wrapped in a code fence, with the tag json or without
    it, is read exactly as the object inside it: the same value, or the
    same failure, for every [json.loads]. *)
Theorem fenced_reply_reads_as_bare (H : Host) (tag : bool) (inner : string) :
  Py.contains "`" inner = false →
  _extract_json_from_text (fenced tag ("{" ++ inner ++ "}"))
  = _extract_json_from_text ("{" ++ inner ++ "}").
Proof.
  intros Hin. unfold _extract_json_from_text.
  by rewrite (json_candidate_fenced tag inner Hin), (json_candidate_braced inner Hin).
Qed.

Lemma fenced_reply_reads_as_bare_witness :
  _extract_json_from_text (H := example_host)
    (fenced true ("{" ++ dq "$parlay$:[],$risks$:$none$" ++ "}"))
  = _extract_json_from_text (H := example_host)
      ("{" ++ dq "$parlay$:[],$risks$:$none$" ++ "}").
Proof.
  apply (fenced_reply_reads_as_bare example_host true
           (dq "$parlay$:[],$risks$:$none$")).
  reflexivity.
Defined.

(** X19.  Prose around the object is discarded: when the text before
    the object has no opening brace, the text after it no closing brace,
    and there is no backtick anywhere, the reply is read exactly as the
    object alone. *)
Theorem prose_around_object_is_dropped (H : Host) (p inner q : string) :
  Py.contains "{" p = false → Py.contains "}" q = false →
  Py.contains "`" p = false → Py.contains "`" inner = false →
  Py.contains "`" q = false →
  _extract_json_from_text (p ++ "{" ++ inner ++ "}" ++ q)
  = _extract_json_from_text ("{" ++ inner ++ "}").
Proof.
  intros Hp Hq Hbp Hbi Hbq. unfold _extract_json_from_text.
  change (p ++ "{" ++ inner ++ "}" ++ q)
    with (p ++ String "{" (inner ++ String "}" q)).
  by rewrite (json_candidate_in_prose p inner q Hp Hq Hbp Hbi Hbq),
             (json_candidate_braced inner Hbi).
Qed.

Lemma prose_around_object_is_dropped_witness :
  _extract_json_from_text (H := example_host)
    ("Here is the parlay: " ++ "{" ++ dq "$parlay$:[],$risks$:$none$" ++ "}"
     ++ " Good luck!")
  = _extract_json_from_text (H := example_host)
      ("{" ++ dq "$parlay$:[],$risks$:$none$" ++ "}").
Proof.
  apply (prose_around_object_is_dropped example_host "Here is the parlay: "
           (dq "$parlay$:[],$risks$:$none$") " Good luck!"); reflexivity.
Defined.

(** ** The command as a whole *)

Section command_facts.
Context `{Host}.

Lemma frames_app evs1 evs2 : frames (evs1 ++ evs2) = (frames evs1 ++ frames evs2)%list.
Proof. unfold frames. apply omap_app. Qed.

Lemma results_sent_app evs1 evs2 :
  results_sent (evs1 ++ evs2) = (results_sent evs1 ++ results_sent evs2)%list.
Proof. unfold results_sent. apply omap_app. Qed.

Lemma heartbeat_list_frames job_id (elapsed : nat → Z) idx (l : list nat) :
  let evs := (fun k => ShowStatus (_status_embed job_id "Running" (elapsed (S k))
                                     (idx + S k)%nat)) <$> l in
  frames evs = (fun k => ((idx + S k) mod 12)%nat) <$> l
  ∧ results_sent evs = [].
Proof.
  induction l as [|k l [IH1 IH2]]; intros evs; [done|].
  unfold evs, frames, results_sent in *. rewrite !fmap_cons.
  cbn [omap list_omap se_spin _status_embed].
  change (in_progress "Running") with true. cbn iota.
  by rewrite IH1, IH2.
Qed.

Lemma opening_frames w :
  frames (opening_of w) = (fun k => (k mod 12)%nat) <$> seq 0 (2 + w_heartbeats w)
  ∧ results_sent (opening_of w) = [].
Proof.
  destruct (heartbeat_list_frames (w_uuid w) (w_elapsed w) 1 (seq 0 (w_heartbeats w)))
    as [Hf Hr].
  unfold opening_of, heartbeat_events.
  rewrite frames_app, results_sent_app, Hf, Hr. split; [|done].
  change (2 + w_heartbeats w)%nat with (S (S (w_heartbeats w))).
  cbn [seq fmap list_fmap]. rewrite <- (fmap_add_seq 2 0), <- list_fmap_compose.
  reflexivity.
Qed.

(** The four ways the command ends. *)
Lemma parlay_cases w author c db :
  let uid := member_id author in
  let today := _today_et_str (w_now w) in
  let j := w_uuid w in
  let n := w_heartbeats w in
  Parlay.parlay w author c db = (db, [SendMessage access_denied])
  ∨ Parlay.parlay w author c db = (db, [SendMessage limit_reached])
  ∨ Parlay.parlay w author c db
    = (<[j := mkRow uid today failed]> db,
       (opening_of w ++
        [CancelWorker;
         ShowStatus (_status_embed j "Failed" JOB_TIMEOUT_SECONDS (1 + n));
         SendResult (ErrorEmbed timeout_message);
         CancelHeartbeat])%list)
  ∨ ∃ st tail,
      Parlay.parlay w author c db
      = (<[j := mkRow uid today st]> db,
         (opening_of w ++
          [CancelHeartbeat;
           ShowStatus (_status_embed j "Processing" (w_elapsed w (S n)) (S (1 + n)))]
          ++ tail)%list)
      ∧ frames tail = [].
Proof.
  intros uid today j n. unfold Parlay.parlay.
  destruct (negb _); [by left|]. right.
  unfold _remaining_today. cbn [fst snd].
  destruct (_ <=? 0); [by left|]. right.
  fold (opening_of w). fold (request_of w c).
  destruct (w_in_time w); cbn [negb].
  - right.
    destruct (run_deep_research (w_client w) (request_of w c)) as [result err].
    rewrite reserve_then_finalize.
    destruct (_result_embed result err) as [emb|].
    + exists (if err_set err then failed else success).
      destruct (c_deliver c); eexists; (split; [reflexivity|]);
        by destruct (err_set err).
    + exists (if err_set err then failed else success), [AssertionError].
      by split.
  - left. by rewrite reserve_then_finalize.
Qed.

End command_facts.

(** X20.  Whatever the command does, it leaves the row of every other
    job as it was; and when the job id it drew is new to the ledger, the
    number of successes of every other user, and of every other day, is
    what it was. *)
Theorem parlay_leaves_other_rows (H : Host) (w : world) (author : member)
    (c : command) (db : Ledger) :
  let db' := (Parlay.parlay w author c db).1 in
  (∀ j, j ≠ w_uuid w → db' !! j = db !! j)
  ∧ (db !! w_uuid w = None →
     ∀ uid day, uid ≠ member_id author ∨ day ≠ _today_et_str (w_now w) →
                _count_success_today uid day db' = _count_success_today uid day db).
Proof.
  intros db'. unfold db'.
  destruct (parlay_cases w author c db) as [-> | [-> | [-> | (st & tail & -> & _)]]];
    cbn [fst]; split; try done;
    try (intros j Hj; by rewrite lookup_insert_ne);
    intros Hnew uid day Hother; apply count_insert_other;
    try (intros r Hr; by rewrite Hnew in Hr);
    unfold counted; cbn; intros (Hu & Hd & _); by destruct Hother.
Qed.

(** X21.  The spinner frames of the statuses the command shows start at
    the first frame and advance by one, around the twelve frames, with
    every status shown while the job is in progress; there are at most
    three more of them than heartbeats. *)
Theorem parlay_frames_advance (H : Host) (w : world) (author : member)
    (c : command) (db : Ledger) :
  ∃ m, (m <= w_heartbeats w + 3)%nat
       ∧ frames (Parlay.parlay w author c db).2
         = (fun k => (k mod 12)%nat) <$> seq 0 m.
Proof.
  destruct (opening_frames w) as [Hopen _].
  destruct (parlay_cases w author c db) as [-> | [-> | [-> | (st & tail & -> & Ht)]]];
    cbn [snd].
  - exists 0%nat. split; [lia|done].
  - exists 0%nat. split; [lia|done].
  - exists (2 + w_heartbeats w)%nat. split; [lia|].
    rewrite frames_app, Hopen. apply app_nil_r.
  - exists (S (2 + w_heartbeats w))%nat. split; [lia|].
    rewrite !frames_app, Hopen, Ht, app_nil_r.
    rewrite seq_S, fmap_app. reflexivity.
Qed.

(** X22.  A run that is admitted and resolves in time under a job id new
    to the ledger lowers what remains of the caller's quota by exactly one
    when the worker returns a result, and leaves it as it was when the
    worker returns an error. *)
Theorem parlay_success_consumes_one (H : Host) (w : world) (author : member)
    (c : command) (db : Ledger) :
  administrator author || existsb (Z.eqb PREMIUM_ROLE_ID) (role_ids author) = true →
  0 < (_remaining_today (_today_et_str (w_now w)) (member_id author) db).1 →
  w_in_time w = true →
  db !! w_uuid w = None →
  let err := (run_deep_research (w_client w) (request_of w c)).2 in
  (_remaining_today (_today_et_str (w_now w)) (member_id author)
     (Parlay.parlay w author c db).1).1
  = (_remaining_today (_today_et_str (w_now w)) (member_id author) db).1
    - (if err_set err then 0 else 1).
Proof.
  intros Hauth Hrem Hres Hnew err.
  destruct (parlay_resolved w author c db Hauth Hrem Hres) as (-> & _).
  fold err. unfold _remaining_today in *. cbn [fst] in *.
  destruct (err_set err).
  - rewrite count_insert_uncounted; [lia|done|].
    intros r Hr. by rewrite Hnew in Hr.
  - rewrite count_insert_counted; [lia|].
    intros r Hr. by rewrite Hnew in Hr.
Qed.

Lemma parlay_success_consumes_one_witness :
  (_remaining_today "2025-01-15" 7
     (Parlay.parlay (H := example_host) resolving_world an_admin a_command
        ledger_two_wins).1).1
  = 1 - 1.
Proof.
  apply (parlay_success_consumes_one example_host resolving_world an_admin
           a_command ledger_two_wins); reflexivity.
Defined.

(** With every send going through, the command with sends is
    [Parlay.parlay]. *)
Lemma parlay_all_ok (H : Host) (w : world) (author : member) (c : command)
    (db : Ledger) :
  parlay_with_sends all_ok w author c db = Parlay.parlay w author c db.
Proof.
  unfold parlay_with_sends, Parlay.parlay.
  destruct (negb _); [done|].
  destruct (_remaining_today _ _ _) as [remaining today].
  destruct (remaining <=? 0); [done|]. cbn [defer_ok first_ok all_ok negb].
  destruct (negb (w_in_time w)).
  - by destruct (c_deliver c).
  - destruct (run_deep_research _ _) as [result err].
    destruct (_result_embed result err); [|done].
    by destruct (c_deliver c).
Qed.

(** X23.  A run that is admitted and resolves in time, whose two sends
    outside any [try] go through.  Whatever becomes of its other sends,
    the statuses it sends are, in order, Waiting twice, Running once per
    heartbeat, Processing, and then Complete or Failed as the worker
    returned a result or an error; its last step is [deliver_final] on
    the embed of the worker's answer, and that embed reaches the caller
    at most once: in DM mode when the DM goes through, or else when the
    edit of the status and the post that follows both go through; in
    channel mode when the post goes through.  It is sent at most twice,
    and a second time only after a DM that failed.  With every send
    going through the command is [Parlay.parlay]. *)
Theorem resolved_run_order (H : Host) (o : sends) (w : world) (author : member)
    (c : command) (db : Ledger) :
  administrator author || existsb (Z.eqb PREMIUM_ROLE_ID) (role_ids author) = true →
  0 < (_remaining_today (_today_et_str (w_now w)) (member_id author) db).1 →
  w_in_time w = true →
  defer_ok o = true →
  first_ok o = true →
  let run := run_deep_research (w_client w) (request_of w c) in
  let evs := (parlay_with_sends o w author c db).2 in
  statuses evs
  = ("Waiting" :: "Waiting" :: replicate (w_heartbeats w) "Running"
     ++ ["Processing"; if err_set run.2 then "Failed" else "Complete"])%list
  ∧ (∃ emb done,
       _result_embed run.1 run.2 = Some emb
       ∧ evs = (opening_of w
                ++ [CancelHeartbeat;
                    ShowStatus (_status_embed (w_uuid w) "Processing"
                                  (w_elapsed w (S (w_heartbeats w)))
                                  (S (1 + w_heartbeats w)))]
                ++ (attempt_event <$> deliver_final (c_deliver c) o emb done))%list
       ∧ (reached (deliver_final (c_deliver c) o emb done) = [emb]
          ∨ reached (deliver_final (c_deliver c) o emb done) = [])
       ∧ (reached (deliver_final (c_deliver c) o emb done) = [emb]
          ↔ match c_deliver c with
            | dm => dm_ok o || (edit_ok o && post_ok o) = true
            | channel => post_ok o = true
            end)
       ∧ (tried (deliver_final (c_deliver c) o emb done) = [emb]
          ∨ (tried (deliver_final (c_deliver c) o emb done) = [emb; emb]
             ∧ c_deliver c = dm ∧ dm_ok o = false)))
  ∧ parlay_with_sends all_ok w author c db = Parlay.parlay w author c db.
Proof.
  intros Hauth Hrem Hres Hdefer Hfirst run evs.
  destruct o as [dfr frs dmk edk pok nok].
  cbn [defer_ok first_ok dm_ok edit_ok post_ok] in *.
  split; [|split; [|apply parlay_all_ok]]; unfold evs, run; clear evs run;
    unfold parlay_with_sends; rewrite Hauth;
    unfold _remaining_today in *; cbn [fst negb] in *;
    (destruct (Z.leb_spec (Z.max 0 (DAILY_MAX_PARLAYS
                - _count_success_today (member_id author)
                    (_today_et_str (w_now w)) db)) 0) as [Hle|_]; [lia|]);
    cbn [defer_ok first_ok]; rewrite Hdefer, Hfirst, Hres; cbn [negb];
    fold (request_of w c); fold (opening_of w);
    pose proof (run_result_shape H (w_client w) (request_of w c)) as Hshape;
    destruct (opening_statuses w) as (Hst & _);
    (destruct (run_deep_research (w_client w) (request_of w c)) as [[r|] [e|]];
      try done); cbn [fst snd err_set _result_embed fmap option_fmap option_map];
    try rewrite Hshape; cbn [snd].
  - rewrite !statuses_app, Hst.
    destruct (c_deliver c), dmk, edk, pok; reflexivity.
  - rewrite !statuses_app, Hst.
    destruct (c_deliver c), dmk, edk, pok; reflexivity.
  - eexists _, _. split; [reflexivity|]. split; [reflexivity|].
    destruct (c_deliver c), dmk, edk, pok; cbn;
      (split; [auto|]); (split; [by split|]); auto.
  - eexists _, _. split; [reflexivity|]. split; [reflexivity|].
    destruct (c_deliver c), dmk, edk, pok; cbn;
      (split; [auto|]); (split; [by split|]); auto.
Qed.

Lemma resolved_run_order_witness :
  statuses (parlay_with_sends (H := example_host)
              (mkSends true true false true true true) resolving_world an_admin
              (mkCommand "nba" 3 "main card" None None None dm)
              ledger_two_wins).2
  = ["Waiting"; "Waiting"; "Running"; "Processing"; "Complete"].
Proof.
  refine (proj1 (resolved_run_order example_host
                   (mkSends true true false true true true) resolving_world
                   an_admin (mkCommand "nba" 3 "main card" None None None dm)
                   ledger_two_wins _ _ _ _ _)); reflexivity.
Defined.

(** ** The methods that fetch *)

Section fetch_facts.
Variable server : string → http_reply.
Variable clock : nat → Q * Q.

Lemma count_requests_app a b :
  count_requests (a ++ b) = (count_requests a + count_requests b)%nat.
Proof.
  induction a as [|[p|s] a IH]; [done| |]; cbn [app count_requests]; by rewrite ?IH.
Qed.

Lemma get_effects_bound now later path ttl key store :
  (count_requests (_get server now later path ttl key store).2 <= 1)%nat.
Proof.
  unfold _get. destruct (cache_get now key store) as [cached store0].
  assert (Hmiss : ∀ out : fetched * TTLStore * list fetch_effect,
    out = (let reply := server path in
           let waits := if reply_status reply =? 429 then [Wait 1] else [] in
           if 400 <=? reply_status reply
           then (ResponseError (reply_status reply), store0, Request path :: waits)
           else match reply_json reply with
                | None => (BodyError, store0, Request path :: waits)
                | Some data =>
                    (Data data, cache_set later key data ttl store0,
                     Request path :: waits)
                end) →
    (count_requests out.2 <= 1)%nat).
  { intros out ->. cbn zeta.
    destruct (400 <=? _); [|destruct (reply_json _)];
      destruct (_ =? 429); cbn; lia. }
  destruct cached as [[]|]; try (by apply Hmiss); cbn; lia.
Qed.

(** One call: the counter goes up by one, the log grows by at most one
    request. *)
Lemma get_in_bound path ttl key store log k :
  ∃ res store' effs,
    get_in server clock path ttl key (store, log, k)
    = (res, (store', (log ++ effs)%list, S k))
    ∧ (count_requests effs <= 1)%nat.
Proof.
  unfold get_in.
  pose proof (get_effects_bound (clock k).1 (clock k).2 path ttl key store) as Hb.
  destruct (_get server (clock k).1 (clock k).2 path ttl key store)
    as [[res store'] effs].
  by exists res, store', effs.
Qed.

(** A status from 400 on, other than 429, with nothing cached. *)
Lemma get_in_refused path ttl key log k st :
  reply_status (server path) = st → 400 <= st → st ≠ 429 →
  get_in server clock path ttl key (∅, log, k)
  = (ResponseError st, (∅, (log ++ [Request path])%list, S k)).
Proof.
  intros Hst Hge Hne. unfold get_in, _get, cache_get.
  rewrite lookup_empty, Hst.
  destruct (Z.eqb_spec st 429) as [|_]; [done|].
  destruct (Z.leb_spec 400 st) as [_|]; [done|lia].
Qed.

Lemma games_loop_bound league sd_date endpoints : ∀ store log k,
  ∃ res store' effs k',
    games_loop server clock league sd_date endpoints (store, log, k)
    = (res, (store', (log ++ effs)%list, k'))
    ∧ res ≠ ResponseError 404
    ∧ (count_requests effs <= length endpoints)%nat
    ∧ (k' <= k + length endpoints)%nat.
Proof.
  induction endpoints as [|ep rest IH]; intros store log k.
  - exists (Data (JArr [])), store, [], k. cbn. rewrite app_nil_r.
    repeat split; try done; lia.
  - cbn [games_loop].
    destruct (get_in_bound
                ("/v3/" ++ league ++ "/scores/json/" ++ ep ++ "/" ++ sd_date)
                TTL_SCORES ("scores:" ++ league ++ ":" ++ sd_date ++ ":" ++ ep)
                store log k) as (res & store' & effs & -> & Hb).
    destruct res as [d|st|].
    + exists (Data d), store', effs, (S k). cbn [length]. repeat split; [done|lia|lia].
    + destruct (Z.eqb_spec st 404) as [->|Hne].
      * destruct (IH store' (log ++ effs)%list (S k))
          as (res & store2 & effs2 & k2 & -> & Hres & Hc & Hk).
        exists res, store2, (effs ++ effs2)%list, k2.
        rewrite app_assoc, count_requests_app. cbn [length].
        repeat split; [done|lia|lia].
      * exists (ResponseError st), store', effs, (S k). cbn [length].
        repeat split; [congruence|lia|lia].
    + exists BodyError, store', effs, (S k). cbn [length]. repeat split; [done|lia|lia].
Qed.

Lemma games_loop_missing league sd_date endpoints :
  (∀ path, reply_status (server path) = 404) →
  ∀ log k, ∃ effs,
    games_loop server clock league sd_date endpoints (∅, log, k)
    = (Data (JArr []), (∅, (log ++ effs)%list, (k + length endpoints)%nat))
    ∧ count_requests effs = length endpoints.
Proof.
  intros Hall. induction endpoints as [|ep rest IH]; intros log k.
  - exists []. cbn. by rewrite app_nil_r, Nat.add_0_r.
  - cbn [games_loop]. rewrite (get_in_refused _ _ _ _ _ 404); [|done|lia|lia].
    cbn [Z.eqb Pos.eqb].
    destruct (IH (log ++ [Request ("/v3/" ++ league ++ "/scores/json/" ++ ep
                                   ++ "/" ++ sd_date)])%list (S k))
      as (effs & -> & Hc).
    exists (Request ("/v3/" ++ league ++ "/scores/json/" ++ ep ++ "/" ++ sd_date)
            :: effs).
    rewrite <- app_assoc. cbn [app length count_requests].
    split; [|by rewrite Hc].
    by replace (S k + length rest)%nat with (k + S (length rest))%nat by lia.
Qed.

Lemma standings_loop_bound league candidates : ∀ store log k,
  ∃ res store' effs k',
    standings_loop server clock league candidates (store, log, k)
    = (res, (store', (log ++ effs)%list, k'))
    ∧ res ≠ ResponseError 400 ∧ res ≠ ResponseError 404
    ∧ (∀ d, res = Data d → ∃ items, d = JArr items)
    ∧ (count_requests effs <= length candidates)%nat
    ∧ (k' <= k + length candidates)%nat.
Proof.
  induction candidates as [|[season ep] rest IH]; intros store log k.
  - exists (Data (JArr [])), store, [], k. cbn. rewrite app_nil_r.
    repeat split; try done; try lia. intros d [= <-]. by eexists.
  - cbn [standings_loop].
    destruct (get_in_bound (ep_format ep league season) TTL_STAND
                ("stand:" ++ league ++ ":" ++ season ++ ":" ++ ep_template ep)
                store log k) as (res & store' & effs & -> & Hb).
    assert (Hnext :
      ∃ res2 store2 effs2 k2,
        standings_loop server clock league rest (store', (log ++ effs)%list, S k)
        = (res2, (store2, (log ++ effs2)%list, k2))
        ∧ res2 ≠ ResponseError 400 ∧ res2 ≠ ResponseError 404
        ∧ (∀ d, res2 = Data d → ∃ items, d = JArr items)
        ∧ (count_requests effs2 <= length ((season, ep) :: rest))%nat
        ∧ (k2 <= k + length ((season, ep) :: rest))%nat).
    { destruct (IH store' (log ++ effs)%list (S k))
        as (res2 & store2 & effs2 & k2 & -> & H400 & H404 & Hd & Hc & Hk).
      exists res2, store2, (effs ++ effs2)%list, k2.
      rewrite app_assoc, count_requests_app. cbn [length].
      repeat split; try done; lia. }
    destruct res as [d|st|].
    + destruct d as [| | | | |[|x xs]|]; try exact Hnext.
      exists (Data (JArr (x :: xs))), store', effs, (S k). cbn [length].
      repeat split; try done; try lia. intros d [= <-]. by eexists.
    + destruct (Z.eqb_spec st 400) as [->|H400]; [exact Hnext|].
      destruct (Z.eqb_spec st 404) as [->|H404]; [exact Hnext|].
      cbn [orb]. exists (ResponseError st), store', effs, (S k). cbn [length].
      repeat split; try congruence; lia.
    + exists BodyError, store', effs, (S k). cbn [length].
      repeat split; try done; lia.
Qed.

Lemma standings_loop_missing league candidates :
  (∀ path, reply_status (server path) = 404) →
  ∀ log k, ∃ effs,
    standings_loop server clock league candidates (∅, log, k)
    = (Data (JArr []), (∅, (log ++ effs)%list, (k + length candidates)%nat))
    ∧ count_requests effs = length candidates.
Proof.
  intros Hall. induction candidates as [|[season ep] rest IH]; intros log k.
  - exists []. cbn. by rewrite app_nil_r, Nat.add_0_r.
  - cbn [standings_loop]. rewrite (get_in_refused _ _ _ _ _ 404); [|done|lia|lia].
    cbn [Z.eqb Pos.eqb orb].
    destruct (IH (log ++ [Request (ep_format ep league season)])%list (S k))
      as (effs & -> & Hc).
    exists (Request (ep_format ep league season) :: effs).
    rewrite <- app_assoc. cbn [app length count_requests].
    split; [|by rewrite Hc].
    by replace (S k + length rest)%nat with (k + S (length rest))%nat by lia.
Qed.

End fetch_facts.

(** X24.  [games_by_date] never ends in the error of a 404: it asks the
    second endpoint after a 404 of the first, makes at most two calls and
    two requests, and when every path is missing and nothing is cached it
    answers the empty list, after two requests, and stores nothing.  It
    raises before any call exactly when the sport has no league. *)
Theorem games_by_date_answers (server : string → http_reply) (clock : nat → Q * Q)
    (to_sd : string → string) (sport date_iso : string) (store : TTLStore) :
  match games_by_date server clock to_sd sport date_iso store with
  | None => _league sport = None
  | Some (res, (store', log, k)) =>
      is_Some (_league sport)
      ∧ res ≠ ResponseError 404
      ∧ (count_requests log <= 2)%nat ∧ (k <= 2)%nat
      ∧ ((∀ path, reply_status (server path) = 404) → store = ∅ →
         res = Data (JArr []) ∧ store' = ∅ ∧ count_requests log = 2%nat)
  end.
Proof.
  unfold games_by_date. destruct (_league sport) as [league|]; [|done].
  cbn [mbind option_bind].
  destruct (games_loop_bound server clock league (to_sd date_iso)
              ["GamesByDate"; "ScoresByDate"] store [] 0%nat)
    as (res & store' & effs & k' & Hrun & Hres & Hc & Hk).
  pose proof (games_loop_missing server clock league (to_sd date_iso)
                ["GamesByDate"; "ScoresByDate"]) as Hmiss.
  rewrite Hrun. cbn [app length] in *.
  split; [done|]. split; [done|]. split; [done|]. split; [lia|].
  intros Hall ->. destruct (Hmiss Hall [] 0%nat) as (effs' & Hrun' & Hc').
  rewrite Hrun in Hrun'. cbn [app] in Hrun'. by injection Hrun' as -> -> ->.
Qed.

(** X25.  [odds_by_date] makes one call and never ends in the error of a
    403 or a 404: with nothing cached under the key, such a status gives
    the dict that marks the odds as unavailable, with that status, and
    nothing is stored, so that the next call asks again. *)
Theorem odds_by_date_answers (server : string → http_reply) (clock : nat → Q * Q)
    (to_sd : string → string) (sport date_iso : string) (store : TTLStore) :
  match odds_by_date server clock to_sd sport date_iso store with
  | None => _league sport = None
  | Some (res, (store', log, k)) =>
      res ≠ ResponseError 403 ∧ res ≠ ResponseError 404
      ∧ (count_requests log <= 1)%nat ∧ k = 1%nat
      ∧ ∀ league st,
          _league sport = Some league →
          store = ∅ →
          reply_status (server ("/v3/" ++ league ++ "/odds/json/GameOddsByDate/"
                                ++ to_sd date_iso)) = st →
          st = 403 ∨ st = 404 →
          res = Data (odds_unavailable st) ∧ store' = ∅
          ∧ count_requests log = 1%nat
  end.
Proof.
  unfold odds_by_date. destruct (_league sport) as [league|]; [|done].
  cbn [mbind option_bind]. cbn zeta.
  set (path := "/v3/" ++ league ++ "/odds/json/GameOddsByDate/" ++ to_sd date_iso).
  set (key := "odds:" ++ league ++ ":" ++ to_sd date_iso).
  destruct (get_in_bound server clock path TTL_ODDS key store [] 0%nat)
    as (res & store' & effs & Hrun & Hb).
  pose proof (get_in_refused server clock path TTL_ODDS key [] 0%nat) as Hrefused.
  rewrite Hrun. cbn [app] in *.
  destruct res as [d|st|].
  - refine (conj _ (conj _ (conj _ (conj _ _)))); try done.
    intros lg st0 [= <-] -> Hst Hor.
    rewrite (Hrefused st0) in Hrun by (done || lia). discriminate Hrun.
  - destruct (Z.eqb_spec st 403) as [->|H403];
      [|destruct (Z.eqb_spec st 404) as [->|H404]]; cbn [orb].
    + refine (conj _ (conj _ (conj _ (conj _ _)))); try done.
      intros lg st0 [= <-] -> Hst Hor.
      rewrite (Hrefused st0) in Hrun by (done || lia).
      by injection Hrun as <- <- <-.
    + refine (conj _ (conj _ (conj _ (conj _ _)))); try done.
      intros lg st0 [= <-] -> Hst Hor.
      rewrite (Hrefused st0) in Hrun by (done || lia).
      by injection Hrun as <- <- <-.
    + refine (conj _ (conj _ (conj _ (conj _ _)))); try congruence; try done.
      intros lg st0 [= <-] -> Hst Hor.
      rewrite (Hrefused st0) in Hrun by (done || lia).
      injection Hrun as <- <- <-. lia.
  - refine (conj _ (conj _ (conj _ (conj _ _)))); try done.
    intros lg st0 [= <-] -> Hst Hor.
    rewrite (Hrefused st0) in Hrun by (done || lia). discriminate Hrun.
Qed.

(** X26.  [standings] never ends in the error of a 400 or a 404, and
    makes at most 25 calls and 25 requests: the plain endpoint, then two
    years by four suffixes by three endpoints.  Once a fallback was
    called, the answer is a list (the first one that is not empty, or the
    empty list when none is left), while the plain endpoint is answered
    with whatever it gave.  When every path is missing and nothing is
    cached, the answer is the empty list after exactly 25 requests. *)
Theorem standings_answers (server : string → http_reply) (clock : nat → Q * Q)
    (year_now : Z) (sport : string) (store : TTLStore) :
  match standings server clock year_now sport store with
  | None => _league sport = None
  | Some (res, (store', log, k)) =>
      res ≠ ResponseError 400 ∧ res ≠ ResponseError 404
      ∧ (count_requests log <= 25)%nat ∧ (k <= 25)%nat
      ∧ ((1 < k)%nat → ∀ d, res = Data d → ∃ items, d = JArr items)
      ∧ ((∀ path, reply_status (server path) = 404) → store = ∅ →
         res = Data (JArr []) ∧ store' = ∅ ∧ count_requests log = 25%nat)
  end.
Proof.
  unfold standings. destruct (_league sport) as [league|]; [|done].
  cbn [mbind option_bind].
  set (path := "/v3/" ++ league ++ "/scores/json/Standings").
  set (key := "stand:" ++ league ++ ":current").
  destruct (get_in_bound server clock path TTL_STAND key store [] 0%nat)
    as (res & store' & effs & Hrun & Hb).
  pose proof (get_in_refused server clock path TTL_STAND key [] 0%nat 404) as Hrefused.
  rewrite Hrun. cbn [app] in *.
  assert (Hlen : length (standings_candidates year_now) = 24%nat) by reflexivity.
  assert (Hfall :
    let '(res2, (store2, log2, k2)) :=
      standings_loop server clock league (standings_candidates year_now)
        (store', effs, 1%nat) in
    res2 ≠ ResponseError 400 ∧ res2 ≠ ResponseError 404
    ∧ (count_requests log2 <= 25)%nat ∧ (k2 <= 25)%nat
    ∧ ((1 < k2)%nat → ∀ d, res2 = Data d → ∃ items, d = JArr items)
    ∧ ((∀ path, reply_status (server path) = 404) → store = ∅ →
       res2 = Data (JArr []) ∧ store2 = ∅ ∧ count_requests log2 = 25%nat)).
  { destruct (standings_loop_bound server clock league (standings_candidates year_now)
                store' effs 1%nat)
      as (res2 & store2 & effs2 & k2 & Hloop & H400 & H404 & Hd & Hc & Hk).
    rewrite Hloop. rewrite Hlen in *. rewrite count_requests_app.
    refine (conj _ (conj _ (conj _ (conj _ (conj _ _))))); try done; try lia.
    intros Hall ->. rewrite Hrefused in Hrun by (done || lia).
    injection Hrun as <- <- <-.
    destruct (standings_loop_missing server clock league
                (standings_candidates year_now) Hall [Request path] 1%nat)
      as (effs3 & Hloop3 & Hc3).
    rewrite Hloop in Hloop3. injection Hloop3 as -> -> Hlog _.
    rewrite Hlog, Hc3, Hlen. done. }
  destruct res as [d|st|].
  - refine (conj _ (conj _ (conj _ (conj _ (conj _ _))))); try done; try lia.
    intros Hall ->. rewrite Hrefused in Hrun by (done || lia). discriminate Hrun.
  - destruct (Z.eqb_spec st 400) as [->|H400]; [exact Hfall|].
    destruct (Z.eqb_spec st 404) as [->|H404]; [exact Hfall|]. cbn [orb].
    refine (conj _ (conj _ (conj _ (conj _ (conj _ _))))); try congruence; try lia.
    intros Hall ->. rewrite Hrefused in Hrun by (done || lia). congruence.
  - refine (conj _ (conj _ (conj _ (conj _ (conj _ _))))); try done; try lia.
    intros Hall ->. rewrite Hrefused in Hrun by (done || lia). discriminate Hrun.
Qed.

(** Every path missing and nothing cached: [standings] asks 25 times and
    answers the empty list. *)
Example standings_all_missing :
  ∃ log,
    standings missing_server still_clock 2025 "nba" ∅
    = Some (Data (JArr []), (∅, log, 25%nat))
    ∧ count_requests log = 25%nat.
Proof. eexists. split; vm_compute; reflexivity. Qed.
